(** * SpyGameMidterm: the encoding detector and the chunk orchestrator

    A shallow embedding of [myFunctionProject/encoding_detector.py] and of the
    chunking and aggregation code of [myFunctionProject/function_app.py],
    with the properties the specification states about them.

    Conventions of the embedding.
    - A Python [str] is a list of Unicode code points, a [bytes] object a list
      of octets; both are lists of [N].
    - A Python [int] is a [Z]; a length is a [nat].
    - A Python [float] is the real number it denotes.  The arithmetic on
      floats is an interface ([FloatOps]): the exact operations are one
      instance, and the theorems that depend on the outcome of a comparison
      are proved for every instance that stays within a relative error
      [eps] of the exact operations ([StandardModel]), which is what IEEE
      binary64 arithmetic does away from overflow and underflow.
    - An exception is a value: a function that can raise returns a
      [result], and [try]/[except] is a combinator on results. *)

From Stdlib Require Import List Bool Arith NArith ZArith Lia.
From Stdlib Require Import Reals Lra Permutation Sorted ListSet.
Import ListNotations.

Set Implicit Arguments.

(** ** Exceptions *)

Inductive exn : Type :=
| ValueError          (* range() step 0, bytes.fromhex on a bad string, int() *)
| BinasciiError       (* binascii.Error, raised by base64.b64decode *)
| UnicodeDecodeError  (* bytes.decode('utf-8') *)
| UnicodeEncodeError  (* str.encode('utf-8') on a lone surrogate *)
| ZeroDivisionError   (* x / 0 *)
| TypeError.

Inductive result (A : Type) : Type :=
| Ok (a : A)
| Raise (e : exn).

Arguments Ok {A} a.
Arguments Raise {A} e.

Definition bind {A B} (m : result A) (k : A -> result B) : result B :=
  match m with
  | Ok a => k a
  | Raise e => Raise e
  end.

Notation "x <- m ;; k" := (bind m (fun x => k))
  (at level 61, m at next level, right associativity).

(** [try: body except e: handler]: only the exception [e] is handled. *)
Definition exn_eqb (a b : exn) : bool :=
  match a, b with
  | ValueError, ValueError | BinasciiError, BinasciiError
  | UnicodeDecodeError, UnicodeDecodeError
  | UnicodeEncodeError, UnicodeEncodeError
  | ZeroDivisionError, ZeroDivisionError | TypeError, TypeError => true
  | _, _ => false
  end.

Definition try_except {A} (body : result A) (e : exn) (handler : result A)
  : result A :=
  match body with
  | Ok a => Ok a
  | Raise e' => if exn_eqb e' e then handler else Raise e'
  end.

(** [try: body except: handler]: the bare [except] handles everything. *)
Definition try_except_all {A} (body : result A) (handler : result A)
  : result A :=
  match body with
  | Ok a => Ok a
  | Raise _ => handler
  end.

(** A [for] loop whose body may raise: the state is threaded through and the
    first exception leaves the loop. *)
Fixpoint for_each {A S} (xs : list A) (body : S -> A -> result S) (s : S)
  : result S :=
  match xs with
  | [] => Ok s
  | x :: xs' => s' <- body s x ;; for_each xs' body s'
  end.

(** ** Strings, bytes and the built-ins on them *)

Definition char := N.
Definition str := list char.
Definition byte := N.
Definition bytes := list byte.

(** [seq[i:j]] for any integers [i] and [j] (no step). *)
Definition clamp_index (n i : Z) : Z :=
  if (i <? 0)%Z then Z.max 0 (i + n) else Z.min i n.

Definition py_slice {A} (l : list A) (i j : Z) : list A :=
  let n := Z.of_nat (length l) in
  let a := clamp_index n i in
  let b := clamp_index n j in
  firstn (Z.to_nat (b - a)) (skipn (Z.to_nat a) l).

(** [range(lo, hi, step)]: the length is computed first, as CPython does, and
    element [k] is [lo + k * step]. *)
Definition range_length (lo hi step : Z) : Z :=
  if (0 <? step)%Z
  then if (lo <? hi)%Z then ((hi - lo - 1) / step + 1)%Z else 0%Z
  else if (hi <? lo)%Z then ((lo - hi - 1) / (- step) + 1)%Z else 0%Z.

Definition py_range (lo hi step : Z) : result (list Z) :=
  if (step =? 0)%Z then Raise ValueError
  else Ok (map (fun k => (lo + Z.of_nat k * step)%Z)
               (seq 0 (Z.to_nat (range_length lo hi step)))).

(** [enumerate(xs)]. *)
Definition enumerate {A} (xs : list A) : list (nat * A) :=
  combine (seq 0 (length xs)) xs.

(** ** Floats *)

Class FloatOps : Type := {
  fadd : R -> R -> R;
  fsub : R -> R -> R;
  fmul : R -> R -> R;
  fdiv : R -> R -> R;
  flog2 : R -> R;      (* math.log2 *)
  fround2 : R -> R     (* round(x, 2) *)
}.

Definition log2 (x : R) : R := (ln x / ln 2)%R.

(** The unit round-off the theorems allow: far above that of binary64
    ([2^-53]). *)
Definition eps : R := (/ 1000000)%R.

Record StandardModel (F : FloatOps) : Prop := {
  sm_sub : forall x y, (Rabs (fsub x y - (x - y)) <= eps * Rabs (x - y))%R;
  sm_add : forall x y, (Rabs (fadd x y - (x + y)) <= eps * Rabs (x + y))%R;
  sm_mul : forall x y, (Rabs (fmul x y - x * y) <= eps * Rabs (x * y))%R;
  sm_div : forall x y, y <> 0%R ->
      (Rabs (fdiv x y - x / y) <= eps * Rabs (x / y))%R;
  sm_log2 : forall x, (0 < x)%R ->
      (Rabs (flog2 x - log2 x) <= eps * Rabs (log2 x))%R
}.

(** [x < y] and [x > y] on floats. *)
Definition Rltb (x y : R) : bool := if Rlt_dec x y then true else false.
Definition Rgtb (x y : R) : bool := Rltb y x.

(** [min(x, y)] and [max(x, y)]: the first argument wins a tie. *)
Definition py_min (x y : R) : R := if Rltb y x then y else x.
Definition py_max (x y : R) : R := if Rgtb y x then y else x.

(** [x / y] raises on a zero divisor, [math.log2(x)] outside its domain. *)
Definition py_div {F : FloatOps} (x y : R) : result R :=
  if Req_dec_T y 0 then Raise ZeroDivisionError else Ok (fdiv x y).

Definition py_log2 {F : FloatOps} (x : R) : result R :=
  if Rlt_dec 0 x then Ok (flog2 x) else Raise ValueError.

(** The exact operations. *)
Definition round_half_even (x : R) : Z :=
  let f := (up x - 1)%Z in              (* floor x *)
  let d := (x - IZR f)%R in
  if Rlt_dec d (1 / 2) then f
  else if Rlt_dec (1 / 2) d then (f + 1)%Z
  else if Z.even f then f else (f + 1)%Z.

Definition exact_ops : FloatOps := {|
  fadd := Rplus;
  fsub := Rminus;
  fmul := Rmult;
  fdiv := Rdiv;
  flog2 := log2;
  fround2 := fun x => (IZR (round_half_even (x * 100)) / 100)%R
|}.

(** ** Stable sorting

    [list.sort] is stable; [ahead y x] says that [y] has to stay in front of
    a later element [x]. *)
Fixpoint insert_by {A} (ahead : A -> A -> bool) (x : A) (l : list A) : list A :=
  match l with
  | [] => [x]
  | y :: l' => if ahead y x then y :: insert_by ahead x l' else x :: y :: l'
  end.

Definition sort_by {A} (ahead : A -> A -> bool) (l : list A) : list A :=
  fold_right (insert_by ahead) [] l.

(** ** The codecs of the standard library *)

Definition in_range (lo hi c : N) : bool := ((lo <=? c) && (c <=? hi))%N.

(** [Py_ISSPACE] *)
Definition is_ascii_space (c : char) : bool :=
  in_range 9 13 c || (c =? 32)%N.

(** [_PyLong_DigitValue], restricted to the hexadecimal digits. *)
Definition hex_digit_value (c : char) : option N :=
  if in_range 48 57 c then Some (c - 48)%N
  else if in_range 97 102 c then Some (c - 87)%N
  else if in_range 65 70 c then Some (c - 55)%N
  else None.

(** [bytes.fromhex(s)]: white space is skipped in front of a pair of digits;
    anything else than a pair of hexadecimal digits is a [ValueError]. *)
Fixpoint fromhex (s : str) : result bytes :=
  match s with
  | [] => Ok []
  | c :: r =>
      if is_ascii_space c then fromhex r
      else
        match hex_digit_value c, r with
        | Some top, d :: r' =>
            match hex_digit_value d with
            | Some bot =>
                rest <- fromhex r' ;; Ok ((N.shiftl top 4 + bot)%N :: rest)
            | None => Raise ValueError
            end
        | _, _ => Raise ValueError
        end
  end.

(** [table_a2b_base64] of [binascii]: the value of a character of the Base64
    alphabet. *)
Definition table_a2b_base64 (c : N) : option N :=
  if in_range 65 90 c then Some (c - 65)%N
  else if in_range 97 122 c then Some (c - 71)%N
  else if in_range 48 57 c then Some (c + 4)%N
  else if (c =? 43)%N then Some 62%N
  else if (c =? 47)%N then Some 63%N
  else None.

(** The loop of [binascii.a2b_base64] (not in strict mode) and the check that
    follows it.  [quad_pos], [leftchar] and [pads] are the C variables;
    [bin_data] is the output so far. *)
Fixpoint a2b_base64_loop (ascii : list N) (quad_pos leftchar pads : N)
    (bin_data : bytes) : result bytes :=
  match ascii with
  | [] => if (quad_pos =? 0)%N then Ok bin_data else Raise BinasciiError
  | this_ch :: rest =>
      if (this_ch =? 61)%N then
        if (2 <=? quad_pos)%N then
          if (4 <=? quad_pos + (pads + 1))%N then Ok bin_data
          else a2b_base64_loop rest quad_pos leftchar (pads + 1)%N bin_data
        else a2b_base64_loop rest quad_pos leftchar pads bin_data
      else
        match table_a2b_base64 this_ch with
        | None => a2b_base64_loop rest quad_pos leftchar pads bin_data
        | Some v =>
            if (quad_pos =? 0)%N then
              a2b_base64_loop rest 1%N v 0%N bin_data
            else if (quad_pos =? 1)%N then
              a2b_base64_loop rest 2%N (N.land v 15) 0%N
                (bin_data ++ [N.lor (N.shiftl leftchar 2) (N.shiftr v 4)])
            else if (quad_pos =? 2)%N then
              a2b_base64_loop rest 3%N (N.land v 3) 0%N
                (bin_data ++ [N.lor (N.shiftl leftchar 4) (N.shiftr v 2)])
            else
              a2b_base64_loop rest 0%N 0%N 0%N
                (bin_data ++ [N.lor (N.shiftl leftchar 6) v])
        end
  end.

Definition a2b_base64 (ascii : list N) : result bytes :=
  a2b_base64_loop ascii 0%N 0%N 0%N [].

(** [base64.b64decode(s)] of a [str]: the string is encoded as ASCII first. *)
Definition b64decode (s : str) : result bytes :=
  if forallb (fun c => (c <? 128)%N) s then a2b_base64 s
  else Raise ValueError.

(** [bytes.decode('utf-8')], strict: no overlong form, no surrogate, nothing
    above U+10FFFF. *)
Definition is_cont (b : byte) : bool := in_range 128 191 b.

Definition cont_bits (b : byte) : N := N.land b 63.

Fixpoint utf8_decode (bs : bytes) : result str :=
  match bs with
  | [] => Ok []
  | b0 :: r =>
      if (b0 <? 128)%N then s <- utf8_decode r ;; Ok (b0 :: s)
      else if in_range 194 223 b0 then
        match r with
        | b1 :: r1 =>
            if is_cont b1 then
              s <- utf8_decode r1 ;;
              Ok (N.lor (N.shiftl (N.land b0 31) 6) (cont_bits b1) :: s)
            else Raise UnicodeDecodeError
        | _ => Raise UnicodeDecodeError
        end
      else if in_range 224 239 b0 then
        match r with
        | b1 :: b2 :: r2 =>
            if is_cont b1 && is_cont b2
               && (negb (b0 =? 224)%N || (160 <=? b1)%N)
               && (negb (b0 =? 237)%N || (b1 <? 160)%N)
            then
              s <- utf8_decode r2 ;;
              Ok (N.lor (N.shiftl (N.land b0 15) 12)
                    (N.lor (N.shiftl (cont_bits b1) 6) (cont_bits b2)) :: s)
            else Raise UnicodeDecodeError
        | _ => Raise UnicodeDecodeError
        end
      else if in_range 240 244 b0 then
        match r with
        | b1 :: b2 :: b3 :: r3 =>
            if is_cont b1 && is_cont b2 && is_cont b3
               && (negb (b0 =? 240)%N || (144 <=? b1)%N)
               && (negb (b0 =? 244)%N || (b1 <? 144)%N)
            then
              s <- utf8_decode r3 ;;
              Ok (N.lor (N.shiftl (N.land b0 7) 18)
                    (N.lor (N.shiftl (cont_bits b1) 12)
                       (N.lor (N.shiftl (cont_bits b2) 6) (cont_bits b3)))
                  :: s)
            else Raise UnicodeDecodeError
        | _ => Raise UnicodeDecodeError
        end
      else Raise UnicodeDecodeError
  end.

(** [format(byte, '08b')] of an octet: its eight binary digits. *)
Definition format_08b (b : byte) : str :=
  map (fun i => if N.testbit b i then 49%N else 48%N)
    [7; 6; 5; 4; 3; 2; 1; 0]%N.

(** [''.join(format(byte, '08b') for byte in decoded)] *)
Definition bit_string (decoded : bytes) : str := flat_map format_08b decoded.

(** *** The encoders, which the round-trip property is stated with *)

(** [str.encode('utf-8')] *)
Definition utf8_encode_char (c : char) : result bytes :=
  if (c <? 128)%N then Ok [c]
  else if (c <? 2048)%N then
    Ok [N.lor 192 (N.shiftr c 6); N.lor 128 (N.land c 63)]
  else if (c <? 65536)%N then
    if in_range 55296 57343 c then Raise UnicodeEncodeError
    else Ok [N.lor 224 (N.shiftr c 12);
             N.lor 128 (N.land (N.shiftr c 6) 63);
             N.lor 128 (N.land c 63)]
  else if (c <? 1114112)%N then
    Ok [N.lor 240 (N.shiftr c 18);
        N.lor 128 (N.land (N.shiftr c 12) 63);
        N.lor 128 (N.land (N.shiftr c 6) 63);
        N.lor 128 (N.land c 63)]
  else Raise ValueError.

Fixpoint utf8_encode (s : str) : result bytes :=
  match s with
  | [] => Ok []
  | c :: s' =>
      bs <- utf8_encode_char c ;; rest <- utf8_encode s' ;; Ok (bs ++ rest)
  end.

(** [table_b2a_base64]: the Base64 alphabet. *)
Definition table_b2a_base64 (v : N) : char :=
  if (v <? 26)%N then (v + 65)%N
  else if (v <? 52)%N then (v + 71)%N
  else if (v <? 62)%N then (v - 4)%N
  else if (v =? 62)%N then 43%N
  else 47%N.

(** [base64.b64encode(bs).decode('ascii')] *)
Fixpoint b64encode (bs : bytes) : str :=
  match bs with
  | [] => []
  | [a] =>
      [table_b2a_base64 (N.shiftr a 2);
       table_b2a_base64 (N.shiftl (N.land a 3) 4); 61%N; 61%N]
  | [a; b] =>
      [table_b2a_base64 (N.shiftr a 2);
       table_b2a_base64 (N.lor (N.shiftl (N.land a 3) 4) (N.shiftr b 4));
       table_b2a_base64 (N.shiftl (N.land b 15) 2); 61%N]
  | a :: b :: c :: rest =>
      table_b2a_base64 (N.shiftr a 2)
      :: table_b2a_base64 (N.lor (N.shiftl (N.land a 3) 4) (N.shiftr b 4))
      :: table_b2a_base64 (N.lor (N.shiftl (N.land b 15) 2) (N.shiftr c 6))
      :: table_b2a_base64 (N.land c 63)
      :: b64encode rest
  end.

(** [bs.hex()] *)
Definition hex_char (v : N) : char :=
  if (v <? 10)%N then (v + 48)%N else (v + 87)%N.

Definition hexlify (bs : bytes) : str :=
  flat_map (fun b => [hex_char (N.shiftr b 4); hex_char (N.land b 15)]) bs.

(** ** The compiled patterns

    [finditer] scans the text from left to right; at a position where the
    pattern matches, the match is reported and the scan goes on behind it.
    [matcher l] is the match of the pattern at the start of [l]; none of the
    patterns matches the empty string. *)
Fixpoint finditer_from (matcher : str -> option str) (l : str) (skip : nat)
  : list str :=
  match l with
  | [] => []
  | _ :: l' =>
      match skip with
      | S k => finditer_from matcher l' k
      | O =>
          match matcher l with
          | Some m => m :: finditer_from matcher l' (length m - 1)
          | None => finditer_from matcher l' 0
          end
      end
  end.

Definition finditer (matcher : str -> option str) (text : str) : list str :=
  finditer_from matcher text 0.

Fixpoint take_while (p : char -> bool) (l : str) : str :=
  match l with
  | c :: l' => if p c then c :: take_while p l' else []
  | [] => []
  end.

Fixpoint take_upto (n : nat) (p : char -> bool) (l : str) : str :=
  match n, l with
  | S n', c :: l' => if p c then c :: take_upto n' p l' else []
  | _, _ => []
  end.

(** [[A-Za-z0-9+/]] *)
Definition is_base64_char (c : char) : bool :=
  in_range 65 90 c || in_range 97 122 c || in_range 48 57 c
  || (c =? 43)%N || (c =? 47)%N.

(** [[0-9A-Fa-f]] *)
Definition is_hex_char (c : char) : bool :=
  in_range 48 57 c || in_range 65 70 c || in_range 97 102 c.

Definition is_equals (c : char) : bool := (c =? 61)%N.

(** [self.min_length] *)
Definition min_length : nat := 16.

(** [[A-Za-z0-9+/]{16,}={0,3}]: both quantifiers are greedy and what follows
    them always matches, so the longest run is the match. *)
Definition pattern_base64 (l : str) : option str :=
  let run := take_while is_base64_char l in
  if (min_length <=? length run)%nat
  then Some (run ++ take_upto 3 is_equals (skipn (length run) l))
  else None.

(** [[0-9A-Fa-f]{16,}] *)
Definition pattern_hex (l : str) : option str :=
  let run := take_while is_hex_char l in
  if (min_length <=? length run)%nat then Some run else None.

(** [(?:%[0-9A-Fa-f]{2}){3,}] *)
Fixpoint percent_groups (l : str) : str :=
  match l with
  | p :: a :: b :: l' =>
      if (p =? 37)%N && is_hex_char a && is_hex_char b
      then p :: a :: b :: percent_groups l'
      else []
  | _ => []
  end.

Definition pattern_url (l : str) : option str :=
  let run := percent_groups l in
  if (9 <=? length run)%nat then Some run else None.

(** [s.rstrip('=')] and [s.replace('%', '')] *)
Fixpoint drop_while (p : char -> bool) (l : str) : str :=
  match l with
  | c :: l' => if p c then drop_while p l' else l
  | [] => []
  end.

Definition rstrip_equals (s : str) : str := rev (drop_while is_equals (rev s)).

Definition remove_percent (s : str) : str :=
  filter (fun c => negb (c =? 37)%N) s.

(** ** The tables of the Unicode database

    [str.isalpha] and [str.isprintable] of one character come from the
    Unicode database of the interpreter; they are parameters. *)
Class UnicodeTables : Type := {
  isalpha : char -> bool;
  isprintable : char -> bool
}.

(** The two tables on ASCII, and nothing beyond. *)
Definition ascii_tables : UnicodeTables := {|
  isalpha := fun c => in_range 65 90 c || in_range 97 122 c;
  isprintable := fun c => in_range 32 126 c
|}.

(** The characters of the string literal in [has_common_chars]: the space,
    the marks . , ; : ? ! - the three pairs of brackets and the two quotes. *)
Definition common_chars : str :=
  [32; 46; 44; 59; 58; 63; 33; 45; 40; 41; 91; 93; 123; 125; 34; 39]%N.

(** ** The findings *)

Inductive finding_type : Type :=
| base64 | base64_binary | hexadecimal | hex_binary | url_encoding
| high_entropy.

(** The dictionaries the detectors append: a key that a dictionary does not
    have is [None]. *)
Record finding : Type := {
  f_type : finding_type;
  f_content : str;
  f_sample_decoded : option str;
  f_block_index : option nat;
  f_entropy : option R;
  f_confidence : R
}.

(** ['...'] *)
Definition ellipsis : str := [46; 46; 46]%N.

(** [s[:50] + ('...' if len(s) > 50 else '')] *)
Definition sample50 (s : str) : str :=
  firstn 50 s ++ (if (50 <? length s)%nat then ellipsis else []).

(** ** The detector *)

Section Detector.

Context {F : FloatOps} {U : UnicodeTables}.

(** *** [calculate_entropy] *)

(** [char_count[char] += 1] or [char_count[char] = 1]; the dictionary keeps
    its keys in the order of their insertion. *)
Fixpoint dict_incr (ch : char) (d : list (char * nat)) : list (char * nat) :=
  match d with
  | [] => [(ch, 1%nat)]
  | (k, n) :: d' =>
      if N.eqb k ch then (k, S n) :: d' else (k, n) :: dict_incr ch d'
  end.

Definition char_count (text : str) : list (char * nat) :=
  fold_left (fun d ch => dict_incr ch d) text [].

Definition entropy_step (length : nat) (entropy : R) (count : nat) : result R :=
  probability <- py_div (INR count) (INR length) ;;
  l <- py_log2 probability ;;
  Ok (fsub entropy (fmul probability l)).

Definition calculate_entropy (text : str) : result R :=
  match text with
  | [] => Ok 0%R
  | _ => for_each (map snd (char_count text)) (entropy_step (length text)) 0%R
  end.

(** *** [is_readable_text] *)

Definition count_printable (text : str) : nat :=
  length (filter isprintable text).

Definition is_readable_text (text : str) : result bool :=
  match text with
  | [] => Ok false
  | _ =>
      let has_letters := existsb isalpha text in
      let has_common_chars :=
        existsb (fun c => existsb (N.eqb c) common_chars) text in
      printable_ratio <-
        py_div (INR (count_printable text)) (INR (length text)) ;;
      Ok (has_letters && has_common_chars && Rgtb printable_ratio (95 / 100))
  end.

(** *** [detect_base64] *)

Definition text_finding (t : finding_type) (encoded decoded_text : str)
    (confidence : R) : finding :=
  {| f_type := t;
     f_content := encoded;
     f_sample_decoded := Some (sample50 decoded_text);
     f_block_index := None;
     f_entropy := None;
     f_confidence := confidence |}.

Definition binary_finding (t : finding_type) (encoded : str)
    (binary_entropy confidence : R) : finding :=
  {| f_type := t;
     f_content := encoded;
     f_sample_decoded := None;
     f_block_index := None;
     f_entropy := Some binary_entropy;
     f_confidence := confidence |}.

(** The inner [try]: the decoded bytes are text, or [UnicodeDecodeError]
    sends them to the entropy check ([binary = None]: to [pass]). *)
Definition classify_decoded (findings : list finding) (encoded : str)
    (decoded : bytes) (t : finding_type) (confidence : R)
    (binary : option (finding_type * R)) : result (list finding) :=
  try_except
    (decoded_text <- utf8_decode decoded ;;
     readable <- is_readable_text decoded_text ;;
     if readable
     then Ok (findings ++ [text_finding t encoded decoded_text confidence])
     else Ok findings)
    UnicodeDecodeError
    (match binary with
     | Some (tb, cb) =>
         binary_entropy <- calculate_entropy (bit_string decoded) ;;
         if Rgtb binary_entropy 7
         then Ok (findings ++ [binary_finding tb encoded binary_entropy cb])
         else Ok findings
     | None => Ok findings
     end).

(** [padded]: [encoded] filled up with ['='] to a multiple of 4. *)
Definition pad_base64 (encoded : str) : str :=
  let padding :=
    if (length encoded mod 4 =? 0)%nat then 0%nat
    else (4 - length encoded mod 4)%nat in
  encoded ++ repeat 61%N padding.

Definition base64_candidate (findings : list finding) (encoded : str)
  : result (list finding) :=
  if (length (rstrip_equals encoded) <? min_length)%nat then Ok findings
  else
    try_except_all
      (decoded <- b64decode (pad_base64 encoded) ;;
       classify_decoded findings encoded decoded base64 (9 / 10)
         (Some (base64_binary, (7 / 10)%R)))
      (Ok findings).

Definition detect_base64 (text : str) : result (list finding) :=
  for_each (finditer pattern_base64 text) base64_candidate [].

(** *** [detect_hex] *)

Definition hex_candidate (findings : list finding) (encoded : str)
  : result (list finding) :=
  if negb (length encoded mod 2 =? 0)%nat then Ok findings
  else
    try_except_all
      (decoded <- fromhex encoded ;;
       classify_decoded findings encoded decoded hexadecimal (85 / 100)
         (Some (hex_binary, (6 / 10)%R)))
      (Ok findings).

Definition detect_hex (text : str) : result (list finding) :=
  for_each (finditer pattern_hex text) hex_candidate [].

(** *** [detect_url_encoding] *)

Definition url_candidate (findings : list finding) (encoded : str)
  : result (list finding) :=
  try_except_all
    (decoded <- fromhex (remove_percent encoded) ;;
     classify_decoded findings encoded decoded url_encoding (8 / 10) None)
    (Ok findings).

Definition detect_url_encoding (text : str) : result (list finding) :=
  for_each (finditer pattern_url text) url_candidate [].

(** *** [detect_high_entropy] *)

Definition high_entropy_confidence (entropy : R) : R :=
  py_min (fadd (5 / 10) (fdiv (fsub entropy 7) 2)) (95 / 100).

Definition high_entropy_finding (i : nat) (block : str) (entropy : R)
  : finding :=
  {| f_type := high_entropy;
     f_content := sample50 block;
     f_sample_decoded := None;
     f_block_index := Some i;
     f_entropy := Some entropy;
     f_confidence := high_entropy_confidence entropy |}.

Definition high_entropy_block (block_size : Z) (findings : list finding)
    (ib : nat * str) : result (list finding) :=
  let (i, block) := ib in
  if Rltb (INR (length block)) (fdiv (IZR block_size) 2) then Ok findings
  else
    entropy <- calculate_entropy block ;;
    if Rgtb entropy 7
    then Ok (findings ++ [high_entropy_finding i block entropy])
    else Ok findings.

Definition blocks_of (text : str) (block_size : Z) : result (list str) :=
  idxs <- py_range 0 (Z.of_nat (length text)) block_size ;;
  Ok (map (fun i => py_slice text i (i + block_size)) idxs).

Definition detect_high_entropy (text : str) (block_size : Z)
  : result (list finding) :=
  if Rltb (INR (length text)) (fdiv (IZR block_size) 2) then Ok []
  else
    blocks <- blocks_of text block_size ;;
    for_each (enumerate blocks) (high_entropy_block block_size) [].

(** *** [detect_encodings] *)

(** The reasons are formatted strings; the embedding keeps what they are
    formatted from. *)
Inductive suspicion_reason : Type :=
| High_pattern_density (pattern_density : R)
| Multiple_high_confidence_patterns (n : nat)
| High_entropy_blocks_found (n : nat)
| Multiple_Base64_patterns (n : nat).

Record detection : Type := {
  findings : list finding;
  suspicious : bool;
  suspicion_score : R;
  suspicion_reasons : list suspicion_reason
}.

Definition default_block_size : Z := 100.

(** [not text] *)
Definition is_empty (text : str) : bool :=
  match text with [] => true | _ => false end.

Definition entropy_or_0 (f : finding) : R :=
  match f_entropy f with Some e => e | None => 0%R end.

Definition detect_encodings (text : str) : result detection :=
  if is_empty text || (length text <? min_length)%nat then
    Ok {| findings := []; suspicious := false; suspicion_score := 0;
          suspicion_reasons := [] |}
  else
    base64_findings <- detect_base64 text ;;
    hex_findings <- detect_hex text ;;
    url_findings <- detect_url_encoding text ;;
    entropy_findings <- detect_high_entropy text default_block_size ;;
    let findings :=
      base64_findings ++ hex_findings ++ url_findings ++ entropy_findings in
    let score0 := 0%R in
    let reasons0 := [] in
    let total_patterns := length findings in
    let text_length := length text in
    pattern_density <-
      py_div (INR total_patterns) (fdiv (INR text_length) 1000) ;;
    let '(score1, reasons1) :=
      if Rgtb pattern_density (5 / 10)
      then (fadd score0 pattern_density,
            reasons0 ++ [High_pattern_density pattern_density])
      else (score0, reasons0) in
    let high_confidence_patterns :=
      length (filter (fun f => Rgtb (f_confidence f) (8 / 10)) findings) in
    let '(score2, reasons2) :=
      if (3 <=? high_confidence_patterns)%nat
      then (fadd score1 (fmul (INR high_confidence_patterns) (5 / 10)),
            reasons1 ++ [Multiple_high_confidence_patterns
                           high_confidence_patterns])
      else (score1, reasons1) in
    let high_entropy_blocks :=
      length (filter (fun f => Rgtb (entropy_or_0 f) (75 / 10))
                entropy_findings) in
    let '(score3, reasons3) :=
      if (0 <? high_entropy_blocks)%nat
      then (fadd score2 (INR high_entropy_blocks),
            reasons2 ++ [High_entropy_blocks_found high_entropy_blocks])
      else (score2, reasons2) in
    let base64_patterns := length base64_findings in
    let '(score4, reasons4) :=
      if (2 <? base64_patterns)%nat
      then (fadd score3 (fmul (INR base64_patterns) (7 / 10)),
            reasons3 ++ [Multiple_Base64_patterns base64_patterns])
      else (score3, reasons3) in
    let sorted :=
      sort_by (fun y x => Rgtb (f_confidence y) (f_confidence x)) findings in
    Ok {| findings := sorted;
          suspicious := Rgtb score4 5;
          suspicion_score := fround2 score4;
          suspicion_reasons := if Rgtb score4 5 then reasons4 else [] |}.

End Detector.

(** ** The aggregator: [combine_results] *)


Definition str_eq_dec : forall a b : str, {a = b} + {a <> b} :=
  list_eq_dec N.eq_dec.

Section Aggregator.

Context {F : FloatOps}.

(** What a page carries besides the keys that [combine_results] reads: its
    text, tables, visual elements, encoded sections, formatting flags and
    rotation. *)
Variable payload : Type.

(** A page of a chunk result.  The keys read with [page.get] may be
    missing. *)
Record page : Type := {
  page_number : Z;
  page_suspicious : option bool;
  page_suspicion_score : option R;
  page_suspicion_reasons : option (list str);
  page_payload : payload
}.

Record chunk_result : Type := {
  total_pages : Z;
  processed_pages : Z;
  extracted_content : list page;
  document_metadata : option (list (str * str))
}.

Record document_analysis : Type := {
  suspicious_pages : Z;
  average_suspicion_score : R;
  overall_suspicious : bool;
  all_suspicion_reasons : list str;
  max_suspicion_score : R
}.

Record combined_result : Type := {
  c_total_pages : Z;
  c_processed_pages : Z;
  c_extracted_content : list page;
  c_document_metadata : list (str * str);
  c_document_analysis : document_analysis
}.

(** The local [total_suspicion_score] and the dictionary [combined], while
    the loops run. *)
Record accumulator : Type := {
  a_combined : combined_result;
  a_total_suspicion_score : R
}.

Definition set_analysis (c : combined_result) (d : document_analysis)
  : combined_result :=
  {| c_total_pages := c_total_pages c;
     c_processed_pages := c_processed_pages c;
     c_extracted_content := c_extracted_content c;
     c_document_metadata := c_document_metadata c;
     c_document_analysis := d |}.

(** [page.get('suspicious', False)], [page.get('suspicion_score', 0.0)] and
    [page.get('suspicion_reasons')] *)
Definition get_suspicious (p : page) : bool :=
  match page_suspicious p with Some b => b | None => false end.

Definition get_score (p : page) : R :=
  match page_suspicion_score p with Some x => x | None => 0%R end.

Definition get_reasons (p : page) : list str :=
  match page_suspicion_reasons p with Some l => l | None => [] end.

(** [s.update(l)] on a set kept as a list without repetition.  The list
    keeps the order of insertion; the order of [list(s)] in the code is
    that of the hash table, and no property below states an order. *)
Definition set_update (s : list str) (l : list str) : list str :=
  fold_left (fun s r => set_add str_eq_dec r s) l s.

(** The body of [for page in result['extracted_content']]. *)
Definition page_step (a : accumulator) (p : page) : accumulator :=
  let c := a_combined a in
  let d := c_document_analysis c in
  let score := get_score p in
  {| a_combined :=
       set_analysis c
         {| suspicious_pages :=
              if get_suspicious p then (suspicious_pages d + 1)%Z
              else suspicious_pages d;
            average_suspicion_score := average_suspicion_score d;
            overall_suspicious := overall_suspicious d;
            all_suspicion_reasons :=
              set_update (all_suspicion_reasons d) (get_reasons p);
            max_suspicion_score := py_max (max_suspicion_score d) score |};
     a_total_suspicion_score := fadd (a_total_suspicion_score a) score |}.

Definition get_metadata (r : chunk_result) : list (str * str) :=
  match document_metadata r with Some m => m | None => [] end.

(** The body of [for result in results]. *)
Definition result_step (a : accumulator) (r : chunk_result) : accumulator :=
  let c := a_combined a in
  let c' :=
    {| c_total_pages := Z.max (c_total_pages c) (total_pages r);
       c_processed_pages := (c_processed_pages c + processed_pages r)%Z;
       c_extracted_content := c_extracted_content c ++ extracted_content r;
       c_document_metadata :=
         if (length (c_document_metadata c) <? length (get_metadata r))%nat
         then get_metadata r else c_document_metadata c;
       c_document_analysis := c_document_analysis c |} in
  fold_left page_step (extracted_content r)
    {| a_combined := c';
       a_total_suspicion_score := a_total_suspicion_score a |}.

Definition initial_accumulator : accumulator :=
  {| a_combined :=
       {| c_total_pages := 0;
          c_processed_pages := 0;
          c_extracted_content := [];
          c_document_metadata := [];
          c_document_analysis :=
            {| suspicious_pages := 0;
               average_suspicion_score := 0;
               overall_suspicious := false;
               all_suspicion_reasons := [];
               max_suspicion_score := 0 |} |};
     a_total_suspicion_score := 0 |}.

(** [combined['extracted_content'].sort(key=lambda x: x['page_number'])] *)
Definition sort_pages (l : list page) : list page :=
  sort_by (fun y x => (page_number y <? page_number x)%Z) l.

(** The final metrics; the divisor [processed_pages] is positive where it is
    used. *)
Definition final_analysis (processed : Z) (total_suspicion_score : R)
    (d : document_analysis) : document_analysis :=
  if (0 <? processed)%Z then
    let average :=
      fround2 (fdiv total_suspicion_score (IZR processed)) in
    let suspicious_page_ratio :=
      fdiv (IZR (suspicious_pages d)) (IZR processed) in
    {| suspicious_pages := suspicious_pages d;
       average_suspicion_score := average;
       overall_suspicious :=
         Rgtb suspicious_page_ratio (2 / 10)
         || Rgtb average 3
         || Rgtb (max_suspicion_score d) 7;
       all_suspicion_reasons := all_suspicion_reasons d;
       max_suspicion_score := max_suspicion_score d |}
  else d.

Definition combine_results (results : list chunk_result) : combined_result :=
  let a := fold_left result_step results initial_accumulator in
  let c := a_combined a in
  {| c_total_pages := c_total_pages c;
     c_processed_pages := c_processed_pages c;
     c_extracted_content := sort_pages (c_extracted_content c);
     c_document_metadata := c_document_metadata c;
     c_document_analysis :=
       final_analysis (c_processed_pages c) (a_total_suspicion_score a)
         (c_document_analysis c) |}.

(** ** The orchestrator *)

(** [chunks = [(i, min(i + chunk_size, total_pages))
               for i in range(0, total_pages, chunk_size)]] *)
Definition chunks_of (total_pages chunk_size : Z) : result (list (Z * Z)) :=
  idxs <- py_range 0 total_pages chunk_size ;;
  Ok (map (fun i => (i, Z.min (i + chunk_size) total_pages)) idxs).

(** A value of a JSON body. *)
Inductive json : Type :=
| JNull
| JBool (b : bool)
| JInt (n : Z)
| JFloat (x : R)
| JString (s : str).

(** A request: a multipart upload with its file and the form field
    [chunk_size], or a JSON body ([None]: not JSON) with the keys [pdf_data]
    and [chunk_size]. *)
Inductive request : Type :=
| Multipart (pdf_file : option bytes) (form_chunk_size : option str)
| Json_payload (body : option (option str * option json)).

Inductive response : Type :=
| Http_200 (body : combined_result)
| Http_400
| Http_500 (e : exn).

(** The collaborators: [int] on a string of the form, the page count that
    the priming call of the PDF processor returns, and the processor
    function that a chunk is posted to. *)
Variable int_of_str : str -> result Z.
Variable count_pages : str -> result Z.
Variable process_chunk : str -> Z * Z -> result chunk_result.

Definition default_chunk_size : Z := 5.

(** The integer that [range] and [+] take a JSON value for. *)
Definition as_integer (v : json) : result Z :=
  match v with
  | JInt n => Ok n
  | JBool b => Ok (if b then 1 else 0)%Z
  | _ => Raise TypeError
  end.

(** [chunk_size] of a multipart request. *)
Definition form_chunk_size_value (field : option str) : result Z :=
  match field with
  | None => Ok default_chunk_size
  | Some s =>
      try_except (try_except (int_of_str s) ValueError (Ok 5%Z))
        TypeError (Ok 5%Z)
  end.

(** [chunk_size] of a JSON request: [req_body.get('chunk_size', 5)]. *)
Definition json_chunk_size_value (field : option json) : json :=
  match field with
  | None => JInt default_chunk_size
  | Some v => v
  end.

Fixpoint gather {A B} (f : A -> result B) (l : list A) : result (list B) :=
  match l with
  | [] => Ok []
  | x :: l' => y <- f x ;; ys <- gather f l' ;; Ok (y :: ys)
  end.

(** From [if not pdf_data] to the response. *)
Definition run_orchestrator (pdf_data : str) (chunk_size : json)
  : result response :=
  if is_empty pdf_data then Ok Http_400
  else
    total <- count_pages pdf_data ;;
    step <- as_integer chunk_size ;;
    chunks <- chunks_of total step ;;
    results <- gather (process_chunk pdf_data) chunks ;;
    Ok (Http_200 (combine_results results)).

Definition orchestrator_function (req : request) : response :=
  let outcome :=
    match req with
    | Multipart None _ => Ok Http_400
    | Multipart (Some pdf_bytes) field =>
        chunk_size <- form_chunk_size_value field ;;
        run_orchestrator (b64encode pdf_bytes) (JInt chunk_size)
    | Json_payload None => Ok Http_400
    | Json_payload (Some (None, _)) => Ok Http_400
    | Json_payload (Some (Some pdf_data, field)) =>
        run_orchestrator pdf_data (json_chunk_size_value field)
    end in
  match outcome with
  | Ok r => r
  | Raise e => Http_500 e
  end.

End Aggregator.

Arguments Http_400 {payload}.
Arguments Http_500 {payload} e.

(** * The vocabulary of the properties *)

(** ** Chunks *)

(** The ranges of [cs] follow one another from [a] to [b], none of them
    empty. *)
Fixpoint contiguous (a : Z) (cs : list (Z * Z)) (b : Z) : Prop :=
  match cs with
  | [] => a = b
  | (s, e) :: cs' => s = a /\ (s < e)%Z /\ contiguous e cs' b
  end.

(** All ranges have [size] pages, but the last one, which has at most
    [size]. *)
Fixpoint full_but_last (size : Z) (cs : list (Z * Z)) : Prop :=
  match cs with
  | [] => True
  | [(s, e)] => (e - s <= size)%Z
  | (s, e) :: cs' => (e - s = size)%Z /\ full_but_last size cs'
  end.

Definition in_chunk (p : Z) (c : Z * Z) : Prop := (fst c <= p < snd c)%Z.


(** ** Aggregation *)

Section Aggregation_vocabulary.

Context {F : FloatOps}.
Variable payload : Type.

(** All pages of the chunk results, in the order of the chunks. *)
Definition all_pages (results : list (chunk_result payload))
  : list (page payload) :=
  flat_map (@extracted_content payload) results.

(** The sum of [processed_pages] over the chunk results. *)
Definition sum_processed (results : list (chunk_result payload)) : Z :=
  fold_left Z.add (map (@processed_pages payload) results) 0%Z.



Definition count_suspicious (pages : list (page payload)) : Z :=
  Z.of_nat (length (filter (@get_suspicious payload) pages)).

(** The analysis in an accumulator. *)
Definition acc_analysis (a : accumulator payload) : document_analysis :=
  c_document_analysis (a_combined a).

(** Ascending page numbers. *)
Definition page_lt (p q : page payload) : Prop :=
  (page_number p < page_number q)%Z.

Definition page_le (p q : page payload) : Prop :=
  (page_number p <= page_number q)%Z.

End Aggregation_vocabulary.

(** ** Findings *)

(** All findings of a list are of one type. *)
Definition all_of_type (t : finding_type) (fs : list finding) : Prop :=
  Forall (fun f => f_type f = t) fs.

(** ** Sample data *)

(** A page that carries nothing but its number, its flag and its score. *)
Definition sample_page (n : Z) (flag : bool) (score : R) : page unit :=
  {| page_number := n;
     page_suspicious := Some flag;
     page_suspicion_score := Some score;
     page_suspicion_reasons := None;
     page_payload := tt |}.

(** Two chunk results of a document of three pages. *)
Definition sample_chunk_a : chunk_result unit :=
  {| total_pages := 3;
     processed_pages := 2;
     extracted_content := [sample_page 0 false 0; sample_page 1 true 8];
     document_metadata := None |}.

Definition sample_chunk_b : chunk_result unit :=
  {| total_pages := 3;
     processed_pages := 1;
     extracted_content := [sample_page 2 false 1];
     document_metadata := None |}.

(** Collaborators for a sample run of the orchestrator: a document of 12
    pages, and a processor that returns a chunk result without pages. *)
Definition sample_int_of_str (s : str) : result Z := Raise ValueError.

Definition sample_count_pages (pdf_data : str) : result Z := Ok 12%Z.

Definition sample_process_chunk (pdf_data : str) (range : Z * Z)
  : result (chunk_result unit) :=
  Ok {| total_pages := 12;
        processed_pages := snd range - fst range;
        extracted_content := [];
        document_metadata := None |}.

(** ** Entropy *)

(** The sum of a list of counts. *)
Definition total_count (cs : list nat) : nat := fold_right Nat.add 0%nat cs.

(** A bound on the absolute value of the term that [calculate_entropy]
    subtracts for a character seen [c] times in a text of [len] characters,
    when the arithmetic follows the standard model. *)
Definition term_bound (len c : nat) : R :=
  ((1 + eps) ^ 3 * ((INR c / INR len) * (log2 (INR len / INR c) + 4 * eps)))%R.

Definition sum_term_bounds (len : nat) (cs : list nat) : R :=
  fold_right (fun c acc => (term_bound len c + acc)%R) 0%R cs.

(** A text of [n] characters, all different: the code points from 0. *)
Definition distinct_block (n : nat) : str := map N.of_nat (seq 0 n).

(** The text [Hello, world! Hello], which is its own UTF-8 encoding. *)
Definition sample_text : str :=
  [72; 101; 108; 108; 111; 44; 32; 119; 111; 114; 108; 100; 33; 32;
   72; 101; 108; 108; 111]%N.

(** ** Checks by computation *)

(** [p] holds of every number below [n]. *)
Definition forall_below (n : N) (p : N -> bool) : bool :=
  N.peano_rect (fun _ => bool) true (fun k acc => p k && acc) n.

(** Equality of optional numbers. *)
Definition option_eqb (a b : option N) : bool :=
  match a, b with
  | Some x, Some y => N.eqb x y
  | None, None => true
  | _, _ => false
  end.

(** The four sextets of three octets. *)
Definition sextet0 (a : N) : N := N.shiftr a 2.

Definition sextet1 (a b : N) : N :=
  N.lor (N.shiftl (N.land a 3) 4) (N.shiftr b 4).

Definition sextet2 (b c : N) : N :=
  N.lor (N.shiftl (N.land b 15) 2) (N.shiftr c 6).

Definition sextet3 (c : N) : N := N.land c 63.

(** What is checked of a sextet, of two octets, of a code point and of an
    octet. *)
Definition alphabet_check (v : N) : bool :=
  negb (table_b2a_base64 v =? 61)%N
  && option_eqb (table_a2b_base64 (table_b2a_base64 v)) (Some v)
  && (table_b2a_base64 v <? 128)%N
  && is_base64_char (table_b2a_base64 v).

Definition octet_pair_check (a b : N) : bool :=
  (sextet0 a <? 64)%N
  && (sextet1 a b <? 64)%N
  && (sextet2 a b <? 64)%N
  && (sextet3 a <? 64)%N
  && (N.lor (N.shiftl (sextet0 a) 2) (N.shiftr (sextet1 a b) 4) =? a)%N
  && (N.land (sextet1 a b) 15 =? N.shiftr b 4)%N
  && (N.lor (N.shiftl (N.shiftr a 4) 4) (N.shiftr (sextet2 a b) 2) =? a)%N
  && (N.land (sextet2 a b) 3 =? N.shiftr b 6)%N
  && (N.lor (N.shiftl (N.shiftr a 6) 6) (sextet3 a) =? a)%N.

Definition utf8_char_check (c : N) : bool :=
  match utf8_encode_char c with
  | Ok bs =>
      forallb (fun b => (b <? 256)%N) bs
      && match utf8_decode bs with
         | Ok [c'] => N.eqb c' c
         | _ => false
         end
  | Raise _ => true
  end.

Definition hex_byte_check (b : N) : bool :=
  let h := hex_char (N.shiftr b 4) in
  let l := hex_char (N.land b 15) in
  negb (is_ascii_space h)
  && is_hex_char h && is_hex_char l
  && match hex_digit_value h, hex_digit_value l with
     | Some top, Some bot => (N.shiftl top 4 + bot =? b)%N
     | _, _ => false
     end.

(** * Further definitions *)

(** The Shannon sum of a list of counts in a text of [n] characters. *)
Definition shannon_sum (n : nat) (cs : list nat) : R :=
  fold_right (fun c acc => (INR c / INR n * log2 (INR n / INR c) + acc)%R)
    0%R cs.

(** The number of different characters of a text. *)
Definition distinct_count (text : str) : nat := length (nodup N.eq_dec text).

Section Assessment.

Context {F : FloatOps}.

(** The four rules of [detect_encodings] that add to the score, from the
    pattern density and the three counts: the score and the reasons they
    leave. *)
Definition accumulate_score (pattern_density : R)
    (high_confidence_patterns high_entropy_blocks base64_patterns : nat)
  : R * list suspicion_reason :=
  let '(score1, reasons1) :=
    if Rgtb pattern_density (5 / 10)
    then (fadd 0 pattern_density, [High_pattern_density pattern_density])
    else (0%R, []) in
  let '(score2, reasons2) :=
    if (3 <=? high_confidence_patterns)%nat
    then (fadd score1 (fmul (INR high_confidence_patterns) (5 / 10)),
          reasons1 ++ [Multiple_high_confidence_patterns
                         high_confidence_patterns])
    else (score1, reasons1) in
  let '(score3, reasons3) :=
    if (0 <? high_entropy_blocks)%nat
    then (fadd score2 (INR high_entropy_blocks),
          reasons2 ++ [High_entropy_blocks_found high_entropy_blocks])
    else (score2, reasons2) in
  if (2 <? base64_patterns)%nat
  then (fadd score3 (fmul (INR base64_patterns) (7 / 10)),
        reasons3 ++ [Multiple_Base64_patterns base64_patterns])
  else (score3, reasons3).

(** The number of findings with a confidence above 0.8, and of blocks with
    an entropy above 7.5. *)
Definition count_high_confidence (fs : list finding) : nat :=
  length (filter (fun f => Rgtb (f_confidence f) (8 / 10)) fs).

Definition count_high_entropy (fs : list finding) : nat :=
  length (filter (fun f => Rgtb (entropy_or_0 f) (75 / 10)) fs).

End Assessment.

(** Descending confidence. *)
Definition confidence_ge (f g : finding) : Prop :=
  (f_confidence g <= f_confidence f)%R.

(** [m] occurs in [text]. *)
Definition substring (m text : str) : Prop :=
  exists pre post, text = pre ++ m ++ post.

(** The strings of [ms] occur in [text] one behind the other, without
    overlap. *)
Fixpoint in_sequence (ms : list str) (text : str) : Prop :=
  match ms with
  | [] => True
  | m :: ms' =>
      exists gap rest, text = gap ++ m ++ rest /\ in_sequence ms' rest
  end.

(** A match of a pattern is not empty and starts the string it is a match
    of. *)
Definition matches_prefix (matcher : str -> option str) : Prop :=
  forall s m, matcher s = Some m -> m <> [] /\ exists post, s = m ++ post.

Section Reported_findings.

Context {F : FloatOps} {U : UnicodeTables}.

(** The finding [f] reports the readable text its content decodes to. *)
Definition reports_text (t : finding_type) (confidence : R)
    (decode : str -> result bytes) (f : finding) : Prop :=
  exists decoded decoded_text,
    decode (f_content f) = Ok decoded
    /\ utf8_decode decoded = Ok decoded_text
    /\ is_readable_text decoded_text = Ok true
    /\ f = text_finding t (f_content f) decoded_text confidence.

End Reported_findings.

(** The strings the Base64 pattern matches. *)
Definition base64_shaped (s : str) : Prop :=
  exists body pads,
    s = body ++ pads
    /\ forallb is_base64_char body = true
    /\ (min_length <= length body)%nat
    /\ forallb is_equals pads = true
    /\ (length pads <= 3)%nat.

(** Percent-encoding of bytes: each byte is [%] and its two hexadecimal
    digits, upper-case as [urllib.parse.quote] writes them or lower-case. *)
Definition hex_digit (upper : bool) (v : N) : char :=
  if (v <? 10)%N then (v + 48)%N
  else if upper then (v + 55)%N else (v + 87)%N.

Definition percent_byte (upper : bool) (b : byte) : str :=
  [37%N; hex_digit upper (N.shiftr b 4); hex_digit upper (N.land b 15)].

Definition percent_encode (upper : bool) (bs : bytes) : str :=
  flat_map (percent_byte upper) bs.

Definition percent_byte_check (upper : bool) (b : N) : bool :=
  let h := hex_digit upper (N.shiftr b 4) in
  let l := hex_digit upper (N.land b 15) in
  negb (is_ascii_space h)
  && is_hex_char h && is_hex_char l
  && negb (h =? 37)%N && negb (l =? 37)%N
  && match hex_digit_value h, hex_digit_value l with
     | Some top, Some bot => (N.shiftl top 4 + bot =? b)%N
     | _, _ => false
     end.

(** * The PDF processor *)

(** ** [extract_tables]

    The function reads the text blocks of a page,
    [page.get_text(dict)[blocks]], as the PDF library returns them: blocks
    of lines of spans, each with a bounding box [(x0, y0, x1, y1)] of
    floats. *)

Definition bbox : Type := (R * R * R * R)%type.

Definition bbox_x0 (b : bbox) : R := let '(x0, _, _, _) := b in x0.
Definition bbox_y0 (b : bbox) : R := let '(_, y0, _, _) := b in y0.

Record span : Type := { span_text : str; span_bbox : bbox }.
Record line : Type := { line_bbox : bbox; line_spans : list span }.
Record block : Type := { block_type : Z; block_lines : list line }.

(** An entry of a row: the stripped text of a span and its box. *)
Record cell : Type := { cell_text : str; cell_bbox : bbox }.

(** [round(y, 0)]: the nearest integer, a tie going to the even one. *)
Definition round0 (y : R) : R := IZR (round_half_even y).

Definition Reqb (x y : R) : bool := if Req_dec_T x y then true else false.

Section Tables.

(** [str.isspace] of one character, from the Unicode database. *)
Variable isspace : char -> bool.

(** [s.strip()] *)
Definition strip (s : str) : str :=
  rev (drop_while isspace (rev (drop_while isspace s))).

(** The dictionary [rows], in the order of insertion of its keys. *)
Definition rows_dict : Type := list (R * list cell).

Definition rows_has (y : R) (rows : rows_dict) : bool :=
  existsb (fun kv => Reqb (fst kv) y) rows.

(** [if y_pos not in rows: rows[y_pos] = []] *)
Definition rows_setdefault (y : R) (rows : rows_dict) : rows_dict :=
  if rows_has y rows then rows else rows ++ [(y, [])].

(** [rows[y_pos].append(c)]; the key is there, the line has put it in. *)
Fixpoint rows_append (y : R) (c : cell) (rows : rows_dict) : rows_dict :=
  match rows with
  | [] => []
  | (k, cs) :: rows' =>
      if Reqb k y then (k, cs ++ [c]) :: rows'
      else (k, cs) :: rows_append y c rows'
  end.

Definition add_span (y_pos : R) (rows : rows_dict) (sp : span) : rows_dict :=
  let text := strip (span_text sp) in
  if is_empty text then rows
  else rows_append y_pos {| cell_text := text; cell_bbox := span_bbox sp |}
         rows.

Definition add_line (rows : rows_dict) (ln : line) : rows_dict :=
  let y_pos := round0 (bbox_y0 (line_bbox ln)) in
  fold_left (add_span y_pos) (line_spans ln) (rows_setdefault y_pos rows).

Definition add_block (rows : rows_dict) (b : block) : rows_dict :=
  if (block_type b =? 0)%Z then fold_left add_line (block_lines b) rows
  else rows.

Definition group_rows (blocks : list block) : rows_dict :=
  fold_left add_block blocks [].

(** [sorted(rows.items())]: the keys are pairwise different, so that they
    alone decide the order. *)
Definition sorted_rows (rows : rows_dict) : rows_dict :=
  sort_by (fun y x => Rltb (fst y) (fst x)) rows.

(** The [data] of a table: the texts of every row, from left to right. *)
Definition table : Type := list (list str).

Definition table_data (current_table : list (list cell)) : table :=
  map (fun table_row =>
         map cell_text
           (sort_by (fun y x => Rltb (bbox_x0 (cell_bbox y))
                                  (bbox_x0 (cell_bbox x))) table_row))
    current_table.

Definition min_cols : nat := 3.

(** [tables] and [current_table] after one more row. *)
Definition table_step (st : list table * list (list cell))
    (row : R * list cell) : list table * list (list cell) :=
  let '(tables, current_table) := st in
  let row_spans := snd row in
  if (length row_spans <? min_cols)%nat then
    ((if (3 <=? length current_table)%nat
      then tables ++ [table_data current_table] else tables),
     [])
  else (tables, current_table ++ [row_spans]).

Definition extract_tables (blocks : list block) : list table :=
  let '(tables, current_table) :=
    fold_left table_step (sorted_rows (group_rows blocks)) ([], []) in
  if (3 <=? length current_table)%nat
  then tables ++ [table_data current_table] else tables.

(** The lines and the spans of the text blocks. *)
Definition text_lines (blocks : list block) : list line :=
  flat_map (fun b => if (block_type b =? 0)%Z then block_lines b else [])
    blocks.

Definition text_spans (blocks : list block) : list span :=
  flat_map line_spans (text_lines blocks).

(** The number of rows of all tables. *)
Definition table_rows (tables : list table) : nat :=
  fold_right (fun t n => (length t + n)%nat) 0%nat tables.

End Tables.

(** ** [process_pdf_chunk] *)

(** [d[key] = value] on a dictionary kept in the order of insertion. *)
Fixpoint dict_set (key value : str) (d : list (str * str))
  : list (str * str) :=
  match d with
  | [] => [(key, value)]
  | (k, v) :: d' =>
      if str_eq_dec k key then (k, value) :: d'
      else (k, v) :: dict_set key value d'
  end.

Section Pdf_processor.

Context {F : FloatOps} {U : UnicodeTables}.

Variable isspace : char -> bool.

(** What the PDF library gives: of a page, its text, its text blocks and its
    rotation; of a document, its pages and its metadata, a dictionary whose
    values may be [None]; opening the bytes of a file may fail. *)
Variable pdf_page : Type.
Variable get_text : pdf_page -> str.
Variable get_blocks : pdf_page -> list block.
Variable rotation : pdf_page -> Z.

Record document : Type := {
  doc_pages : list pdf_page;
  doc_metadata : list (str * option str)
}.

Variable open_document : bytes -> result document.

(** [extract_visual_elements] works on the images of the page; its result
    is carried along. *)
Variable visual_elements : Type.
Variable extract_visual_elements : pdf_page -> str -> result visual_elements.

(** The formatted strings: the text of a reason of the detector, and the
    flag of a rotated page. *)
Variable reason_text : suspicion_reason -> str.
Variable rotated_flag : Z -> str.

(** What a page of the result carries besides the keys that the aggregator
    reads. *)
Record page_content : Type := {
  pc_text : str;
  pc_tables : list table;
  pc_visual_elements : visual_elements;
  pc_encoded_sections : list finding;
  pc_formatting_flags : list str;
  pc_rotation : Z
}.

(** The body of [for page_num in range(start_page, end_page)].  The page is
    looked up behind the test [page_num < total_pages], and the numbers of
    the loop are not negative: the library finds the page, and its error
    for a page that is not in the document is never raised. *)
Definition process_page (doc : document) (results : list (page page_content))
    (page_num : Z) : result (list (page page_content)) :=
  if (page_num <? Z.of_nat (length (doc_pages doc)))%Z then
    match nth_error (doc_pages doc) (Z.to_nat page_num) with
    | None => Raise ValueError
    | Some pg =>
        let text := get_text pg in
        let tables := extract_tables isspace (get_blocks pg) in
        visual <- extract_visual_elements pg text ;;
        encoding_results <- detect_encodings text ;;
        let formatting_flags :=
          if negb (rotation pg =? 0)%Z then [rotated_flag (rotation pg)]
          else [] in
        Ok (results ++
            [{| page_number := page_num;
                page_suspicious := Some (suspicious encoding_results);
                page_suspicion_score :=
                  Some (suspicion_score encoding_results);
                page_suspicion_reasons :=
                  Some (map reason_text (suspicion_reasons encoding_results));
                page_payload :=
                  {| pc_text := text;
                     pc_tables := tables;
                     pc_visual_elements := visual;
                     pc_encoded_sections := findings encoding_results;
                     pc_formatting_flags := formatting_flags;
                     pc_rotation := rotation pg |} |}])
    end
  else Ok results.

(** [_extract_document_metadata] *)
Definition extract_document_metadata (doc : document) : list (str * str) :=
  fold_left
    (fun metadata kv =>
       match kv with
       | (key, Some value) =>
           if negb (is_empty key) && negb (is_empty value)
           then dict_set key value metadata else metadata
       | (_, None) => metadata
       end)
    (doc_metadata doc) [].

Definition process_pdf_chunk (pdf_data : str) (page_range : option (Z * Z))
  : result (chunk_result page_content) :=
  pdf_bytes <- b64decode pdf_data ;;
  doc <- open_document pdf_bytes ;;
  let total_pages := Z.of_nat (length (doc_pages doc)) in
  let '(start_page, end_page) :=
    match page_range with
    | None => (0%Z, total_pages)
    | Some (a, b) => (Z.max 0 a, Z.min total_pages b)
    end in
  page_nums <- py_range start_page end_page 1 ;;
  results <- for_each page_nums (process_page doc) [] ;;
  let metadata := extract_document_metadata doc in
  Ok {| total_pages := total_pages;
        processed_pages := (end_page - start_page)%Z;
        extracted_content := results;
        document_metadata := Some metadata |}.

(** The page count of the orchestrator: [total_pages] of the chunk [(0, 1)]. *)
Definition priming_page_count (pdf_data : str) : result Z :=
  r <- process_pdf_chunk pdf_data (Some (0%Z, 1%Z)) ;;
  Ok (total_pages r).

(** The page [p] of a result is the page of the document with its number,
    with the text of that page and what [detect_encodings] says of it. *)
Definition page_of_document (doc : document) (p : page page_content) : Prop :=
  exists pg encoding_results,
    (0 <= page_number p)%Z
    /\ nth_error (doc_pages doc) (Z.to_nat (page_number p)) = Some pg
    /\ detect_encodings (get_text pg) = Ok encoding_results
    /\ page_suspicious p = Some (suspicious encoding_results)
    /\ page_suspicion_score p = Some (suspicion_score encoding_results)
    /\ page_suspicion_reasons p
       = Some (map reason_text (suspicion_reasons encoding_results))
    /\ pc_text (page_payload p) = get_text pg
    /\ pc_tables (page_payload p) = extract_tables isspace (get_blocks pg)
    /\ pc_encoded_sections (page_payload p) = findings encoding_results
    /\ pc_rotation (page_payload p) = rotation pg.

(** The visual elements of every page of the document can be extracted. *)
Definition visuals_extractable (doc : document) : Prop :=
  forall pg, In pg (doc_pages doc) ->
    exists v, extract_visual_elements pg (get_text pg) = Ok v.

End Pdf_processor.

(** The integers from [a], [n] of them. *)
Definition z_seq (a : Z) (n : nat) : list Z :=
  map (fun k => (a + Z.of_nat k)%Z) (seq 0 n).

(** The entries of a metadata dictionary that have a key and a value. *)
Definition filled_entries (items : list (str * option str))
  : list (str * str) :=
  flat_map (fun kv =>
              match kv with
              | (key, Some value) =>
                  if negb (is_empty key) && negb (is_empty value)
                  then [(key, value)] else []
              | (_, None) => []
              end) items.
(** A document of three pages for sample runs of the processor: a page is
    its text, without blocks, images or rotation, and every file opens as
    this document. *)
Definition sample_document : document str :=
  {| doc_pages := [sample_text; b64encode sample_text; []];
     doc_metadata :=
       [([116; 105; 116; 108; 101]%N, Some sample_text);
        ([97; 117; 116; 104; 111; 114]%N, None);
        ([], Some sample_text)] |}.

Definition sample_open_document (pdf_bytes : bytes)
  : result (document str) := Ok sample_document.

Definition sample_visual_elements (pg text : str) : result unit := Ok tt.

Definition sample_process_pdf_chunk (pdf_data : str)
    (page_range : option (Z * Z)) : result (chunk_result (page_content unit)) :=
  @process_pdf_chunk exact_ops ascii_tables (fun _ => false) str
    (fun pg => pg) (fun _ => []) (fun _ => 0%Z) sample_open_document unit
    sample_visual_elements (fun _ => []) (fun _ => []) pdf_data page_range.

(** The number of pages of a range. *)
Definition chunk_pages (c : Z * Z) : Z := (snd c - fst c)%Z.

(** A text with the Base64 encoding of [sample_text] five times over. *)
Definition sample_five_base64 : str :=
  flat_map (fun _ => b64encode sample_text ++ [32%N]) (seq 0 5).

(** A text with a Base64 string and a percent-encoded string, both of
    [sample_text]. *)
Definition sample_mixed : str :=
  b64encode sample_text ++ [32%N] ++ percent_encode true sample_text.

(** * Properties *)

(** ** Short pages *)

(** C7: a page text of fewer than 16 characters, whatever it contains, gets
    the empty result: not suspicious, score 0.0, no finding, no reason. *)
Theorem detect_encodings_short_text :
  forall (F : FloatOps) (U : UnicodeTables) (text : str),
    (length text < 16)%nat ->
    detect_encodings text =
      Ok {| findings := []; suspicious := false; suspicion_score := 0;
            suspicion_reasons := [] |}.
Proof.
  intros F U text Hlen. unfold detect_encodings.
  replace (length text <? min_length)%nat with true.
  - now rewrite orb_true_r.
  - symmetry. apply Nat.ltb_lt. exact Hlen.
Qed.

Lemma detect_encodings_short_text_witness :
  @detect_encodings exact_ops ascii_tables [83; 71; 86; 115; 98; 71; 56; 61]%N =
    Ok {| findings := []; suspicious := false; suspicion_score := 0;
          suspicion_reasons := [] |}.
Proof.
  apply (@detect_encodings_short_text exact_ops ascii_tables). simpl. lia.
Defined.

(** ** The chunks of the orchestrator *)

Lemma contiguous_le : forall cs a b, contiguous a cs b -> (a <= b)%Z.
Proof.
  induction cs as [|[s e] cs IH]; simpl; intros a b H.
  - lia.
  - destruct H as (-> & Hlt & Hc). apply IH in Hc. lia.
Qed.

Lemma contiguous_covers : forall cs a b,
  contiguous a cs b ->
  forall p, (a <= p < b)%Z <-> exists c, In c cs /\ in_chunk p c.
Proof.
  induction cs as [|[s e] cs IH]; simpl; intros a b H p.
  - split; [lia | intros (c & [] & _)].
  - destruct H as (-> & Hlt & Hc).
    pose proof (contiguous_le _ _ _ Hc) as Hle.
    specialize (IH _ _ Hc p). split.
    + intros Hp. destruct (Z_lt_dec p e) as [Hpe | Hpe].
      * exists (a, e). split; [now left | unfold in_chunk; simpl; lia].
      * destruct (proj1 IH) as (c & Hin & Hc'); [lia |].
        exists c. split; [now right | exact Hc'].
    + intros (c & [<- | Hin] & Hc').
      * unfold in_chunk in Hc'; simpl in Hc'. lia.
      * assert (e <= p < b)%Z by (apply IH; now exists c). lia.
Qed.

Lemma contiguous_ordered : forall cs a b,
  contiguous a cs b ->
  ForallOrdPairs (fun c d => (snd c <= fst d)%Z) cs
  /\ Forall (fun c => (a <= fst c)%Z) cs.
Proof.
  induction cs as [|[s e] cs IH]; simpl; intros a b H.
  - split; constructor.
  - destruct H as (-> & Hlt & Hc). destruct (IH _ _ Hc) as [Hord Hall].
    split.
    + constructor; [| exact Hord].
      eapply Forall_impl; [| exact Hall]. simpl. intros c Hc'. exact Hc'.
    + constructor; [simpl; lia |].
      eapply Forall_impl; [| exact Hall]. simpl. intros c Hc'. lia.
Qed.

(** The list that [chunks_of] maps over [range]. *)
Lemma chunks_from_contiguous : forall (total size : Z) (n a : nat),
  (0 < size)%Z ->
  (n = 0%nat -> Z.of_nat a * size = total)%Z ->
  (n <> 0%nat ->
   (Z.of_nat a + Z.of_nat n - 1) * size < total
   <= (Z.of_nat a + Z.of_nat n) * size)%Z ->
  let cs := map (fun i => (i, Z.min (i + size) total))
              (map (fun k => (0 + Z.of_nat k * size)%Z) (seq a n)) in
  contiguous (Z.of_nat a * size) cs total /\ full_but_last size cs.
Proof.
  intros total size n. induction n as [|n IH]; intros a Hsize H0 Hn; simpl.
  - split; [now apply H0 | exact I].
  - specialize (Hn (Nat.neq_succ_0 n)).
    destruct n as [|n].
    + simpl. split; [split; [lia | split; lia] | lia].
    + assert (Hmin : Z.min (Z.of_nat a * size + size) total
                     = (Z.of_nat (S a) * size)%Z) by nia.
      destruct (IH (S a) Hsize) as [Hc Hf]; [discriminate | intros _; nia |].
      split.
      * split; [reflexivity | split; [nia |]].
        rewrite Hmin. exact Hc.
      * split; [lia | exact Hf].
Qed.

(** C5: for [total_pages >= 0] and [chunk_size >= 1] the chunk list is a
    partition of [[0, total_pages)]: the ranges follow one another from 0 to
    [total_pages] without gap, in ascending order and without overlap, a page
    is in [[0, total_pages)] exactly when it is in a range, and only the
    last range may be shorter than [chunk_size]. *)
Theorem chunks_partition :
  forall total_pages chunk_size : Z,
    (0 <= total_pages)%Z -> (1 <= chunk_size)%Z ->
    exists chunks,
      chunks_of total_pages chunk_size = Ok chunks
      /\ contiguous 0 chunks total_pages
      /\ ForallOrdPairs (fun c d => (snd c <= fst d)%Z) chunks
      /\ (forall p, (0 <= p < total_pages)%Z <->
                    exists c, In c chunks /\ in_chunk p c)
      /\ full_but_last chunk_size chunks.
Proof.
  intros total size Htotal Hsize. unfold chunks_of, py_range.
  replace (size =? 0)%Z with false by (symmetry; apply Z.eqb_neq; lia).
  cbn [bind]. eexists. split; [reflexivity |].
  set (n := Z.to_nat (range_length 0 total size)).
  assert (Hn0 : n = 0%nat -> (Z.of_nat 0 * size = total)%Z).
  { subst n. unfold range_length.
    replace (0 <? size)%Z with true by (symmetry; apply Z.ltb_lt; lia).
    destruct (0 <? total)%Z eqn:Ht.
    - apply Z.ltb_lt in Ht. intros H.
      assert (0 <= (total - 0 - 1) / size)%Z by (apply Z.div_pos; lia). lia.
    - apply Z.ltb_ge in Ht. intros _. lia. }
  assert (Hn1 : n <> 0%nat ->
     ((Z.of_nat 0 + Z.of_nat n - 1) * size < total
      <= (Z.of_nat 0 + Z.of_nat n) * size)%Z).
  { subst n. unfold range_length.
    replace (0 <? size)%Z with true by (symmetry; apply Z.ltb_lt; lia).
    destruct (0 <? total)%Z eqn:Ht; [| intros H; now elim H].
    apply Z.ltb_lt in Ht. intros _.
    assert (0 <= (total - 0 - 1) / size)%Z by (apply Z.div_pos; lia).
    rewrite Z2Nat.id by lia.
    pose proof (Z.div_mod (total - 0 - 1) size ltac:(lia)) as Hdm.
    pose proof (Z.mod_pos_bound (total - 0 - 1) size ltac:(lia)) as Hb.
    nia. }
  destruct (@chunks_from_contiguous total size n 0 ltac:(lia) Hn0 Hn1)
    as [Hc Hf].
  cbn [Z.of_nat Z.mul] in Hc.
  split; [exact Hc |]. split; [| split].
  - apply (contiguous_ordered _ _ _ Hc).
  - apply (contiguous_covers _ _ _ Hc).
  - exact Hf.
Qed.

Lemma chunks_partition_witness :
  exists chunks,
    chunks_of 12 5 = Ok chunks
    /\ contiguous 0 chunks 12
    /\ ForallOrdPairs (fun c d => (snd c <= fst d)%Z) chunks
    /\ (forall p, (0 <= p < 12)%Z <-> exists c, In c chunks /\ in_chunk p c)
    /\ full_but_last 5 chunks.
Proof.
  apply (@chunks_partition 12 5); lia.
Defined.

(** ** The aggregator *)

Lemma insert_by_perm : forall (A : Type) (ahead : A -> A -> bool) x l,
  Permutation (insert_by ahead x l) (x :: l).
Proof.
  intros A ahead x l. induction l as [|y l IH]; simpl.
  - apply Permutation_refl.
  - destruct (ahead y x).
    + eapply perm_trans; [apply perm_skip, IH | apply perm_swap].
    + apply Permutation_refl.
Qed.

Lemma sort_by_perm : forall (A : Type) (ahead : A -> A -> bool) l,
  Permutation (sort_by ahead l) l.
Proof.
  intros A ahead. induction l as [|x l IH]; simpl.
  - apply perm_nil.
  - eapply perm_trans; [apply insert_by_perm | apply perm_skip, IH].
Qed.

Section Sorting.

Variable A : Type.
Variable key : A -> Z.

Let ahead (y x : A) : bool := (key y <? key x)%Z.
Let key_le (x y : A) : Prop := (key x <= key y)%Z.
Let key_lt (x y : A) : Prop := (key x < key y)%Z.

Lemma insert_by_sorted : forall x l,
  StronglySorted key_le l -> StronglySorted key_le (insert_by ahead x l).
Proof.
  intros x l. induction l as [|y l IH]; simpl; intros Hs.
  - constructor; constructor.
  - inversion Hs as [|? ? Hs' Hall]; subst.
    unfold ahead at 1. destruct (key y <? key x)%Z eqn:Hyx.
    + apply Z.ltb_lt in Hyx. constructor; [now apply IH |].
      eapply Permutation_Forall.
      * apply Permutation_sym, insert_by_perm.
      * constructor; [unfold key_le; lia | exact Hall].
    + apply Z.ltb_ge in Hyx. constructor; [exact Hs |].
      constructor; [exact Hyx |].
      eapply Forall_impl; [| exact Hall]. unfold key_le. intros; lia.
Qed.

Lemma sort_by_sorted : forall l, StronglySorted key_le (sort_by ahead l).
Proof.
  induction l as [|x l IH]; simpl.
  - constructor.
  - now apply insert_by_sorted.
Qed.

Lemma sorted_nodup_strict : forall l,
  StronglySorted key_le l -> NoDup (map key l) -> StronglySorted key_lt l.
Proof.
  induction l as [|x l IH]; simpl; intros Hs Hnd.
  - constructor.
  - inversion Hs as [|? ? Hs' Hall]; subst.
    inversion Hnd as [|? ? Hnotin Hnd']; subst.
    constructor; [now apply IH |].
    rewrite Forall_forall in *. intros y Hy.
    specialize (Hall y Hy). unfold key_le in Hall. unfold key_lt.
    assert (key x <> key y).
    { intros Heq. apply Hnotin. rewrite Heq. now apply in_map. }
    lia.
Qed.

Lemma strictly_sorted_unique : forall l1 l2,
  Permutation l1 l2 ->
  StronglySorted key_lt l1 -> StronglySorted key_lt l2 -> l1 = l2.
Proof.
  induction l1 as [|a l1 IH]; intros l2 Hp H1 H2.
  - apply Permutation_nil in Hp. now subst.
  - destruct l2 as [|b l2].
    + apply Permutation_sym, Permutation_nil in Hp. discriminate.
    + inversion H1 as [|? ? H1' Ha]; subst.
      inversion H2 as [|? ? H2' Hb]; subst.
      rewrite Forall_forall in Ha, Hb.
      assert (Hab : a = b).
      { assert (Hina : In a (b :: l2))
          by (eapply Permutation_in; [exact Hp | now left]).
        assert (Hinb : In b (a :: l1))
          by (eapply Permutation_in;
              [apply Permutation_sym; exact Hp | now left]).
        destruct Hina as [<- | Hina]; [reflexivity |].
        destruct Hinb as [-> | Hinb]; [reflexivity |].
        specialize (Ha _ Hinb). specialize (Hb _ Hina).
        unfold key_lt in *. lia. }
      subst b. f_equal. apply IH; [| exact H1' | exact H2'].
      eapply Permutation_cons_inv. exact Hp.
Qed.

(** Sorting two permutations of a list without repeated keys gives the same
    list, in strictly ascending order of the keys. *)
Lemma sort_by_permutation_invariant : forall l1 l2,
  Permutation l1 l2 -> NoDup (map key l1) ->
  sort_by ahead l1 = sort_by ahead l2
  /\ StronglySorted key_lt (sort_by ahead l1).
Proof.
  intros l1 l2 Hp Hnd.
  assert (Hs : forall l, Permutation l1 l ->
                         StronglySorted key_lt (sort_by ahead l)).
  { intros l Hl. apply sorted_nodup_strict; [apply sort_by_sorted |].
    apply (Permutation_NoDup (l := map key l1)); [| exact Hnd].
    apply Permutation_map.
    eapply perm_trans; [exact Hl | apply Permutation_sym, sort_by_perm]. }
  split; [| apply Hs, Permutation_refl].
  apply strictly_sorted_unique; [| apply Hs, Permutation_refl | now apply Hs].
  eapply perm_trans; [apply sort_by_perm |].
  eapply perm_trans; [exact Hp | apply Permutation_sym, sort_by_perm].
Qed.

End Sorting.

Section Aggregator_facts.

Context {F : FloatOps}.
Variable payload : Type.

(** What the inner loop does to the accumulator. *)
Lemma page_loop_spec :
  forall (ps : list (page payload)) (a : accumulator payload),
  let a' := fold_left (@page_step F payload) ps a in
  c_total_pages (a_combined a') = c_total_pages (a_combined a)
  /\ c_processed_pages (a_combined a') = c_processed_pages (a_combined a)
  /\ c_extracted_content (a_combined a') = c_extracted_content (a_combined a)
  /\ suspicious_pages (acc_analysis a')
     = (suspicious_pages (acc_analysis a) + count_suspicious ps)%Z
  /\ max_suspicion_score (acc_analysis a')
     = fold_left py_max (map (@get_score payload) ps)
         (max_suspicion_score (acc_analysis a))
  /\ a_total_suspicion_score a'
     = fold_left fadd (map (@get_score payload) ps)
         (a_total_suspicion_score a)
  /\ average_suspicion_score (acc_analysis a')
     = average_suspicion_score (acc_analysis a)
  /\ overall_suspicious (acc_analysis a')
     = overall_suspicious (acc_analysis a).
Proof.
  induction ps as [|p ps IH]; intros a; cbn zeta.
  - unfold count_suspicious. simpl. repeat split; lia.
  - cbn zeta in IH. simpl fold_left.
    destruct (IH (page_step a p)) as (H1 & H2 & H3 & H4 & H5 & H6 & H7 & H8).
    rewrite H1, H2, H3, H4, H5, H6, H7, H8. clear IH H1 H2 H3 H4 H5 H6 H7 H8.
    unfold acc_analysis, page_step, count_suspicious. simpl.
    repeat split; try reflexivity.
    destruct (get_suspicious p); simpl length; lia.
Qed.

(** What the two loops do, from any accumulator. *)
Lemma result_loop_spec :
  forall (rs : list (chunk_result payload)) (a : accumulator payload),
  let a' := fold_left (@result_step F payload) rs a in
  c_processed_pages (a_combined a')
  = fold_left Z.add (map (@processed_pages payload) rs)
      (c_processed_pages (a_combined a))
  /\ c_extracted_content (a_combined a')
     = c_extracted_content (a_combined a) ++ all_pages rs
  /\ suspicious_pages (acc_analysis a')
     = (suspicious_pages (acc_analysis a) + count_suspicious (all_pages rs))%Z
  /\ max_suspicion_score (acc_analysis a')
     = fold_left py_max (map (@get_score payload) (all_pages rs))
         (max_suspicion_score (acc_analysis a))
  /\ a_total_suspicion_score a'
     = fold_left fadd (map (@get_score payload) (all_pages rs))
         (a_total_suspicion_score a)
  /\ average_suspicion_score (acc_analysis a')
     = average_suspicion_score (acc_analysis a)
  /\ overall_suspicious (acc_analysis a')
     = overall_suspicious (acc_analysis a).
Proof.
  induction rs as [|r rs IH]; intros a; cbn zeta.
  - unfold all_pages, count_suspicious. simpl. rewrite app_nil_r.
    repeat split; lia.
  - cbn zeta in IH. simpl fold_left.
    destruct (IH (result_step a r)) as (H2 & H3 & H4 & H5 & H6 & H7 & H8).
    rewrite H2, H3, H4, H5, H6, H7, H8. clear IH H2 H3 H4 H5 H6 H7 H8.
    unfold result_step.
    match goal with |- context [fold_left _ (extracted_content r) ?a0] =>
      destruct (page_loop_spec (extracted_content r) a0)
        as (_ & G2 & G3 & G4 & G5 & G6 & G7 & G8) end.
    cbn zeta in *. rewrite G2, G3, G4, G5, G6, G7, G8.
    unfold acc_analysis, all_pages, count_suspicious. simpl.
    rewrite !map_app, !fold_left_app, filter_app, length_app, <- app_assoc.
    repeat split; try reflexivity. lia.
Qed.

End Aggregator_facts.

(** C4: when the pages carry pairwise distinct page numbers, the chunk
    results in any order give the same [extracted_content]; that list holds
    the pages of all chunk results, each of them once, and it is in
    ascending order of [page_number]. *)
Theorem combine_results_order_independent :
  forall (F : FloatOps) (payload : Type)
         (results results' : list (chunk_result payload)),
    NoDup (map (@page_number payload) (all_pages results)) ->
    Permutation results results' ->
    c_extracted_content (combine_results results')
    = c_extracted_content (combine_results results)
    /\ Permutation (all_pages results)
         (c_extracted_content (combine_results results))
    /\ StronglySorted (@page_lt payload)
         (c_extracted_content (combine_results results)).
Proof.
  intros F payload results results' Hnd Hp.
  unfold combine_results. cbn [c_extracted_content].
  destruct (result_loop_spec results (initial_accumulator payload))
    as (_ & -> & _).
  destruct (result_loop_spec results' (initial_accumulator payload))
    as (_ & -> & _).
  cbn [initial_accumulator a_combined c_extracted_content app].
  unfold sort_pages.
  destruct (@sort_by_permutation_invariant _ (@page_number payload)
              (all_pages results) (all_pages results')) as [Heq Hs].
  - unfold all_pages. apply Permutation_flat_map. exact Hp.
  - exact Hnd.
  - split; [symmetry; exact Heq |].
    split; [apply Permutation_sym, sort_by_perm | exact Hs].
Qed.

Lemma combine_results_order_independent_witness :
  c_extracted_content
    (@combine_results exact_ops unit [sample_chunk_b; sample_chunk_a])
  = c_extracted_content
      (@combine_results exact_ops unit [sample_chunk_a; sample_chunk_b])
  /\ Permutation (all_pages [sample_chunk_a; sample_chunk_b])
       (c_extracted_content
          (@combine_results exact_ops unit [sample_chunk_a; sample_chunk_b]))
  /\ StronglySorted (@page_lt unit)
       (c_extracted_content
          (@combine_results exact_ops unit [sample_chunk_a; sample_chunk_b])).
Proof.
  apply (@combine_results_order_independent exact_ops unit
           [sample_chunk_a; sample_chunk_b] [sample_chunk_b; sample_chunk_a]).
  - simpl. repeat constructor; simpl; intuition discriminate.
  - apply perm_swap.
Defined.



(** ** The chunk size of a request *)

Section Orchestrator_facts.

Context {F : FloatOps}.
Variable payload : Type.
Variable int_of_str : str -> result Z.
Variable count_pages : str -> result Z.
Variable process_chunk : str -> Z * Z -> result (chunk_result payload).

Let orchestrator := orchestrator_function int_of_str count_pages process_chunk.

Lemma chunks_of_zero : forall total, chunks_of total 0 = Raise ValueError.
Proof. reflexivity. Qed.

Lemma chunks_of_negative : forall total size,
  (0 <= total)%Z -> (size < 0)%Z -> chunks_of total size = Ok [].
Proof.
  intros total size Ht Hs. unfold chunks_of, py_range, range_length.
  replace (size =? 0)%Z with false by (symmetry; apply Z.eqb_neq; lia).
  replace (0 <? size)%Z with false by (symmetry; apply Z.ltb_ge; lia).
  replace (total <? 0)%Z with false by (symmetry; apply Z.ltb_ge; lia).
  reflexivity.
Qed.

(** A request without [chunk_size] is served with the default of 5. *)
Lemma orchestrator_missing_chunk_size : forall pdf_data pdf_bytes,
  orchestrator (Json_payload (Some (Some pdf_data, None)))
  = orchestrator (Json_payload (Some (Some pdf_data, Some (JInt 5))))
  /\ orchestrator (Multipart (Some pdf_bytes) None)
     = match run_orchestrator count_pages process_chunk
               (b64encode pdf_bytes) (JInt 5) with
       | Ok r => r
       | Raise e => Http_500 e
       end.
Proof. intros. split; reflexivity. Qed.

(** C8: a [chunk_size] that is not positive is not replaced by the default.
    With the value 0 the request fails ([range] raises [ValueError], which
    becomes the response 500), and with a negative value no chunk is made:
    the response is the combination of no result at all. *)
Theorem orchestrator_nonpositive_chunk_size :
  forall (pdf_data : str) (total : Z),
    is_empty pdf_data = false ->
    count_pages pdf_data = Ok total ->
    (0 <= total)%Z ->
    orchestrator (Json_payload (Some (Some pdf_data, Some (JInt 0))))
    = Http_500 ValueError
    /\ forall n, (n < 0)%Z ->
         orchestrator (Json_payload (Some (Some pdf_data, Some (JInt n))))
         = Http_200 (combine_results []).
Proof.
  intros pdf_data total Hne Hcount Htotal.
  unfold orchestrator, orchestrator_function, run_orchestrator.
  cbn [json_chunk_size_value]. rewrite Hne, Hcount. cbn [bind as_integer].
  split.
  - rewrite chunks_of_zero. reflexivity.
  - intros n Hn. rewrite chunks_of_negative by assumption. reflexivity.
Qed.

End Orchestrator_facts.

Lemma orchestrator_nonpositive_chunk_size_witness :
  @orchestrator_function exact_ops unit sample_int_of_str sample_count_pages
    sample_process_chunk (Json_payload (Some (Some [37; 80; 68; 70]%N,
                                              Some (JInt 0))))
  = Http_500 ValueError
  /\ forall n, (n < 0)%Z ->
       @orchestrator_function exact_ops unit sample_int_of_str
         sample_count_pages sample_process_chunk
         (Json_payload (Some (Some [37; 80; 68; 70]%N, Some (JInt n))))
       = Http_200 (@combine_results exact_ops unit []).
Proof.
  apply (@orchestrator_nonpositive_chunk_size exact_ops unit
           sample_int_of_str sample_count_pages sample_process_chunk
           [37; 80; 68; 70]%N 12%Z); [reflexivity | reflexivity | lia].
Defined.

(** ** The character counts *)

Lemma dict_incr_counts : forall ch d,
  total_count (map snd (dict_incr ch d)) = S (total_count (map snd d)).
Proof.
  induction d as [|[k n] d IH]; simpl; [reflexivity |].
  destruct (N.eqb k ch); simpl; [reflexivity | rewrite IH; lia].
Qed.

Lemma dict_incr_positive : forall ch d,
  Forall (fun c => (1 <= c)%nat) (map snd d) ->
  Forall (fun c => (1 <= c)%nat) (map snd (dict_incr ch d)).
Proof.
  induction d as [|[k n] d IH]; simpl; intros H.
  - repeat constructor.
  - inversion H; subst. destruct (N.eqb k ch); simpl; constructor;
      auto with arith.
Qed.

Lemma dict_incr_keys : forall ch d k,
  In k (map fst (dict_incr ch d)) <-> k = ch \/ In k (map fst d).
Proof.
  induction d as [|[k' n] d IH]; simpl; intros k.
  - intuition.
  - destruct (N.eqb k' ch) eqn:E; simpl.
    + apply N.eqb_eq in E. subst. intuition.
    + rewrite IH. intuition.
Qed.

Lemma dict_incr_nodup : forall ch d,
  NoDup (map fst d) -> NoDup (map fst (dict_incr ch d)).
Proof.
  induction d as [|[k n] d IH]; simpl; intros H.
  - constructor; [intros [] | constructor].
  - inversion H as [|? ? Hnotin Hnd]; subst.
    destruct (N.eqb k ch) eqn:E; simpl.
    + constructor; assumption.
    + constructor; [| now apply IH].
      rewrite dict_incr_keys. apply N.eqb_neq in E. intuition.
Qed.

Lemma char_count_spec : forall text d,
  let d' := fold_left (fun d ch => dict_incr ch d) text d in
  total_count (map snd d') = (length text + total_count (map snd d))%nat
  /\ (Forall (fun c => (1 <= c)%nat) (map snd d) ->
      Forall (fun c => (1 <= c)%nat) (map snd d'))
  /\ (NoDup (map fst d) -> NoDup (map fst d'))
  /\ (forall k, In k (map fst d') <-> In k text \/ In k (map fst d)).
Proof.
  induction text as [|ch text IH]; intros d; cbn zeta; simpl.
  - intuition.
  - destruct (IH (dict_incr ch d)) as (H1 & H2 & H3 & H4). cbn zeta in *.
    rewrite H1, dict_incr_counts. split; [lia |].
    split; [intros; now apply H2, dict_incr_positive |].
    split; [intros; now apply H3, dict_incr_nodup |].
    intros k. rewrite H4, dict_incr_keys. intuition.
Qed.

Lemma char_count_total : forall text,
  total_count (map snd (char_count text)) = length text.
Proof.
  intros text. destruct (char_count_spec text []) as (H & _).
  cbn zeta in H. unfold char_count. rewrite H. simpl. lia.
Qed.

Lemma char_count_positive : forall text,
  Forall (fun c => (1 <= c)%nat) (map snd (char_count text)).
Proof.
  intros text. destruct (char_count_spec text []) as (_ & H & _).
  apply H. constructor.
Qed.

Lemma char_count_keys : forall text,
  NoDup (map fst (char_count text))
  /\ forall k, In k (map fst (char_count text)) -> In k text.
Proof.
  intros text. destruct (char_count_spec text []) as (_ & _ & H3 & H4).
  split; [apply H3; constructor |].
  intros k Hk. apply H4 in Hk. destruct Hk as [Hk | []]. exact Hk.
Qed.

Lemma total_count_bounds : forall cs,
  Forall (fun c => (1 <= c)%nat) cs ->
  (length cs <= total_count cs)%nat
  /\ Forall (fun c => (c <= total_count cs)%nat) cs.
Proof.
  induction cs as [|c cs IH]; simpl; intros H.
  - split; [lia | constructor].
  - inversion H; subst. destruct (IH ltac:(assumption)) as [Hl Hf].
    split; [lia |]. constructor; [lia |].
    eapply Forall_impl; [| exact Hf]. simpl. intros; lia.
Qed.

(** ** The entropy under the standard model of floating-point arithmetic *)

Section Entropy_bounds.

Local Open Scope R_scope.

Context {F : FloatOps}.
Hypothesis SM : StandardModel F.

Lemma eps_pos : 0 < eps.
Proof. unfold eps. apply Rinv_0_lt_compat. lra. Qed.

Lemma eps_small : eps <= / 1000000.
Proof. unfold eps. lra. Qed.

Lemma ln_le_sub1 : forall x, 0 < x -> ln x <= x - 1.
Proof.
  intros x Hx. pose proof (exp_ineq1_le (x - 1)) as H.
  replace (1 + (x - 1)) with x in H by ring.
  destruct H as [H | H].
  - left. rewrite <- (ln_exp (x - 1)). now apply ln_increasing.
  - right. rewrite H at 1. apply ln_exp.
Qed.

Lemma ln_monotone : forall x y, 0 < x -> x <= y -> ln x <= ln y.
Proof.
  intros x y Hx [H | ->]; [left; now apply ln_increasing | right; reflexivity].
Qed.

Lemma ln2_pos : / 2 < ln 2.
Proof. exact ln_lt_2. Qed.

Lemma rel_abs : forall x y, Rabs (x - y) <= eps * Rabs y ->
  Rabs x <= (1 + eps) * Rabs y.
Proof.
  intros x y H. replace x with ((x - y) + y) at 1 by ring.
  eapply Rle_trans; [apply Rabs_triang |]. lra.
Qed.

Lemma Rabs_bound_inv : forall a b, Rabs a <= b -> - b <= a <= b.
Proof. intros a b. unfold Rabs. destruct (Rcase_abs a); lra. Qed.

Lemma rel_pos : forall x y, Rabs (x - y) <= eps * Rabs y -> 0 < y ->
  y * (1 - eps) <= x <= y * (1 + eps).
Proof.
  intros x y H Hy. rewrite (Rabs_pos_eq y) in H by lra.
  apply Rabs_bound_inv in H. lra.
Qed.

(** [ln] near a point: a relative error [eps] moves it by at most [2 eps]. *)
Lemma ln_rel : forall x y, 0 < y -> y * (1 - eps) <= x <= y * (1 + eps) ->
  0 < x /\ ln y - 2 * eps <= ln x <= ln y + eps.
Proof.
  intros x y Hy [Hlo Hhi].
  pose proof eps_pos as He. pose proof eps_small as Hs.
  assert (H1 : 0 < 1 - eps) by lra.
  assert (Hx : 0 < x).
  { eapply Rlt_le_trans; [| exact Hlo]. apply Rmult_lt_0_compat; lra. }
  split; [exact Hx |]. split.
  - apply Rle_trans with (ln (y * (1 - eps))).
    + rewrite ln_mult by lra.
      assert (- (2 * eps) <= ln (1 - eps)); [| lra].
      rewrite <- (Ropp_involutive (ln (1 - eps))), <- ln_Rinv by lra.
      apply Ropp_le_contravar.
      eapply Rle_trans; [apply ln_le_sub1, Rinv_0_lt_compat; lra |].
      assert (/ (1 - eps) <= 1 + 2 * eps); [| lra].
      apply Rmult_le_reg_l with (1 - eps); [lra |].
      rewrite Rinv_r by lra. nra.
    + apply ln_monotone; [apply Rmult_lt_0_compat; lra | exact Hlo].
  - apply Rle_trans with (ln (y * (1 + eps))).
    + apply ln_monotone; assumption.
    + rewrite ln_mult by lra.
      pose proof (@ln_le_sub1 (1 + eps) ltac:(lra)). lra.
Qed.

Lemma log2_rel : forall p x, 0 < p <= 1 ->
  p * (1 - eps) <= x <= p * (1 + eps) ->
  0 < x /\ Rabs (log2 x) <= log2 (/ p) + 4 * eps.
Proof.
  intros p x [Hp0 Hp1] Hx.
  destruct (@ln_rel x p Hp0 Hx) as (Hx0 & Hlo & Hhi).
  split; [exact Hx0 |].
  pose proof eps_pos as He. pose proof ln2_pos as H2.
  assert (Hlnp : ln p <= 0) by (rewrite <- ln_1; now apply ln_monotone).
  assert (Habs : Rabs (ln x) <= - ln p + 2 * eps) by (apply Rabs_le; lra).
  unfold log2. rewrite ln_Rinv by assumption.
  unfold Rdiv. rewrite Rabs_mult, (Rabs_pos_eq (/ ln 2)).
  2:{ left. apply Rinv_0_lt_compat. lra. }
  assert (Hinv : 0 < / ln 2 <= 2).
  { split; [apply Rinv_0_lt_compat; lra |].
    apply Rmult_le_reg_l with (ln 2); [lra |]. rewrite Rinv_r by lra. lra. }
  apply Rle_trans with ((- ln p + 2 * eps) * / ln 2).
  - apply Rmult_le_compat_r; lra.
  - nra.
Qed.

Lemma INR_count_bounds : forall len c, (1 <= c <= len)%nat ->
  1 <= INR c /\ INR c <= INR len.
Proof.
  intros len c [H1 H2]. split.
  - change 1 with (INR 1). now apply le_INR.
  - now apply le_INR.
Qed.

Lemma term_bound_nonneg : forall len c, (1 <= c <= len)%nat ->
  0 <= term_bound len c.
Proof.
  intros len c H. destruct (@INR_count_bounds len c H) as [Hc Hl].
  pose proof eps_pos as He. pose proof ln2_pos as H2.
  unfold term_bound.
  assert (0 <= log2 (INR len / INR c)).
  { unfold log2. apply Rmult_le_pos; [| left; apply Rinv_0_lt_compat; lra].
    rewrite <- ln_1. apply ln_monotone; [lra |].
    apply Rmult_le_reg_r with (INR c); [lra |].
    unfold Rdiv. rewrite Rmult_assoc, Rinv_l by lra. lra. }
  apply Rmult_le_pos; [apply pow_le; lra |].
  apply Rmult_le_pos; [| lra].
  apply Rmult_le_pos; [lra | left; apply Rinv_0_lt_compat; lra].
Qed.

Lemma entropy_step_bound : forall len c e, (1 <= c <= len)%nat ->
  exists e', entropy_step len e c = Ok e'
             /\ Rabs e' <= (1 + eps) * (Rabs e + term_bound len c).
Proof.
  intros len c e H. destruct (@INR_count_bounds len c H) as [Hc Hl].
  pose proof eps_pos as He. pose proof eps_small as Hs.
  set (p := INR c / INR len).
  assert (Hp : 0 < p <= 1).
  { unfold p. split.
    - apply Rmult_lt_0_compat; [lra | apply Rinv_0_lt_compat; lra].
    - apply Rmult_le_reg_r with (INR len); [lra |].
      unfold Rdiv. rewrite Rmult_assoc, Rinv_l by lra. lra. }
  unfold entropy_step, py_div.
  destruct (Req_dec_T (INR len) 0) as [E | _]; [lra |]. cbn [bind].
  pose proof (@sm_div F SM (INR c) (INR len) ltac:(lra)) as Hd. fold p in Hd.
  set (p' := fdiv (INR c) (INR len)) in *.
  pose proof (@rel_pos p' p Hd (proj1 Hp)) as Hp'.
  destruct (@log2_rel p p' Hp Hp') as [Hp'0 Hlog].
  unfold py_log2. destruct (Rlt_dec 0 p') as [_ | N]; [| lra]. cbn [bind].
  eexists. split; [reflexivity |].
  pose proof (@sm_log2 F SM p' Hp'0) as Hl2. apply (@rel_abs _ _) in Hl2.
  pose proof (@sm_mul F SM p' (flog2 p')) as Hm. apply (@rel_abs _ _) in Hm.
  pose proof (@sm_sub F SM e (fmul p' (flog2 p'))) as Hsb.
  apply (@rel_abs _ _) in Hsb.
  eapply Rle_trans; [exact Hsb |].
  apply Rmult_le_compat_l; [lra |].
  eapply Rle_trans; [apply Rabs_triang |]. rewrite Rabs_Ropp.
  apply Rplus_le_compat_l.
  eapply Rle_trans; [exact Hm |].
  rewrite Rabs_mult, (Rabs_pos_eq p') by lra.
  unfold term_bound. fold p.
  replace (INR len / INR c) with (/ p).
  2:{ unfold p, Rdiv. rewrite Rinv_mult, Rinv_inv. ring. }
  assert (Hlog0 : 0 <= log2 (/ p) + 4 * eps).
  { eapply Rle_trans; [apply Rabs_pos | exact Hlog]. }
  assert (Hl3 : Rabs (flog2 p') <= (1 + eps) * (log2 (/ p) + 4 * eps)).
  { eapply Rle_trans; [exact Hl2 |]. apply Rmult_le_compat_l; lra. }
  assert (Hpp : p' * Rabs (flog2 p')
                <= (p * (1 + eps)) * ((1 + eps) * (log2 (/ p) + 4 * eps))).
  { apply Rmult_le_compat; [lra | apply Rabs_pos | lra | exact Hl3]. }
  apply Rle_trans with
    ((1 + eps) * ((p * (1 + eps)) * ((1 + eps) * (log2 (/ p) + 4 * eps)))).
  - apply Rmult_le_compat_l; [lra | exact Hpp].
  - right. ring.
Qed.

Lemma entropy_loop_bound : forall len cs e,
  Forall (fun c => (1 <= c <= len)%nat) cs ->
  exists e', for_each cs (entropy_step len) e = Ok e'
             /\ Rabs e' <= (1 + eps) ^ length cs
                           * (Rabs e + sum_term_bounds len cs).
Proof.
  intros len cs. induction cs as [|c cs IH]; intros e Hall.
  - exists e. split; [reflexivity |]. simpl. lra.
  - inversion Hall as [|? ? Hc Hall']; subst.
    destruct (@entropy_step_bound len c e Hc) as (e1 & He1 & Hb1).
    destruct (IH e1 Hall') as (e' & He' & Hb').
    exists e'. split; [simpl; rewrite He1; exact He' |].
    pose proof eps_pos as He.
    pose proof (@term_bound_nonneg len c Hc) as Ht.
    assert (Hsum : 0 <= sum_term_bounds len cs).
    { clear - Hall'. induction Hall' as [|c cs Hc _ IH]; simpl; [lra |].
      pose proof (@term_bound_nonneg len c Hc). lra. }
    assert (Hpow : 0 < (1 + eps) ^ length cs) by (apply pow_lt; lra).
    eapply Rle_trans; [exact Hb' |].
    simpl length. simpl sum_term_bounds. rewrite <- tech_pow_Rmult.
    rewrite (Rmult_comm (1 + eps)), Rmult_assoc.
    apply Rmult_le_compat_l; [lra |].
    pose proof (Rabs_pos e). nra.
Qed.


Lemma sum_term_bounds_nonneg : forall len cs,
  Forall (fun c => (1 <= c <= len)%nat) cs -> 0 <= sum_term_bounds len cs.
Proof.
  intros len cs Hall. induction Hall as [|c cs Hc _ IH]; simpl; [lra |].
  pose proof (@term_bound_nonneg len c Hc). lra.
Qed.

Lemma pow_eps_bound : forall n, (n <= 1000)%nat ->
  (1 + eps) ^ n <= 1 + 2 * INR n * eps.
Proof.
  pose proof eps_pos as He. pose proof eps_small as Hs.
  induction n as [|n IH]; intros Hn.
  - simpl. lra.
  - specialize (IH ltac:(lia)). rewrite <- tech_pow_Rmult, S_INR.
    assert (Hb : INR n <= 1000).
    { replace 1000 with (INR 1000) by (simpl; lra). apply le_INR. lia. }
    pose proof (pos_INR n) as Hp.
    assert (0 < (1 + eps) ^ n) by (apply pow_lt; lra).
    assert (INR n * eps <= / 1000) by nra.
    nra.
Qed.

Lemma log2_monotone : forall x y, 0 < x -> x <= y -> log2 x <= log2 y.
Proof.
  intros x y Hx Hxy. unfold log2. pose proof ln2_pos.
  apply Rmult_le_compat_r; [left; apply Rinv_0_lt_compat; lra |].
  now apply ln_monotone.
Qed.

Lemma log2_100 : log2 100 <= 27 / 4.
Proof.
  unfold log2. pose proof ln2_pos as H2.
  apply Rmult_le_reg_r with (ln 2); [lra |].
  unfold Rdiv. rewrite Rmult_assoc, Rinv_l by lra. rewrite Rmult_1_r.
  apply Rmult_le_reg_l with 4; [lra |].
  replace (4 * ln 100) with (INR 4 * ln 100) by (simpl; lra).
  replace (4 * (27 * / 4 * ln 2)) with (INR 27 * ln 2) by (simpl; lra).
  rewrite <- !ln_pow by lra.
  apply ln_monotone; [apply pow_lt; lra |]. lra.
Qed.

(** A bound on the terms that only looks at the length of the text. *)
Lemma term_bound_by_length : forall len c, (1 <= c <= len)%nat ->
  term_bound len c
  <= (1 + eps) ^ 3 * (log2 (INR len) + 4 * eps) * (INR c / INR len).
Proof.
  intros len c H. destruct (@INR_count_bounds len c H) as [Hc Hl].
  pose proof eps_pos as He. unfold term_bound.
  assert (Hlog : log2 (INR len / INR c) <= log2 (INR len)).
  { apply log2_monotone.
    - apply Rmult_lt_0_compat; [lra | apply Rinv_0_lt_compat; lra].
    - apply Rmult_le_reg_r with (INR c); [lra |].
      unfold Rdiv. rewrite Rmult_assoc, Rinv_l by lra. nra. }
  assert (Hp : 0 <= INR c / INR len).
  { apply Rmult_le_pos; [lra | left; apply Rinv_0_lt_compat; lra]. }
  assert (H3 : 0 < (1 + eps) ^ 3) by (apply pow_lt; lra).
  rewrite (Rmult_assoc ((1 + eps) ^ 3)).
  apply Rmult_le_compat_l; [lra |].
  rewrite (Rmult_comm (INR c / INR len)).
  apply Rmult_le_compat_r; [exact Hp | lra].
Qed.

Lemma sum_term_bounds_by_length : forall len cs,
  Forall (fun c => (1 <= c <= len)%nat) cs ->
  sum_term_bounds len cs
  <= (1 + eps) ^ 3 * (log2 (INR len) + 4 * eps)
     * (INR (total_count cs) / INR len).
Proof.
  intros len cs Hall. induction Hall as [|c cs Hc _ IH]; simpl.
  - unfold Rdiv. rewrite Rmult_0_l, Rmult_0_r. lra.
  - pose proof (@term_bound_by_length len c Hc) as Ht.
    rewrite plus_INR. unfold Rdiv in *. rewrite Rmult_plus_distr_r.
    rewrite Rmult_plus_distr_l. lra.
Qed.

(** A bound on the terms that does not depend on the text at all. *)
Lemma term_bound_crude : forall len c, (1 <= c <= len)%nat ->
  term_bound len c <= (1 + eps) ^ 3 * (2 + 4 * eps).
Proof.
  intros len c H. destruct (@INR_count_bounds len c H) as [Hc Hl].
  pose proof eps_pos as He. pose proof ln2_pos as H2. unfold term_bound.
  assert (H3 : 0 < (1 + eps) ^ 3) by (apply pow_lt; lra).
  apply Rmult_le_compat_l; [lra |].
  set (p := INR c / INR len).
  assert (Hp : 0 < p <= 1).
  { unfold p. split.
    - apply Rmult_lt_0_compat; [lra | apply Rinv_0_lt_compat; lra].
    - apply Rmult_le_reg_r with (INR len); [lra |].
      unfold Rdiv. rewrite Rmult_assoc, Rinv_l by lra. lra. }
  replace (INR len / INR c) with (/ p).
  2:{ unfold p, Rdiv. rewrite Rinv_mult, Rinv_inv. ring. }
  assert (Hq : 0 < / p) by (apply Rinv_0_lt_compat; lra).
  assert (Hlog : log2 (/ p) <= 2 * (/ p - 1)).
  { unfold log2. pose proof (@ln_le_sub1 (/ p) Hq) as Hln.
    assert (1 <= / p).
    { apply Rmult_le_reg_l with p; [lra |]. rewrite Rinv_r by lra. lra. }
    assert (Hinv : 0 < / ln 2 <= 2).
    { split; [apply Rinv_0_lt_compat; lra |].
      apply Rmult_le_reg_l with (ln 2); [lra |]. rewrite Rinv_r by lra. lra. }
    unfold Rdiv.
    apply Rle_trans with ((/ p - 1) * / ln 2).
    - apply Rmult_le_compat_r; lra.
    - nra. }
  assert (Hpq : p * / p = 1) by (apply Rinv_r; lra).
  assert (p * log2 (/ p) <= 2 * (1 - p)).
  { apply Rle_trans with (p * (2 * (/ p - 1))).
    - apply Rmult_le_compat_l; lra.
    - right. replace (p * (2 * (/ p - 1))) with (2 * (p * / p) - 2 * p) by ring.
      rewrite Hpq. ring. }
  nra.
Qed.

Lemma sum_term_bounds_crude : forall len cs,
  Forall (fun c => (1 <= c <= len)%nat) cs ->
  sum_term_bounds len cs <= INR (length cs) * ((1 + eps) ^ 3 * (2 + 4 * eps)).
Proof.
  intros len cs Hall. induction Hall as [|c cs Hc _ IH].
  - simpl. lra.
  - simpl sum_term_bounds. simpl length. rewrite S_INR.
    pose proof (@term_bound_crude len c Hc). lra.
Qed.

Lemma counts_in_range : forall text,
  Forall (fun c => (1 <= c <= length text)%nat) (map snd (char_count text)).
Proof.
  intros text. pose proof (char_count_positive text) as Hpos.
  destruct (total_count_bounds Hpos) as [_ Hle].
  rewrite char_count_total in Hle. rewrite Forall_forall in *.
  intros c Hc. split; [now apply Hpos | now apply Hle].
Qed.

Lemma count_entries_le_length : forall text,
  (length (char_count text) <= length text)%nat.
Proof.
  intros text. pose proof (char_count_positive text) as Hpos.
  destruct (total_count_bounds Hpos) as [Hlen _].
  rewrite char_count_total, length_map in Hlen. exact Hlen.
Qed.

(** [calculate_entropy] returns, and within the sum of the term bounds. *)
Lemma calculate_entropy_total : forall text,
  exists e, calculate_entropy text = Ok e
            /\ Rabs e <= (1 + eps) ^ length (char_count text)
                         * sum_term_bounds (length text)
                             (map snd (char_count text)).
Proof.
  intros text.
  destruct (@entropy_loop_bound (length text) (map snd (char_count text)) 0
              (counts_in_range text)) as (e & He & Hb).
  rewrite length_map, Rabs_R0, Rplus_0_l in Hb.
  destruct text as [|ch text'].
  - exists 0. split; [reflexivity |]. simpl. rewrite Rabs_R0. lra.
  - exists e. split; [exact He | exact Hb].
Qed.

(** A text of at most 100 characters has an entropy below 6.8. *)
Lemma entropy_of_short_text : forall text, (length text <= 100)%nat ->
  exists e, calculate_entropy text = Ok e /\ e <= 68 / 10.
Proof.
  intros text Hlen. destruct (calculate_entropy_total text) as (e & He & Hb).
  exists e. split; [exact He |].
  destruct text as [|ch text']; [simpl in He; injection He as <-; lra |].
  set (text := ch :: text') in *.
  pose proof eps_pos as Heps. pose proof eps_small as Hs.
  pose proof (sum_term_bounds_by_length (counts_in_range text)) as Hsum.
  rewrite char_count_total in Hsum.
  assert (HL : 1 <= INR (length text) <= 100).
  { split.
    - change 1 with (INR 1). apply le_INR. simpl. lia.
    - replace 100 with (INR 100) by (simpl; lra). now apply le_INR. }
  replace (INR (length text) / INR (length text)) with 1 in Hsum
    by (field; lra).
  assert (Hlog : log2 (INR (length text)) <= 27 / 4).
  { eapply Rle_trans; [apply log2_monotone; [lra | apply HL] |].
    exact log2_100. }
  assert (Hlog0 : 0 <= log2 (INR (length text))).
  { unfold log2. pose proof ln2_pos.
    apply Rmult_le_pos; [| left; apply Rinv_0_lt_compat; lra].
    rewrite <- ln_1. apply ln_monotone; lra. }
  pose proof (@pow_eps_bound 3 ltac:(lia)) as H3. simpl INR in H3.
  pose proof (@pow_eps_bound (length (char_count text))
                ltac:(pose proof (count_entries_le_length text); lia)) as Hk.
  assert (Hk' : INR (length (char_count text)) <= 100).
  { replace 100 with (INR 100) by (simpl; lra). apply le_INR.
    pose proof (count_entries_le_length text). lia. }
  pose proof (pos_INR (length (char_count text))) as Hk0.
  assert (H3p : 0 < (1 + eps) ^ 3) by (apply pow_lt; lra).
  assert (Hkp : 0 < (1 + eps) ^ length (char_count text))
    by (apply pow_lt; lra).
  assert (Hsum' : sum_term_bounds (length text) (map snd (char_count text))
                  <= 677 / 100).
  { eapply Rle_trans; [exact Hsum |]. rewrite Rmult_1_r.
    apply Rle_trans with ((1 + 2 * (1 + 1 + 1) * eps) * (27 / 4 + 4 * eps)).
    - apply Rmult_le_compat; lra.
    - nra. }
  pose proof (sum_term_bounds_nonneg (counts_in_range text)) as Hsum0.
  apply Rle_trans with (Rabs e); [apply Rle_abs |].
  eapply Rle_trans; [exact Hb |].
  apply Rle_trans with ((1 + 2 * 100 * eps) * (677 / 100)).
  - apply Rmult_le_compat; nra.
  - lra.
Qed.

Lemma bit_string_chars : forall decoded c,
  In c (bit_string decoded) -> c = 48%N \/ c = 49%N.
Proof.
  intros decoded c Hin. unfold bit_string in Hin.
  apply in_flat_map in Hin. destruct Hin as (b & _ & Hc).
  unfold format_08b in Hc. apply in_map_iff in Hc.
  destruct Hc as (i & <- & _). destruct (N.testbit b i); auto.
Qed.

(** A text over two characters has an entropy below 5. *)
Lemma entropy_of_binary_text : forall text,
  (forall c, In c text -> c = 48%N \/ c = 49%N) ->
  exists e, calculate_entropy text = Ok e /\ e <= 5.
Proof.
  intros text Hchars.
  destruct (calculate_entropy_total text) as (e & He & Hb).
  exists e. split; [exact He |].
  pose proof eps_pos as Heps. pose proof eps_small as Hs.
  assert (Hk : (length (char_count text) <= 2)%nat).
  { destruct (char_count_keys text) as [Hnd Hkeys].
    rewrite <- (length_map fst).
    apply (@NoDup_incl_length _ _ [48%N; 49%N] Hnd).
    intros k Hk. apply Hkeys, Hchars in Hk. simpl. intuition. }
  pose proof (sum_term_bounds_crude (counts_in_range text)) as Hsum.
  pose proof (sum_term_bounds_nonneg (counts_in_range text)) as Hsum0.
  rewrite length_map in Hsum.
  pose proof (@pow_eps_bound 3 ltac:(lia)) as H3. simpl INR in H3.
  pose proof (@pow_eps_bound (length (char_count text)) ltac:(lia)) as Hp.
  assert (Hk' : INR (length (char_count text)) <= 2).
  { replace 2 with (INR 2) by (simpl; lra). now apply le_INR. }
  pose proof (pos_INR (length (char_count text))) as Hk0.
  assert (H3p : 0 < (1 + eps) ^ 3) by (apply pow_lt; lra).
  assert (Hkp : 0 < (1 + eps) ^ length (char_count text))
    by (apply pow_lt; lra).
  assert (Hterm : (1 + eps) ^ 3 * (2 + 4 * eps) <= 201 / 100).
  { apply Rle_trans with ((1 + 2 * (1 + 1 + 1) * eps) * (2 + 4 * eps)).
    - apply Rmult_le_compat_r; lra.
    - nra. }
  assert (Hterm0 : 0 <= (1 + eps) ^ 3 * (2 + 4 * eps)).
  { apply Rmult_le_pos; lra. }
  assert (Hsum' : sum_term_bounds (length text) (map snd (char_count text))
                  <= 402 / 100).
  { eapply Rle_trans; [exact Hsum |].
    apply Rle_trans with (2 * (201 / 100)); [| lra].
    apply Rmult_le_compat; lra. }
  apply Rle_trans with (Rabs e); [apply Rle_abs |].
  eapply Rle_trans; [exact Hb |].
  apply Rle_trans with ((1 + 2 * 2 * eps) * (402 / 100)).
  - apply Rmult_le_compat; nra.
  - lra.
Qed.

(** *** [detect_high_entropy] with the default block size *)

Lemma Rgtb_false : forall x y, x <= y -> Rgtb x y = false.
Proof.
  intros x y H. unfold Rgtb, Rltb. destruct (Rlt_dec y x); [lra | reflexivity].
Qed.

Lemma Rgtb_true : forall x y, y < x -> Rgtb x y = true.
Proof.
  intros x y H. unfold Rgtb, Rltb. destruct (Rlt_dec y x); [reflexivity | lra].
Qed.

Lemma py_slice_length : forall (A : Type) (l : list A) (i w : Z),
  (0 <= i)%Z -> (0 <= w)%Z ->
  (length (py_slice l i (i + w)) <= Z.to_nat w)%nat.
Proof.
  intros A l i w Hi Hw. unfold py_slice, clamp_index.
  replace (i <? 0)%Z with false by (symmetry; apply Z.ltb_ge; lia).
  replace (i + w <? 0)%Z with false by (symmetry; apply Z.ltb_ge; lia).
  rewrite length_firstn. lia.
Qed.

Lemma for_each_unchanged : forall (A S : Type) (body : S -> A -> result S)
    (xs : list A) (s : S),
  (forall x, In x xs -> body s x = Ok s) -> for_each xs body s = Ok s.
Proof.
  intros A S body xs s. induction xs as [|x xs IH]; intros H; simpl.
  - reflexivity.
  - rewrite (H x (or_introl eq_refl)). simpl. apply IH.
    intros y Hy. apply H. now right.
Qed.

Lemma high_entropy_block_default : forall findings i block,
  (length block <= 100)%nat ->
  high_entropy_block 100 findings (i, block) = Ok findings.
Proof.
  intros findings i block Hlen. unfold high_entropy_block.
  destruct (Rltb _ _); [reflexivity |].
  destruct (entropy_of_short_text block Hlen) as (e & -> & He).
  cbn [bind]. rewrite Rgtb_false by lra. reflexivity.
Qed.

Lemma detect_high_entropy_default : forall text,
  detect_high_entropy text 100 = Ok [].
Proof.
  intros text. unfold detect_high_entropy.
  destruct (Rltb _ _); [reflexivity |].
  unfold blocks_of, py_range. cbn [Z.eqb bind].
  apply for_each_unchanged. intros [i block] Hin.
  apply high_entropy_block_default.
  unfold enumerate in Hin. apply in_combine_r in Hin.
  apply in_map_iff in Hin. destruct Hin as (k & <- & Hk).
  apply in_map_iff in Hk. destruct Hk as (j & <- & _).
  apply (@py_slice_length _ text (0 + Z.of_nat j * 100) 100); lia.
Qed.

End Entropy_bounds.

(** ** The detectors of encoded strings *)

Lemma for_each_invariant : forall (A S : Type) (P : S -> Prop)
    (body : S -> A -> result S) (xs : list A) (s : S),
  P s ->
  (forall s x, P s -> exists s', body s x = Ok s' /\ P s') ->
  exists s', for_each xs body s = Ok s' /\ P s'.
Proof.
  intros A S P body xs. induction xs as [|x xs IH]; intros s Hs Hbody; simpl.
  - now exists s.
  - destruct (Hbody s x Hs) as (s1 & -> & Hs1). simpl. now apply IH.
Qed.

(** Only [UnicodeDecodeError] comes out of [utf8_decode]. *)
Lemma utf8_decode_raises : forall bs e,
  utf8_decode bs = Raise e -> e = UnicodeDecodeError.
Proof.
  intros bs. remember (length bs) as n eqn:Hn.
  revert bs Hn. induction n as [n IH] using lt_wf_ind. intros bs Hn e.
  assert (Hrec : forall r, (length r < n)%nat ->
            forall (k : str -> result str),
              (forall s, k s = Raise e -> e = UnicodeDecodeError) ->
              bind (utf8_decode r) k = Raise e -> e = UnicodeDecodeError).
  { intros r Hr k Hk. destruct (utf8_decode r) eqn:E; simpl.
    - apply Hk.
    - intros [= <-]. eapply IH; [exact Hr | reflexivity | exact E]. }
  assert (Hok : forall (c : char) (s : str),
            Ok (c :: s) = Raise e -> e = UnicodeDecodeError)
    by (intros; discriminate).
  destruct bs as [|b0 r]; simpl; [discriminate |].
  subst n. simpl in Hrec.
  repeat match goal with
  | |- Raise _ = Raise _ -> _ => intros [= <-]; reflexivity
  | |- bind (utf8_decode _) _ = Raise _ -> _ =>
      apply Hrec; [simpl; lia | intros; discriminate]
  | |- context [if ?c then _ else _] => destruct c
  | |- context [match ?l with [] => _ | _ :: _ => _ end] => destruct l; simpl
  end.
Qed.

Section Classification.

Local Open Scope R_scope.

Context {F : FloatOps} {U : UnicodeTables}.

Lemma is_readable_text_total : forall text,
  exists b, is_readable_text text = Ok b.
Proof.
  intros [|c text]; [now exists false |].
  unfold is_readable_text, py_div.
  destruct (Req_dec_T (INR (length (c :: text))) 0) as [E | _].
  - exfalso. pose proof (pos_INR (length text)).
    simpl length in E. rewrite S_INR in E. lra.
  - cbn [bind]. eexists. reflexivity.
Qed.

(** A decoding that raises leaves the findings as they are. *)
Lemma try_except_all_raise : forall (A B : Type) (m : result A)
    (k : A -> result B) (h : result B) (e : exn),
  m = Raise e -> try_except_all (x <- m ;; k x) h = h.
Proof. intros A B m k h e ->. reflexivity. Qed.

Hypothesis SM : StandardModel F.

(** Decoded bytes: either no finding, or the finding of the decoded text;
    never the finding of binary data. *)
Lemma classify_decoded_spec : forall findings encoded decoded t confidence
    binary,
  exists findings',
    classify_decoded findings encoded decoded t confidence binary
    = Ok findings'
    /\ (findings' = findings
        \/ exists decoded_text,
             utf8_decode decoded = Ok decoded_text
             /\ is_readable_text decoded_text = Ok true
             /\ findings' = findings
                            ++ [text_finding t encoded decoded_text
                                  confidence]).
Proof.
  intros findings encoded decoded t confidence binary.
  unfold classify_decoded.
  destruct (utf8_decode decoded) as [decoded_text | e] eqn:Hdec.
  - cbn [bind]. destruct (is_readable_text_total decoded_text) as ([|] & Hr);
      rewrite Hr; cbn [bind try_except].
    + eexists. split; [reflexivity |]. right. now exists decoded_text.
    + eexists. split; [reflexivity |]. now left.
  - apply utf8_decode_raises in Hdec. subst e. cbn [bind try_except exn_eqb].
    destruct binary as [[tb cb] |].
    + destruct (entropy_of_binary_text SM (bit_string decoded)
                  (bit_string_chars decoded)) as (e & -> & He).
      cbn [bind]. rewrite Rgtb_false by lra.
      eexists. split; [reflexivity |]. now left.
    + eexists. split; [reflexivity |]. now left.
Qed.

Lemma classify_decoded_not_text : forall findings encoded decoded t
    confidence binary e,
  utf8_decode decoded = Raise e ->
  classify_decoded findings encoded decoded t confidence binary = Ok findings.
Proof.
  intros findings encoded decoded t confidence binary e Hdec.
  destruct (classify_decoded_spec findings encoded decoded t confidence
              binary) as (fs & -> & [-> | (s & Hs & _)]).
  - reflexivity.
  - rewrite Hs in Hdec. discriminate.
Qed.

Lemma candidate_spec : forall (t : finding_type) (confidence : R)
    binary (decode : result bytes) findings encoded,
  all_of_type t findings ->
  exists findings',
    try_except_all
      (decoded <- decode ;;
       classify_decoded findings encoded decoded t confidence binary)
      (Ok findings)
    = Ok findings'
    /\ all_of_type t findings'.
Proof.
  intros t confidence binary decode findings encoded Hall.
  destruct decode as [decoded | e]; cbn [bind try_except_all].
  - destruct (classify_decoded_spec findings encoded decoded t confidence
                binary) as (fs & -> & [-> | (s & _ & _ & ->)]).
    + now exists findings.
    + eexists. split; [reflexivity |].
      apply Forall_app. split; [exact Hall | now repeat constructor].
  - now exists findings.
Qed.

Lemma detect_base64_spec : forall text,
  exists fs, detect_base64 text = Ok fs /\ all_of_type base64 fs.
Proof.
  intros text. unfold detect_base64.
  apply for_each_invariant with (P := all_of_type base64); [constructor |].
  intros findings encoded Hall. unfold base64_candidate.
  destruct (_ <? _)%nat; [now exists findings |].
  now apply candidate_spec.
Qed.

Lemma detect_hex_spec : forall text,
  exists fs, detect_hex text = Ok fs /\ all_of_type hexadecimal fs.
Proof.
  intros text. unfold detect_hex.
  apply for_each_invariant with (P := all_of_type hexadecimal); [constructor |].
  intros findings encoded Hall. unfold hex_candidate.
  destruct (negb _); [now exists findings |].
  now apply candidate_spec.
Qed.

Lemma detect_url_encoding_spec : forall text,
  exists fs, detect_url_encoding text = Ok fs /\ all_of_type url_encoding fs.
Proof.
  intros text. unfold detect_url_encoding.
  apply for_each_invariant with (P := all_of_type url_encoding);
    [constructor |].
  intros findings encoded Hall. unfold url_candidate.
  now apply candidate_spec.
Qed.

End Classification.

(** ** The detector as a whole *)

Lemma exact_ops_standard : StandardModel exact_ops.
Proof.
  pose proof eps_pos as He.
  split; simpl; intros;
    match goal with |- (Rabs (?a - ?a) <= _)%R =>
      replace (a - a)%R with 0%R by ring; rewrite Rabs_R0;
      apply Rmult_le_pos; [lra | apply Rabs_pos]
    end.
Qed.

Section Detection.

Local Open Scope R_scope.

Context {F : FloatOps} {U : UnicodeTables}.
Hypothesis SM : StandardModel F.

(** [detect_encodings] returns, and its findings are those of the three
    detectors of encoded strings. *)
Lemma detect_encodings_findings : forall text,
  exists d, detect_encodings text = Ok d
            /\ Forall (fun f => f_type f <> high_entropy) (findings d).
Proof.
  intros text. unfold detect_encodings.
  destruct (is_empty text || (length text <? min_length)%nat) eqn:Hshort.
  - eexists. split; [reflexivity | constructor].
  - apply orb_false_elim in Hshort. destruct Hshort as [_ Hlen].
    apply Nat.ltb_ge in Hlen. unfold min_length in Hlen.
    destruct (detect_base64_spec SM text) as (b & -> & Hb).
    destruct (detect_hex_spec SM text) as (h & -> & Hh).
    destruct (detect_url_encoding_spec SM text) as (u & -> & Hu).
    unfold default_block_size. rewrite (detect_high_entropy_default SM).
    cbn [bind]. unfold py_div.
    destruct (Req_dec_T (fdiv (INR (length text)) 1000) 0) as [E | _].
    { exfalso.
      assert (HL : 16 <= INR (length text)).
      { replace 16 with (INR 16) by (simpl; lra). now apply le_INR. }
      pose proof (@sm_div F SM (INR (length text)) 1000 ltac:(lra)) as Hd.
      apply (@rel_pos _ _) in Hd; [| lra].
      pose proof eps_pos. pose proof eps_small. nra. }
    cbn [bind].
    repeat match goal with
    | |- context [let '(_, _) := (if ?c then _ else _) in _] => destruct c
    end.
    all: eexists; split; [reflexivity |]; cbn [findings].
    all: eapply Permutation_Forall;
      [apply Permutation_sym, sort_by_perm |].
    all: rewrite app_nil_r, !Forall_app; repeat split;
      eapply Forall_impl; try eassumption; simpl;
      intros f Hf; rewrite Hf; discriminate.
Qed.

End Detection.

(** C1: with the default block size of 100 [detect_high_entropy] returns the
    empty list for every text, and so no finding of [detect_encodings] is of
    the type [high_entropy]: a block has at most 100 characters and its
    entropy stays below 7.0. *)
Theorem detect_high_entropy_default_finds_nothing :
  forall (F : FloatOps) (U : UnicodeTables),
    StandardModel F ->
    forall text : str,
      detect_high_entropy text 100 = Ok []
      /\ exists d, detect_encodings text = Ok d
                   /\ Forall (fun f => f_type f <> high_entropy) (findings d).
Proof.
  intros F U SM text. split.
  - apply (detect_high_entropy_default SM).
  - apply (detect_encodings_findings SM).
Qed.

Lemma detect_high_entropy_default_finds_nothing_witness :
  @detect_high_entropy exact_ops (map N.of_nat (seq 32 120)) 100 = Ok []
  /\ exists d, @detect_encodings exact_ops ascii_tables
                 (map N.of_nat (seq 32 120)) = Ok d
               /\ Forall (fun f => f_type f <> high_entropy) (findings d).
Proof.
  apply (@detect_high_entropy_default_finds_nothing exact_ops ascii_tables
           exact_ops_standard (map N.of_nat (seq 32 120))).
Defined.

(** C2: for every text [detect_base64] returns findings of the type
    [base64] only, never one of [base64_binary], and [detect_hex] findings
    of the type [hexadecimal] only, never one of [hex_binary]: the entropy
    of a string of binary digits stays below 7.0. *)
Theorem no_binary_finding :
  forall (F : FloatOps) (U : UnicodeTables),
    StandardModel F ->
    forall text : str,
      (exists fs, detect_base64 text = Ok fs
                  /\ Forall (fun f => f_type f <> base64_binary) fs)
      /\ (exists fs, detect_hex text = Ok fs
                     /\ Forall (fun f => f_type f <> hex_binary) fs).
Proof.
  intros F U SM text. split.
  - destruct (detect_base64_spec SM text) as (fs & Hfs & Hall).
    exists fs. split; [exact Hfs |].
    eapply Forall_impl; [| exact Hall]. simpl. intros f ->. discriminate.
  - destruct (detect_hex_spec SM text) as (fs & Hfs & Hall).
    exists fs. split; [exact Hfs |].
    eapply Forall_impl; [| exact Hall]. simpl. intros f ->. discriminate.
Qed.

Lemma no_binary_finding_witness :
  (exists fs, @detect_base64 exact_ops ascii_tables
                (repeat 47%N 16 ++ [32%N] ++ repeat 102%N 16) = Ok fs
              /\ Forall (fun f => f_type f <> base64_binary) fs)
  /\ (exists fs, @detect_hex exact_ops ascii_tables
                   (repeat 47%N 16 ++ [32%N] ++ repeat 102%N 16) = Ok fs
                 /\ Forall (fun f => f_type f <> hex_binary) fs).
Proof.
  apply (@no_binary_finding exact_ops ascii_tables exact_ops_standard).
Defined.

(** ** Totality *)

Section Totality.

Context {F : FloatOps} {U : UnicodeTables}.
Hypothesis SM : StandardModel F.

Lemma detect_high_entropy_total : forall text block_size,
  block_size <> 0%Z ->
  exists fs, detect_high_entropy text block_size = Ok fs.
Proof.
  intros text block_size Hsize. unfold detect_high_entropy.
  destruct (Rltb _ _); [now exists [] |].
  unfold blocks_of, py_range.
  replace (block_size =? 0)%Z with false by (symmetry; now apply Z.eqb_neq).
  cbn [bind].
  match goal with |- exists fs, for_each ?xs ?body ?s = Ok fs =>
    destruct (@for_each_invariant _ _ (fun _ => True) body xs s I)
      as (fs & Hfs & _); [| now exists fs]
  end.
  intros findings [i block] _. unfold high_entropy_block.
  destruct (Rltb _ _); [now exists findings |].
  destruct (calculate_entropy_total SM block) as (e & -> & _). cbn [bind].
  destruct (Rgtb e 7); eexists; split; reflexivity || exact I.
Qed.

Lemma base64_candidate_discards : forall findings encoded,
  (forall e, b64decode (pad_base64 encoded) = Raise e ->
             base64_candidate findings encoded = Ok findings)
  /\ (forall decoded e,
        b64decode (pad_base64 encoded) = Ok decoded ->
        utf8_decode decoded = Raise e ->
        base64_candidate findings encoded = Ok findings).
Proof.
  intros findings encoded. unfold base64_candidate.
  destruct (_ <? _)%nat; [split; reflexivity |]. split.
  - intros e ->. reflexivity.
  - intros decoded e -> Hdec. cbn [bind].
    now rewrite (classify_decoded_not_text SM _ _ _ _ _ _ Hdec).
Qed.

Lemma hex_candidate_discards : forall findings encoded,
  (forall e, fromhex encoded = Raise e ->
             hex_candidate findings encoded = Ok findings)
  /\ (forall decoded e,
        fromhex encoded = Ok decoded ->
        utf8_decode decoded = Raise e ->
        hex_candidate findings encoded = Ok findings).
Proof.
  intros findings encoded. unfold hex_candidate.
  destruct (negb _); [split; reflexivity |]. split.
  - intros e ->. reflexivity.
  - intros decoded e -> Hdec. cbn [bind].
    now rewrite (classify_decoded_not_text SM _ _ _ _ _ _ Hdec).
Qed.

Lemma url_candidate_discards : forall findings encoded,
  (forall e, fromhex (remove_percent encoded) = Raise e ->
             url_candidate findings encoded = Ok findings)
  /\ (forall decoded e,
        fromhex (remove_percent encoded) = Ok decoded ->
        utf8_decode decoded = Raise e ->
        url_candidate findings encoded = Ok findings).
Proof.
  intros findings encoded. unfold url_candidate. split.
  - intros e ->. reflexivity.
  - intros decoded e -> Hdec. cbn [bind].
    now rewrite (classify_decoded_not_text SM _ _ _ _ _ _ Hdec).
Qed.

End Totality.

(** C10: each of the four detectors returns a list of findings for every
    text ([detect_high_entropy] for every block size other than 0, the
    default of 100 among them), and a candidate whose decoding fails, as
    Base64, as hexadecimal digits or as UTF-8, leaves the findings as they
    were. *)
Theorem detectors_total :
  forall (F : FloatOps) (U : UnicodeTables),
    StandardModel F ->
    forall text : str,
      (exists fs, detect_base64 text = Ok fs)
      /\ (exists fs, detect_hex text = Ok fs)
      /\ (exists fs, detect_url_encoding text = Ok fs)
      /\ (exists fs, detect_high_entropy text 100 = Ok fs)
      /\ (forall block_size, block_size <> 0%Z ->
            exists fs, detect_high_entropy text block_size = Ok fs)
      /\ (forall findings encoded,
            (forall e, b64decode (pad_base64 encoded) = Raise e ->
                       base64_candidate findings encoded = Ok findings)
            /\ (forall e, fromhex encoded = Raise e ->
                          hex_candidate findings encoded = Ok findings)
            /\ (forall e, fromhex (remove_percent encoded) = Raise e ->
                          url_candidate findings encoded = Ok findings))
      /\ (forall findings encoded decoded e,
            utf8_decode decoded = Raise e ->
            (b64decode (pad_base64 encoded) = Ok decoded ->
             base64_candidate findings encoded = Ok findings)
            /\ (fromhex encoded = Ok decoded ->
                hex_candidate findings encoded = Ok findings)
            /\ (fromhex (remove_percent encoded) = Ok decoded ->
                url_candidate findings encoded = Ok findings)).
Proof.
  intros F U SM text.
  split; [destruct (detect_base64_spec SM text) as (fs & H & _);
          now exists fs |].
  split; [destruct (detect_hex_spec SM text) as (fs & H & _);
          now exists fs |].
  split; [destruct (detect_url_encoding_spec SM text) as (fs & H & _);
          now exists fs |].
  split; [apply (detect_high_entropy_total SM); discriminate |].
  split; [intros; now apply (detect_high_entropy_total SM) |].
  split.
  - intros findings encoded. split; [| split].
    + apply (base64_candidate_discards SM).
    + apply (hex_candidate_discards SM).
    + apply (url_candidate_discards SM).
  - intros findings encoded decoded e Hdec. split; [| split]; intros H.
    + exact (proj2 (base64_candidate_discards SM findings encoded)
               decoded e H Hdec).
    + exact (proj2 (hex_candidate_discards SM findings encoded)
               decoded e H Hdec).
    + exact (proj2 (url_candidate_discards SM findings encoded)
               decoded e H Hdec).
Qed.

Lemma detectors_total_witness :
  let text := (repeat 47%N 16 ++ [32%N] ++ repeat 102%N 16)%list in
  (exists fs, @detect_base64 exact_ops ascii_tables text = Ok fs)
  /\ (exists fs, @detect_hex exact_ops ascii_tables text = Ok fs)
  /\ (exists fs, @detect_url_encoding exact_ops ascii_tables text = Ok fs)
  /\ (exists fs, @detect_high_entropy exact_ops text 100 = Ok fs).
Proof.
  cbn zeta.
  pose proof (@detectors_total exact_ops ascii_tables exact_ops_standard
                (repeat 47%N 16 ++ [32%N] ++ repeat 102%N 16))
    as (H1 & H2 & H3 & H4 & _).
  repeat split; assumption.
Defined.

(** ** The confidence of a block of high entropy *)

Section Confidence.

Local Open Scope R_scope.

Lemma py_min_le_r : forall x y, py_min x y <= y.
Proof.
  intros x y. unfold py_min, Rltb. destruct (Rlt_dec y x); lra.
Qed.

Lemma Rltb_false : forall x y, y <= x -> Rltb x y = false.
Proof.
  intros x y H. unfold Rltb. destruct (Rlt_dec x y); [lra | reflexivity].
Qed.

Context {F : FloatOps}.
Hypothesis SM : StandardModel F.

Lemma high_entropy_confidence_at_8 : high_entropy_confidence 8 = 95 / 100.
Proof.
  pose proof eps_pos as He. pose proof eps_small as Hs.
  unfold high_entropy_confidence.
  pose proof (@sm_sub F SM 8 7) as H1.
  replace (8 - 7) with 1 in H1 by ring.
  apply (@rel_pos _ _) in H1; [| lra].
  set (d := fsub 8 7) in *.
  pose proof (@sm_div F SM d 2 ltac:(lra)) as H2.
  apply (@rel_pos _ _) in H2; [| lra].
  set (q := fdiv d 2) in *.
  assert (Hd : 99 / 100 <= d) by lra.
  assert (Hq : 49 / 100 <= q) by nra.
  pose proof (@sm_add F SM (5 / 10) q) as H3.
  apply (@rel_pos _ _) in H3; [| lra].
  set (a := fadd (5 / 10) q) in *.
  assert (Ha : 95 / 100 < a) by nra.
  unfold py_min, Rltb. destruct (Rlt_dec (95 / 100) a); [reflexivity | lra].
Qed.

End Confidence.

(** The entropy of a text of [n] different characters, computed exactly. *)
Section Exact_entropy.

Local Open Scope R_scope.

Lemma exact_entropy_loop : forall (n k : nat) (e : R),
  (0 < n)%nat ->
  @for_each _ _ (repeat 1%nat k) (@entropy_step exact_ops n) e
  = Ok (e + INR k * (log2 (INR n) / INR n)).
Proof.
  intros n k e Hn.
  assert (HN : 0 < INR n) by (apply lt_0_INR; exact Hn).
  revert e. induction k as [|k IH]; intros e.
  - simpl. f_equal. ring.
  - cbn [repeat for_each]. unfold entropy_step at 1, py_div.
    destruct (Req_dec_T (INR n) 0) as [E | _]; [lra |]. cbn [bind].
    unfold py_log2. cbn [fdiv fsub fmul flog2 exact_ops].
    change (INR 1) with 1.
    destruct (Rlt_dec 0 (1 / INR n)) as [_ | N].
    2:{ exfalso. apply N. apply Rdiv_lt_0_compat; lra. }
    cbn [bind]. rewrite IH, S_INR. f_equal.
    replace (1 / INR n) with (/ INR n) by (field; lra).
    unfold log2. rewrite ln_Rinv by exact HN.
    pose proof ln2_pos. field. split; lra.
Qed.

Lemma distinct_block_length : forall n, length (distinct_block n) = n.
Proof. intros n. unfold distinct_block. now rewrite length_map, length_seq. Qed.

Lemma log2_pow2 : forall m : nat, log2 (2 ^ m) = INR m.
Proof.
  intros m. unfold log2. rewrite ln_pow by lra.
  pose proof ln2_pos. field. lra.
Qed.

Lemma entropy_of_128_characters :
  @calculate_entropy exact_ops (distinct_block 128) = Ok 7.
Proof.
  assert (Hc : map snd (char_count (distinct_block 128)) = repeat 1%nat 128)
    by (vm_compute; reflexivity).
  change (@calculate_entropy exact_ops (distinct_block 128))
    with (@for_each _ _ (map snd (char_count (distinct_block 128)))
            (@entropy_step exact_ops (length (distinct_block 128))) 0).
  rewrite Hc, distinct_block_length, exact_entropy_loop by lia.
  f_equal. rewrite INR_IZR_INZ. change (Z.of_nat 128) with 128%Z.
  replace 128 with (2 ^ 7) by lra. rewrite log2_pow2. simpl INR. lra.
Qed.

Lemma entropy_of_256_characters :
  @calculate_entropy exact_ops (distinct_block 256) = Ok 8.
Proof.
  assert (Hc : map snd (char_count (distinct_block 256)) = repeat 1%nat 256)
    by (vm_compute; reflexivity).
  change (@calculate_entropy exact_ops (distinct_block 256))
    with (@for_each _ _ (map snd (char_count (distinct_block 256)))
            (@entropy_step exact_ops (length (distinct_block 256))) 0).
  rewrite Hc, distinct_block_length, exact_entropy_loop by lia.
  f_equal. rewrite INR_IZR_INZ. change (Z.of_nat 256) with 256%Z.
  replace 256 with (2 ^ 8) by lra. rewrite log2_pow2. simpl INR. lra.
Qed.

Lemma distinct_block_not_short : forall n : nat,
  Rltb (INR (length (distinct_block n))) (@fdiv exact_ops (IZR (Z.of_nat n)) 2)
  = false.
Proof.
  intros n. rewrite distinct_block_length, <- INR_IZR_INZ.
  apply Rltb_false. cbn [fdiv exact_ops]. pose proof (pos_INR n). lra.
Qed.

End Exact_entropy.

(** The blocks of a text and the loop over them. *)
Lemma in_combine_seq : forall (A : Type) (xs : list A) a i (x : A),
  In (i, x) (combine (seq a (length xs)) xs)
  <-> (a <= i)%nat /\ nth_error xs (i - a) = Some x.
Proof.
  intros A. induction xs as [|y xs IH]; intros a i x; cbn [length seq combine].
  - split; [intros [] |]. intros [_ H]. destruct (i - a)%nat; discriminate.
  - cbn [In]. rewrite IH. split.
    + intros [E | [Hle Hn]].
      * injection E as <- <-. rewrite Nat.sub_diag. split; [lia | reflexivity].
      * split; [lia |].
        replace (i - a)%nat with (S (i - S a)) by lia. exact Hn.
    + intros [Hle Hn]. destruct (Nat.eq_dec i a) as [-> | Hne].
      * rewrite Nat.sub_diag in Hn. injection Hn as <-. now left.
      * right. split; [lia |].
        replace (i - a)%nat with (S (i - S a)) in Hn by lia. exact Hn.
Qed.

Lemma in_enumerate : forall (A : Type) (xs : list A) i (x : A),
  In (i, x) (enumerate xs) <-> nth_error xs i = Some x.
Proof.
  intros A xs i x. unfold enumerate. rewrite in_combine_seq, Nat.sub_0_r.
  split; [now intros [_ H] | intros H; split; [lia | exact H]].
Qed.

Lemma py_slice_within : forall (A : Type) (l : list A) (i j : Z),
  (length (py_slice l i j) <= length l)%nat.
Proof.
  intros A l i j. unfold py_slice.
  rewrite length_firstn, length_skipn. lia.
Qed.

Section Reported_blocks.

Local Open Scope R_scope.

Context {F : FloatOps}.
Hypothesis SM : StandardModel F.

(** The findings that the loop of [detect_high_entropy] adds: those of the
    blocks that are not skipped and have an entropy above 7.0. *)
Lemma high_entropy_loop : forall (block_size : Z) (ibs : list (nat * str))
    (findings : list finding),
  exists new,
    for_each ibs (high_entropy_block block_size) findings
    = Ok (findings ++ new)
    /\ forall f,
         In f new <->
         exists i block entropy,
           In (i, block) ibs
           /\ Rltb (INR (length block)) (fdiv (IZR block_size) 2) = false
           /\ calculate_entropy block = Ok entropy
           /\ 7 < entropy
           /\ f = high_entropy_finding i block entropy.
Proof.
  intros size. induction ibs as [|[i block] ibs IH]; intros findings.
  - exists []. cbn [for_each]. rewrite app_nil_r. split; [reflexivity |].
    intros f. split; [intros [] | intros (i & b & e & [] & _)].
  - cbn [for_each].
    destruct (calculate_entropy_total SM block) as (e & He & _).
    assert (Hstep : exists new0,
              high_entropy_block size findings (i, block)
              = Ok (findings ++ new0)
              /\ forall f,
                   In f new0 <->
                   Rltb (INR (length block)) (fdiv (IZR size) 2) = false
                   /\ 7 < e
                   /\ f = high_entropy_finding i block e).
    { unfold high_entropy_block.
      destruct (Rltb (INR (length block)) (fdiv (IZR size) 2)).
      - exists []. rewrite app_nil_r. split; [reflexivity |].
        intros f. split; [intros [] | intros [H _]; discriminate].
      - rewrite He. cbn [bind]. unfold Rgtb, Rltb.
        destruct (Rlt_dec 7 e) as [Hgt | Hle].
        + exists [high_entropy_finding i block e]. split; [reflexivity |].
          intros f. cbn [In]. split.
          * intros [<- | []]. auto.
          * intros (_ & _ & ->). now left.
        + exists []. rewrite app_nil_r. split; [reflexivity |].
          intros f. split; [intros [] | intros (_ & H & _); lra]. }
    destruct Hstep as (new0 & -> & Hnew0). cbn [bind].
    destruct (IH (findings ++ new0)) as (new & -> & Hnew).
    exists (new0 ++ new). split; [now rewrite app_assoc |].
    intros f. rewrite in_app_iff, Hnew0, Hnew. split.
    + intros [(Hs & Hgt & ->) | (i' & b' & e' & Hin & H)].
      * exists i, block, e. repeat split; auto. now left.
      * exists i', b', e'. split; [now right | exact H].
    + intros (i' & b' & e' & [E | Hin] & Hs & He' & Hgt & ->).
      * injection E as <- <-. left. rewrite He in He'. injection He' as <-.
        auto.
      * right. exists i', b', e'. auto.
Qed.

Lemma high_entropy_confidence_at_most : forall entropy,
  high_entropy_confidence entropy <= 95 / 100.
Proof. intros entropy. unfold high_entropy_confidence. apply py_min_le_r. Qed.

End Reported_blocks.

(** C9, as the code has it: [detect_high_entropy] reports exactly the
    blocks of the text that are not skipped as short and whose entropy
    exceeds 7.0, each with its index, its entropy and the confidence
    [min(0.5 + (entropy - 7.0) / 2.0, 0.95)].  So a block whose entropy is
    7.0 or less, 7.0 itself included, has no finding; a block with an
    entropy above 7.0 has its finding, with a confidence of at most 0.95;
    and a block whose entropy is 8.0 has a finding with the confidence
    0.95. *)
Theorem high_entropy_confidence_scaling :
  forall (F : FloatOps),
    StandardModel F ->
    forall (text : str) (block_size : Z),
      (1 <= block_size)%Z ->
      exists blocks fs,
        blocks_of text block_size = Ok blocks
        /\ detect_high_entropy text block_size = Ok fs
        /\ (forall f,
              In f fs <->
              exists i block entropy,
                nth_error blocks i = Some block
                /\ Rltb (INR (length block)) (fdiv (IZR block_size) 2)
                   = false
                /\ calculate_entropy block = Ok entropy
                /\ (7 < entropy)%R
                /\ f = high_entropy_finding i block entropy)
        /\ (forall i block entropy,
              nth_error blocks i = Some block ->
              Rltb (INR (length block)) (fdiv (IZR block_size) 2) = false ->
              calculate_entropy block = Ok entropy ->
              ((entropy <= 7)%R ->
               forall f, In f fs -> f_block_index f <> Some i)
              /\ ((7 < entropy)%R ->
                  In (high_entropy_finding i block entropy) fs
                  /\ f_confidence (high_entropy_finding i block entropy)
                     = py_min (fadd (5 / 10) (fdiv (fsub entropy 7) 2))
                         (95 / 100)
                  /\ (f_confidence (high_entropy_finding i block entropy)
                      <= 95 / 100)%R)
              /\ (entropy = 8%R ->
                  In (high_entropy_finding i block 8) fs
                  /\ f_confidence (high_entropy_finding i block 8)
                     = (95 / 100)%R)).
Proof.
  intros F SM text size Hsize.
  assert (Hblocks : exists blocks,
            blocks_of text size = Ok blocks
            /\ Forall (fun b : str => (length b <= length text)%nat) blocks).
  { unfold blocks_of, py_range.
    replace (size =? 0)%Z with false by (symmetry; apply Z.eqb_neq; lia).
    cbn [bind]. eexists. split; [reflexivity |].
    apply Forall_map, Forall_forall. intros i _. apply py_slice_within. }
  destruct Hblocks as (blocks & Hb & Hwithin).
  assert (Hiff : exists fs,
            detect_high_entropy text size = Ok fs
            /\ forall f,
                 In f fs <->
                 exists i block entropy,
                   nth_error blocks i = Some block
                   /\ Rltb (INR (length block)) (fdiv (IZR size) 2) = false
                   /\ calculate_entropy block = Ok entropy
                   /\ (7 < entropy)%R
                   /\ f = high_entropy_finding i block entropy).
  { unfold detect_high_entropy.
    destruct (Rltb (INR (length text)) (fdiv (IZR size) 2)) eqn:Hshort.
    - exists []. split; [reflexivity |]. intros f. split; [intros [] |].
      intros (i & block & e & Hn & Hs & _). exfalso.
      apply nth_error_In in Hn. rewrite Forall_forall in Hwithin.
      specialize (Hwithin _ Hn). apply le_INR in Hwithin.
      unfold Rltb in Hshort, Hs.
      destruct (Rlt_dec (INR (length text)) (fdiv (IZR size) 2));
        [| discriminate].
      destruct (Rlt_dec (INR (length block)) (fdiv (IZR size) 2));
        [discriminate | lra].
    - rewrite Hb. cbn [bind].
      destruct (high_entropy_loop SM size (enumerate blocks) [])
        as (new & Hnew & Hin).
      exists new. split; [exact Hnew |].
      intros f. rewrite Hin. split.
      + intros (i & block & e & Hi & H). exists i, block, e.
        split; [now apply in_enumerate | exact H].
      + intros (i & block & e & Hi & H). exists i, block, e.
        split; [now apply in_enumerate | exact H]. }
  destruct Hiff as (fs & Hfs & Hin).
  exists blocks, fs. split; [exact Hb |]. split; [exact Hfs |].
  split; [exact Hin |].
  intros i block entropy Hn Hs He.
  assert (Hreported : (7 < entropy)%R ->
                      In (high_entropy_finding i block entropy) fs).
  { intros Hgt. apply Hin. exists i, block, entropy. auto. }
  split; [| split].
  - intros Hle f Hf Hidx. apply Hin in Hf.
    destruct Hf as (i' & block' & e' & Hn' & _ & He' & Hgt & ->).
    cbn [high_entropy_finding f_block_index] in Hidx.
    injection Hidx as ->. rewrite Hn in Hn'. injection Hn' as <-.
    rewrite He in He'. injection He' as <-. lra.
  - intros Hgt. split; [now apply Hreported |].
    split; [reflexivity |].
    cbn [high_entropy_finding f_confidence].
    apply high_entropy_confidence_at_most.
  - intros ->. split; [apply Hreported; lra |].
    cbn [high_entropy_finding f_confidence].
    apply (high_entropy_confidence_at_8 SM).
Qed.

Lemma high_entropy_confidence_scaling_witness :
  exists fs,
    @detect_high_entropy exact_ops (distinct_block 256) 256 = Ok fs
    /\ In (@high_entropy_finding exact_ops 0 (distinct_block 256) 8) fs
    /\ f_confidence (@high_entropy_finding exact_ops 0 (distinct_block 256) 8)
       = (95 / 100)%R.
Proof.
  destruct (@high_entropy_confidence_scaling exact_ops exact_ops_standard
              (distinct_block 256) 256%Z ltac:(lia))
    as (blocks & fs & Hb & Hfs & _ & Hblock).
  assert (Hblocks : blocks_of (distinct_block 256) 256
                    = Ok [distinct_block 256]) by (vm_compute; reflexivity).
  rewrite Hblocks in Hb. injection Hb as <-.
  pose proof (distinct_block_not_short 256) as Hs.
  change (Z.of_nat 256) with 256%Z in Hs.
  destruct (Hblock 0%nat (distinct_block 256) 8%R eq_refl Hs
              entropy_of_256_characters) as (_ & _ & H8).
  exists fs. split; [exact Hfs |]. exact (H8 eq_refl).
Defined.

(** C9, as it is stated, fails: a block of 128 different characters has the
    entropy 7.0 exactly, and it is not reported. *)
Lemma entropy_7_block_is_not_reported :
  @calculate_entropy exact_ops (distinct_block 128) = Ok 7%R
  /\ @detect_high_entropy exact_ops (distinct_block 128) 128 = Ok [].
Proof.
  split; [exact entropy_of_128_characters |].
  pose proof (distinct_block_not_short 128) as Hs.
  change (Z.of_nat 128) with 128%Z in Hs.
  unfold detect_high_entropy. rewrite Hs.
  assert (Hb : blocks_of (distinct_block 128) 128
               = Ok [distinct_block 128]) by (vm_compute; reflexivity).
  rewrite Hb. cbn [bind enumerate length seq combine for_each].
  unfold high_entropy_block.
  rewrite Hs, entropy_of_128_characters.
  cbn [bind]. rewrite Rgtb_false by lra. reflexivity.
Qed.

(** * The round trip of an encoded text *)

(** ** Checking a property of all small numbers by computation *)

Lemma forall_below_spec : forall n p,
  forall_below n p = true -> forall x, (x < n)%N -> p x = true.
Proof.
  intros n p. unfold forall_below. induction n as [|n IH] using N.peano_ind.
  - intros _ x Hx. lia.
  - rewrite N.peano_rect_succ. intros H x Hx.
    apply andb_true_iff in H. destruct H as [Hn Hrest].
    destruct (N.eq_dec x n) as [-> | Hne]; [exact Hn |].
    apply IH; [exact Hrest | lia].
Qed.

Lemma forall_below2_spec : forall n m (p : N -> N -> bool),
  forall_below n (fun x => forall_below m (p x)) = true ->
  forall x y, (x < n)%N -> (y < m)%N -> p x y = true.
Proof.
  intros n m p H x y Hx Hy.
  apply (@forall_below_spec m (p x)); [| exact Hy].
  apply (@forall_below_spec n (fun x => forall_below m (p x)) H x Hx).
Qed.

Lemma option_eqb_eq : forall a b, option_eqb a b = true -> a = b.
Proof.
  intros [x|] [y|]; simpl; try discriminate; [| reflexivity].
  intros H. apply N.eqb_eq in H. now subst.
Qed.

(** ** Base64 *)

Lemma alphabet_facts : forall v, (v < 64)%N ->
  (table_b2a_base64 v =? 61)%N = false
  /\ table_a2b_base64 (table_b2a_base64 v) = Some v
  /\ (table_b2a_base64 v <? 128)%N = true
  /\ is_base64_char (table_b2a_base64 v) = true.
Proof.
  intros v Hv.
  assert (H : alphabet_check v = true).
  { apply (@forall_below_spec 64 alphabet_check); [vm_compute; reflexivity |].
    exact Hv. }
  unfold alphabet_check in H. rewrite !andb_true_iff in H.
  destruct H as (((H1 & H2) & H3) & H4).
  apply negb_true_iff in H1. apply option_eqb_eq in H2. auto.
Qed.

Lemma octet_pair_facts : forall a b, (a < 256)%N -> (b < 256)%N ->
  octet_pair_check a b = true.
Proof.
  apply forall_below2_spec. vm_compute. reflexivity.
Qed.

Lemma octet_pair : forall a b, (a < 256)%N -> (b < 256)%N ->
  ((sextet0 a < 64)%N /\ (sextet1 a b < 64)%N /\ (sextet2 a b < 64)%N
   /\ (sextet3 a < 64)%N)
  /\ N.lor (N.shiftl (sextet0 a) 2) (N.shiftr (sextet1 a b) 4) = a
  /\ N.land (sextet1 a b) 15 = N.shiftr b 4
  /\ N.lor (N.shiftl (N.shiftr a 4) 4) (N.shiftr (sextet2 a b) 2) = a
  /\ N.land (sextet2 a b) 3 = N.shiftr b 6
  /\ N.lor (N.shiftl (N.shiftr a 6) 6) (sextet3 a) = a.
Proof.
  intros a b Ha Hb. pose proof (octet_pair_facts Ha Hb) as H.
  unfold octet_pair_check in H. rewrite !andb_true_iff in H.
  rewrite !N.ltb_lt, !N.eqb_eq in H. tauto.
Qed.

(** One character of the alphabet in each of the four positions. *)
Lemma a2b_data_0 : forall v rest lc p out, (v < 64)%N ->
  a2b_base64_loop (table_b2a_base64 v :: rest) 0 lc p out
  = a2b_base64_loop rest 1 v 0 out.
Proof.
  intros v rest lc p out Hv. destruct (alphabet_facts Hv) as (H1 & H2 & _).
  cbn [a2b_base64_loop]. now rewrite H1, H2.
Qed.

Lemma a2b_data_1 : forall v rest lc p out, (v < 64)%N ->
  a2b_base64_loop (table_b2a_base64 v :: rest) 1 lc p out
  = a2b_base64_loop rest 2 (N.land v 15) 0
      (out ++ [N.lor (N.shiftl lc 2) (N.shiftr v 4)]).
Proof.
  intros v rest lc p out Hv. destruct (alphabet_facts Hv) as (H1 & H2 & _).
  cbn [a2b_base64_loop]. now rewrite H1, H2.
Qed.

Lemma a2b_data_2 : forall v rest lc p out, (v < 64)%N ->
  a2b_base64_loop (table_b2a_base64 v :: rest) 2 lc p out
  = a2b_base64_loop rest 3 (N.land v 3) 0
      (out ++ [N.lor (N.shiftl lc 4) (N.shiftr v 2)]).
Proof.
  intros v rest lc p out Hv. destruct (alphabet_facts Hv) as (H1 & H2 & _).
  cbn [a2b_base64_loop]. now rewrite H1, H2.
Qed.

Lemma a2b_data_3 : forall v rest lc p out, (v < 64)%N ->
  a2b_base64_loop (table_b2a_base64 v :: rest) 3 lc p out
  = a2b_base64_loop rest 0 0 0 (out ++ [N.lor (N.shiftl lc 6) v]).
Proof.
  intros v rest lc p out Hv. destruct (alphabet_facts Hv) as (H1 & H2 & _).
  cbn [a2b_base64_loop]. now rewrite H1, H2.
Qed.

Lemma b64encode_sextets : forall (a b c : byte) (rest : bytes),
  b64encode [a] = [table_b2a_base64 (sextet0 a);
                   table_b2a_base64 (sextet1 a 0); 61; 61]%N
  /\ b64encode [a; b] = [table_b2a_base64 (sextet0 a);
                         table_b2a_base64 (sextet1 a b);
                         table_b2a_base64 (sextet2 b 0); 61]%N
  /\ b64encode (a :: b :: c :: rest)
     = table_b2a_base64 (sextet0 a) :: table_b2a_base64 (sextet1 a b)
       :: table_b2a_base64 (sextet2 b c) :: table_b2a_base64 (sextet3 c)
       :: b64encode rest.
Proof.
  intros a b c rest. unfold sextet0, sextet1, sextet2, sextet3.
  change (N.shiftr 0 4) with 0%N. change (N.shiftr 0 6) with 0%N.
  rewrite !N.lor_0_r. repeat split; reflexivity.
Qed.

(** Lists, three elements at a time. *)
Lemma list_ind3 : forall (A : Type) (P : list A -> Prop),
  P [] -> (forall a, P [a]) -> (forall a b, P [a; b]) ->
  (forall a b c l, P l -> P (a :: b :: c :: l)) ->
  forall l, P l.
Proof.
  intros A P H0 H1 H2 H3.
  assert (H : forall l, P l /\ (forall a, P (a :: l))
                        /\ (forall a b, P (a :: b :: l))).
  { induction l as [|x l (IH0 & IH1 & IH2)].
    - auto.
    - split; [apply IH1 |]. split; [intros; apply IH2 |].
      intros a b. now apply H3. }
  intros l. apply H.
Qed.

(** Decoding what [b64encode] made gives the bytes back. *)
Lemma a2b_base64_b64encode : forall bs : bytes,
  Forall (fun b => (b < 256)%N) bs ->
  forall out, a2b_base64_loop (b64encode bs) 0 0 0 out = Ok (out ++ bs).
Proof.
  induction bs as [| a | a b | a b c rest IH] using list_ind3; intros Hall out.
  - simpl. now rewrite app_nil_r.
  - inversion Hall as [|? ? Ha _]; subst.
    destruct (b64encode_sextets a 0%N 0%N []) as (-> & _).
    destruct (@octet_pair a 0%N Ha ltac:(lia))
      as ((S0 & S1 & _) & B0 & _).
    rewrite a2b_data_0, a2b_data_1, B0 by assumption. reflexivity.
  - inversion Hall as [|? ? Ha Hall']; subst.
    inversion Hall' as [|? ? Hb _]; subst.
    destruct (b64encode_sextets a b 0%N []) as (_ & -> & _).
    destruct (@octet_pair a b Ha Hb) as ((S0 & S1 & _) & B0 & L1 & _).
    destruct (@octet_pair b 0%N Hb ltac:(lia))
      as ((_ & _ & S2 & _) & _ & _ & B1 & _).
    rewrite a2b_data_0, a2b_data_1, a2b_data_2, B0, L1, B1 by assumption.
    cbn [a2b_base64_loop N.eqb N.leb N.compare N.add Pos.compare
         Pos.compare_cont Pos.add Pos.succ].
    now rewrite <- app_assoc.
  - inversion Hall as [|? ? Ha Hall1]; subst.
    inversion Hall1 as [|? ? Hb Hall2]; subst.
    inversion Hall2 as [|? ? Hc Hall3]; subst.
    destruct (b64encode_sextets a b c rest) as (_ & _ & ->).
    destruct (@octet_pair a b Ha Hb) as ((S0 & S1 & _) & B0 & L1 & _).
    destruct (@octet_pair b c Hb Hc)
      as ((_ & _ & S2 & _) & _ & _ & B1 & L2 & _).
    destruct (@octet_pair c 0%N Hc ltac:(lia))
      as ((_ & _ & _ & S3) & _ & _ & _ & _ & B2).
    rewrite a2b_data_0, a2b_data_1, a2b_data_2, a2b_data_3, B0, L1, B1, L2, B2
      by assumption.
    rewrite IH by assumption. now rewrite <- !app_assoc.
Qed.

(** The shape of an encoding: characters of the alphabet, then at most two
    signs [=], four characters for every three octets. *)
Lemma b64encode_shape : forall bs : bytes,
  Forall (fun b => (b < 256)%N) bs ->
  exists body k,
    b64encode bs = body ++ repeat 61%N k
    /\ forallb is_base64_char body = true
    /\ (k <= 2)%nat
    /\ (length (b64encode bs) mod 4 = 0)%nat
    /\ forallb (fun c => (c <? 128)%N) (b64encode bs) = true.
Proof.
  induction bs as [| a | a b | a b c rest IH] using list_ind3; intros Hall.
  - exists [], 0%nat. repeat split; auto.
  - inversion Hall as [|? ? Ha _]; subst.
    destruct (b64encode_sextets a 0%N 0%N []) as (-> & _).
    destruct (@octet_pair a 0%N Ha ltac:(lia)) as ((S0 & S1 & _) & _).
    destruct (alphabet_facts S0) as (_ & _ & A0 & C0).
    destruct (alphabet_facts S1) as (_ & _ & A1 & C1).
    exists [table_b2a_base64 (sextet0 a); table_b2a_base64 (sextet1 a 0)],
      2%nat.
    cbn [forallb app repeat length]. rewrite A0, A1, C0, C1.
    repeat split; auto.
  - inversion Hall as [|? ? Ha Hall']; subst.
    inversion Hall' as [|? ? Hb _]; subst.
    destruct (b64encode_sextets a b 0%N []) as (_ & -> & _).
    destruct (@octet_pair a b Ha Hb) as ((S0 & S1 & _) & _).
    destruct (@octet_pair b 0%N Hb ltac:(lia)) as ((_ & _ & S2 & _) & _).
    destruct (alphabet_facts S0) as (_ & _ & A0 & C0).
    destruct (alphabet_facts S1) as (_ & _ & A1 & C1).
    destruct (alphabet_facts S2) as (_ & _ & A2 & C2).
    exists [table_b2a_base64 (sextet0 a); table_b2a_base64 (sextet1 a b);
            table_b2a_base64 (sextet2 b 0)], 1%nat.
    cbn [forallb app repeat length]. rewrite A0, A1, A2, C0, C1, C2.
    repeat split; auto.
  - inversion Hall as [|? ? Ha Hall1]; subst.
    inversion Hall1 as [|? ? Hb Hall2]; subst.
    inversion Hall2 as [|? ? Hc Hall3]; subst.
    destruct (IH Hall3) as (body & k & Hshape & Hbody & Hk & Hlen & Hascii).
    destruct (b64encode_sextets a b c rest) as (_ & _ & ->).
    destruct (@octet_pair a b Ha Hb) as ((S0 & S1 & _) & _).
    destruct (@octet_pair b c Hb Hc) as ((_ & _ & S2 & _) & _).
    destruct (@octet_pair c 0%N Hc ltac:(lia)) as ((_ & _ & _ & S3) & _).
    destruct (alphabet_facts S0) as (_ & _ & A0 & C0).
    destruct (alphabet_facts S1) as (_ & _ & A1 & C1).
    destruct (alphabet_facts S2) as (_ & _ & A2 & C2).
    destruct (alphabet_facts S3) as (_ & _ & A3 & C3).
    exists (table_b2a_base64 (sextet0 a) :: table_b2a_base64 (sextet1 a b)
            :: table_b2a_base64 (sextet2 b c)
            :: table_b2a_base64 (sextet3 c) :: body), k.
    cbn [forallb app length]. rewrite A0, A1, A2, A3, C0, C1, C2, C3, Hshape.
    rewrite <- Hshape, Hbody, Hascii. repeat split; auto.
    change (S (S (S (S (length (b64encode rest))))))
      with (4 + length (b64encode rest))%nat.
    rewrite Nat.Div0.add_mod, Hlen. reflexivity.
Qed.

(** ** What the patterns match *)

Lemma take_while_app : forall p body rest,
  forallb p body = true ->
  match rest with [] => True | c :: _ => p c = false end ->
  take_while p (body ++ rest) = body.
Proof.
  intros p body rest. induction body as [|c body IH]; simpl; intros Hb Hr.
  - destruct rest as [|c rest]; [reflexivity |]. simpl. now rewrite Hr.
  - apply andb_true_iff in Hb. destruct Hb as [-> Hb]. f_equal. now apply IH.
Qed.

Lemma take_upto_equals : forall n k, (k <= n)%nat ->
  take_upto n is_equals (repeat 61%N k) = repeat 61%N k.
Proof.
  induction n as [|n IH]; intros [|k] Hk; simpl; try reflexivity; [lia |].
  f_equal. apply IH. lia.
Qed.

Lemma skipn_length_app : forall (A : Type) (l1 l2 : list A),
  skipn (length l1) (l1 ++ l2) = l2.
Proof. induction l1; simpl; auto. Qed.

Lemma repeat_equals_head : forall k,
  match repeat 61%N k with [] => True | c :: _ => is_base64_char c = false end.
Proof. intros [|k]; simpl; auto. Qed.

Lemma pattern_base64_whole : forall body k,
  forallb is_base64_char body = true -> (k <= 3)%nat ->
  (min_length <= length body)%nat ->
  pattern_base64 (body ++ repeat 61%N k) = Some (body ++ repeat 61%N k).
Proof.
  intros body k Hbody Hk Hlen. unfold pattern_base64.
  rewrite (take_while_app _ _ _ Hbody (repeat_equals_head k)).
  replace (min_length <=? length body)%nat with true
    by (symmetry; now apply Nat.leb_le).
  now rewrite skipn_length_app, take_upto_equals.
Qed.

Lemma finditer_skip_all : forall matcher l k,
  (length l <= k)%nat -> finditer_from matcher l k = [].
Proof.
  intros matcher. induction l as [|c l IH]; intros k Hk; simpl.
  - reflexivity.
  - destruct k as [|k]; [simpl in Hk; lia |]. apply IH. simpl in Hk. lia.
Qed.

(** A pattern that matches the whole text is its only match. *)
Lemma finditer_whole : forall matcher text,
  text <> [] -> matcher text = Some text -> finditer matcher text = [text].
Proof.
  intros matcher [|c l] Hne Hm; [now elim Hne |].
  unfold finditer. cbn [finditer_from]. rewrite Hm. f_equal.
  apply finditer_skip_all. simpl. lia.
Qed.

Lemma drop_while_repeat_equals : forall k l,
  drop_while is_equals (repeat 61%N k ++ l) = drop_while is_equals l.
Proof. induction k; simpl; auto. Qed.

Lemma drop_while_none : forall p l,
  match l with [] => True | c :: _ => p c = false end -> drop_while p l = l.
Proof. intros p [|c l] H; simpl; [reflexivity | now rewrite H]. Qed.

Lemma base64_char_not_equals : forall c,
  is_base64_char c = true -> is_equals c = false.
Proof.
  intros c H. unfold is_equals. destruct (N.eqb_spec c 61) as [-> | _];
    [discriminate H | reflexivity].
Qed.

Lemma repeat_snoc : forall (A : Type) (x : A) k,
  repeat x k ++ [x] = x :: repeat x k.
Proof. induction k; simpl; [reflexivity | now rewrite IHk]. Qed.

Lemma rev_repeat : forall (A : Type) (x : A) k, rev (repeat x k) = repeat x k.
Proof.
  induction k; simpl; [reflexivity |]. rewrite IHk. apply repeat_snoc.
Qed.

Lemma rstrip_equals_shape : forall body k,
  forallb is_base64_char body = true ->
  rstrip_equals (body ++ repeat 61%N k) = body.
Proof.
  intros body k Hbody. unfold rstrip_equals.
  rewrite rev_app_distr, rev_repeat, drop_while_repeat_equals.
  rewrite drop_while_none; [apply rev_involutive |].
  destruct (rev body) as [|c l] eqn:E; [exact I |].
  apply base64_char_not_equals.
  rewrite forallb_forall in Hbody. apply Hbody.
  apply in_rev. rewrite E. now left.
Qed.

Lemma pad_base64_aligned : forall encoded,
  (length encoded mod 4 = 0)%nat -> pad_base64 encoded = encoded.
Proof.
  intros encoded H. unfold pad_base64. rewrite H. simpl. apply app_nil_r.
Qed.

Lemma b64decode_b64encode : forall bs : bytes,
  Forall (fun b => (b < 256)%N) bs -> b64decode (b64encode bs) = Ok bs.
Proof.
  intros bs Hall.
  destruct (b64encode_shape Hall) as (_ & _ & _ & _ & _ & _ & Hascii).
  unfold b64decode, a2b_base64. rewrite Hascii.
  now rewrite a2b_base64_b64encode.
Qed.

(** ** UTF-8 *)

(** Decoding goes through a prefix that decodes. *)
Lemma utf8_decode_app : forall (bs1 : bytes) (s1 : str),
  utf8_decode bs1 = Ok s1 ->
  forall bs2 : bytes,
    utf8_decode (bs1 ++ bs2) = (s2 <- utf8_decode bs2 ;; Ok (s1 ++ s2)).
Proof.
  intros bs1. remember (length bs1) as n eqn:Hn.
  revert bs1 Hn. induction n as [n IH] using lt_wf_ind.
  intros bs1 Hn s1 Hdec bs2.
  assert (Hrec : forall (r : bytes) (c : char),
            (length r < n)%nat ->
            (s <- utf8_decode r ;; Ok (c :: s)) = Ok s1 ->
            (s <- utf8_decode (r ++ bs2) ;; Ok (c :: s))
            = (s2 <- utf8_decode bs2 ;; Ok (s1 ++ s2))).
  { intros r c Hr H. destruct (utf8_decode r) as [s |] eqn:E; [| discriminate].
    simpl in H. injection H as <-.
    rewrite (IH _ Hr r eq_refl s E bs2).
    destruct (utf8_decode bs2); reflexivity. }
  destruct bs1 as [|b0 r].
  - simpl in Hdec. injection Hdec as <-. simpl.
    destruct (utf8_decode bs2); reflexivity.
  - subst n. simpl in Hrec. simpl in Hdec. simpl app. cbn [utf8_decode].
    repeat match type of Hdec with
    | Raise _ = Ok _ => discriminate Hdec
    | context [if ?c then _ else _] => destruct c
    | context [match ?l with [] => _ | _ :: _ => _ end] =>
        destruct l; cbn [app] in *
    end;
    (apply Hrec; [simpl; lia | exact Hdec]).
Qed.

Lemma utf8_char_check_all : forall_below 1114112 utf8_char_check = true.
Proof. vm_cast_no_check (eq_refl true). Qed.

Lemma utf8_encode_char_facts : forall (c : char) (bs : bytes),
  utf8_encode_char c = Ok bs ->
  Forall (fun b => (b < 256)%N) bs /\ utf8_decode bs = Ok [c].
Proof.
  intros c bs Henc.
  assert (Hc : (c < 1114112)%N).
  { unfold utf8_encode_char in Henc.
    destruct (N.ltb_spec c 1114112) as [H | H]; [exact H |].
    repeat match type of Henc with
    | context [(c <? ?k)%N] =>
        destruct (N.ltb_spec c k); [lia |]
    end. discriminate. }
  pose proof (@forall_below_spec _ _ utf8_char_check_all c Hc) as H.
  unfold utf8_char_check in H. rewrite Henc in H.
  apply andb_true_iff in H. destruct H as [Hb Hd]. split.
  - rewrite forallb_forall in Hb. apply Forall_forall.
    intros b Hin. apply N.ltb_lt. now apply Hb.
  - destruct (utf8_decode bs) as [[|c' [|? ?]] |]; try discriminate.
    apply N.eqb_eq in Hd. now subst.
Qed.

(** Decoding what [utf8_encode] made gives the string back. *)
Lemma utf8_round_trip : forall (s : str) (bs : bytes),
  utf8_encode s = Ok bs ->
  Forall (fun b => (b < 256)%N) bs /\ utf8_decode bs = Ok s.
Proof.
  induction s as [|c s IH]; intros bs Henc; simpl in Henc.
  - injection Henc as <-. split; [constructor | reflexivity].
  - destruct (utf8_encode_char c) as [cb |] eqn:Ec; [| discriminate].
    destruct (utf8_encode s) as [rest |] eqn:Es; [| discriminate].
    simpl in Henc. injection Henc as <-.
    destruct (@utf8_encode_char_facts c cb Ec) as [Hb Hd].
    destruct (IH rest eq_refl) as [Hbr Hdr].
    split; [apply Forall_app; now split |].
    rewrite (@utf8_decode_app _ _ Hd), Hdr. reflexivity.
Qed.

(** ** Hexadecimal digits *)

Lemma hex_byte_facts : forall b, (b < 256)%N ->
  let h := hex_char (N.shiftr b 4) in
  let l := hex_char (N.land b 15) in
  is_hex_char h = true /\ is_hex_char l = true
  /\ forall rest : str,
       fromhex (h :: l :: rest) = (r <- fromhex rest ;; Ok (b :: r)).
Proof.
  intros b Hb. cbn zeta.
  assert (H : hex_byte_check b = true).
  { apply (@forall_below_spec 256 hex_byte_check); [vm_compute; reflexivity |].
    exact Hb. }
  unfold hex_byte_check in H. cbn zeta in H.
  rewrite !andb_true_iff in H. destruct H as (((Hs & Hh) & Hl) & Hv).
  apply negb_true_iff in Hs. split; [exact Hh |]. split; [exact Hl |].
  intros rest. cbn [fromhex]. rewrite Hs.
  destruct (hex_digit_value (hex_char (N.shiftr b 4))) as [top |];
    [| discriminate].
  destruct (hex_digit_value (hex_char (N.land b 15))) as [bot |];
    [| discriminate].
  apply N.eqb_eq in Hv. now rewrite Hv.
Qed.

Lemma fromhex_hexlify : forall bs : bytes,
  Forall (fun b => (b < 256)%N) bs ->
  fromhex (hexlify bs) = Ok bs
  /\ forallb is_hex_char (hexlify bs) = true
  /\ length (hexlify bs) = (2 * length bs)%nat.
Proof.
  induction bs as [|b bs IH]; intros Hall.
  - repeat split.
  - inversion Hall as [|? ? Hb Hall']; subst.
    destruct (IH Hall') as (Hd & Hc & Hl).
    destruct (@hex_byte_facts b Hb) as (Hh & Hlo & Hf).
    unfold hexlify in *. cbn [flat_map app forallb length].
    rewrite Hf, Hd, Hh, Hlo, Hc, Hl. repeat split. lia.
Qed.

Lemma take_while_all : forall p l, forallb p l = true -> take_while p l = l.
Proof.
  intros p l H. rewrite <- (app_nil_r l) at 1.
  rewrite (take_while_app _ _ [] H I). reflexivity.
Qed.

Lemma pattern_hex_whole : forall l,
  forallb is_hex_char l = true -> (min_length <= length l)%nat ->
  pattern_hex l = Some l.
Proof.
  intros l Hl Hlen. unfold pattern_hex. rewrite (take_while_all _ _ Hl).
  replace (min_length <=? length l)%nat with true
    by (symmetry; now apply Nat.leb_le).
  reflexivity.
Qed.

(** ** The round trip through a detector *)

Section Round_trip.

Context {F : FloatOps} {U : UnicodeTables}.

Lemma classify_decoded_text : forall findings encoded decoded t confidence
    binary decoded_text,
  utf8_decode decoded = Ok decoded_text ->
  is_readable_text decoded_text = Ok true ->
  classify_decoded findings encoded decoded t confidence binary
  = Ok (findings ++ [text_finding t encoded decoded_text confidence]).
Proof.
  intros findings encoded decoded t confidence binary s Hdec Hread.
  unfold classify_decoded. rewrite Hdec. cbn [bind]. rewrite Hread.
  reflexivity.
Qed.

Lemma sample50_cases : forall s : str,
  sample50 s = if (length s <=? 50)%nat then s else firstn 50 s ++ ellipsis.
Proof.
  intros s. unfold sample50.
  destruct (Nat.leb_spec (length s) 50) as [Hle | Hgt].
  - replace (50 <? length s)%nat with false
      by (symmetry; apply Nat.ltb_ge; exact Hle).
    rewrite firstn_all2 by exact Hle. apply app_nil_r.
  - replace (50 <? length s)%nat with true
      by (symmetry; apply Nat.ltb_lt; exact Hgt).
    reflexivity.
Qed.

Lemma detect_base64_of_encoding : forall (s : str) (bs : bytes),
  utf8_encode s = Ok bs ->
  is_readable_text s = Ok true ->
  (16 <= length (rstrip_equals (b64encode bs)))%nat ->
  detect_base64 (b64encode bs)
  = Ok [text_finding base64 (b64encode bs) s (9 / 10)].
Proof.
  intros s bs Henc Hread Hlen.
  destruct (utf8_round_trip s Henc) as [Hall Hdec].
  destruct (b64encode_shape Hall)
    as (body & k & Hshape & Hbody & Hk & Hmod & _).
  assert (Hstrip : rstrip_equals (b64encode bs) = body)
    by (rewrite Hshape; now apply rstrip_equals_shape).
  assert (Hmatch : pattern_base64 (b64encode bs) = Some (b64encode bs)).
  { rewrite Hshape. apply pattern_base64_whole; [exact Hbody | lia |].
    rewrite <- Hstrip. exact Hlen. }
  assert (Hne : b64encode bs <> []).
  { intros E. rewrite E in Hlen. simpl in Hlen. lia. }
  unfold detect_base64. rewrite (finditer_whole _ Hne Hmatch).
  cbn [for_each]. unfold base64_candidate.
  replace (length (rstrip_equals (b64encode bs)) <? min_length)%nat
    with false by (symmetry; apply Nat.ltb_ge; exact Hlen).
  rewrite (pad_base64_aligned _ Hmod), (b64decode_b64encode Hall).
  cbn [bind]. rewrite (classify_decoded_text _ _ _ _ _ _ Hdec Hread).
  reflexivity.
Qed.

Lemma detect_hex_of_encoding : forall (s : str) (bs : bytes),
  utf8_encode s = Ok bs ->
  is_readable_text s = Ok true ->
  (16 <= length (hexlify bs))%nat ->
  detect_hex (hexlify bs)
  = Ok [text_finding hexadecimal (hexlify bs) s (85 / 100)].
Proof.
  intros s bs Henc Hread Hlen.
  destruct (utf8_round_trip s Henc) as [Hall Hdec].
  destruct (fromhex_hexlify Hall) as (Hfrom & Hchars & Hl).
  assert (Hne : hexlify bs <> []).
  { intros E. rewrite E in Hlen. simpl in Hlen. lia. }
  unfold detect_hex.
  rewrite (finditer_whole _ Hne (pattern_hex_whole _ Hchars Hlen)).
  cbn [for_each]. unfold hex_candidate.
  replace (length (hexlify bs) mod 2 =? 0)%nat with true.
  2:{ symmetry. apply Nat.eqb_eq. rewrite Hl, Nat.mul_comm.
      apply Nat.Div0.mod_mul. }
  cbn [negb]. rewrite Hfrom. cbn [bind].
  rewrite (classify_decoded_text _ _ _ _ _ _ Hdec Hread). reflexivity.
Qed.

End Round_trip.

(** C6: for a readable string [s] with the UTF-8 encoding [bs], the text
    that is the Base64 encoding of [bs] (at least 16 characters without the
    padding), respectively its hexadecimal encoding (at least 16
    characters), yields exactly one finding of [detect_base64], respectively
    [detect_hex]; its [sample_decoded] is [s] when [s] has at most 50
    characters, and the first 50 characters of [s] followed by [...]
    otherwise. *)
Theorem encoded_text_round_trip :
  forall (F : FloatOps) (U : UnicodeTables) (s : str) (bs : bytes),
    utf8_encode s = Ok bs ->
    is_readable_text s = Ok true ->
    let sample :=
      if (length s <=? 50)%nat then s else firstn 50 s ++ ellipsis in
    ((16 <= length (rstrip_equals (b64encode bs)))%nat ->
     exists f, detect_base64 (b64encode bs) = Ok [f]
               /\ f_type f = base64
               /\ f_content f = b64encode bs
               /\ f_sample_decoded f = Some sample)
    /\ ((16 <= length (hexlify bs))%nat ->
        exists f, detect_hex (hexlify bs) = Ok [f]
                  /\ f_type f = hexadecimal
                  /\ f_content f = hexlify bs
                  /\ f_sample_decoded f = Some sample).
Proof.
  intros F U s bs Henc Hread. cbn zeta. rewrite <- sample50_cases. split.
  - intros Hlen. eexists. split;
      [apply (detect_base64_of_encoding s Henc Hread Hlen) |].
    repeat split.
  - intros Hlen. eexists. split;
      [apply (detect_hex_of_encoding s Henc Hread Hlen) |].
    repeat split.
Qed.

Lemma readable_when_all_printable : forall (U : UnicodeTables) (text : str),
  existsb isalpha text = true ->
  existsb (fun c => existsb (N.eqb c) common_chars) text = true ->
  count_printable text = length text ->
  @is_readable_text exact_ops U text = Ok true.
Proof.
  intros U [|c text] Ha Hc Hp; [discriminate |].
  unfold is_readable_text, py_div. rewrite Ha, Hc, Hp.
  assert (HL : (0 < INR (length (c :: text)))%R)
    by (apply lt_0_INR; simpl; lia).
  destruct (Req_dec_T (INR (length (c :: text))) 0) as [E | _]; [lra |].
  cbn [bind fdiv exact_ops andb]. f_equal. apply Rgtb_true.
  replace (INR (length (c :: text)) / INR (length (c :: text)))%R with 1%R
    by (field; lra).
  lra.
Qed.

Lemma encoded_text_round_trip_witness :
  (exists f, @detect_base64 exact_ops ascii_tables (b64encode sample_text)
             = Ok [f]
             /\ f_type f = base64
             /\ f_content f = b64encode sample_text
             /\ f_sample_decoded f = Some sample_text)
  /\ (exists f, @detect_hex exact_ops ascii_tables (hexlify sample_text)
                = Ok [f]
                /\ f_type f = hexadecimal
                /\ f_content f = hexlify sample_text
                /\ f_sample_decoded f = Some sample_text).
Proof.
  destruct (@encoded_text_round_trip exact_ops ascii_tables sample_text
              sample_text eq_refl
              (@readable_when_all_printable ascii_tables sample_text
                 eq_refl eq_refl eq_refl)) as [H64 Hhex].
  split.
  - apply H64. vm_compute. lia.
  - apply Hhex. vm_compute. lia.
Defined.

(** * More on the detector *)

(** ** The entropy in exact arithmetic *)

Section Exact_entropy_bounds.

Local Open Scope R_scope.

Lemma exact_entropy_step : forall (n c : nat) (e : R),
  (1 <= c <= n)%nat ->
  @entropy_step exact_ops n e c
  = Ok (e + INR c / INR n * log2 (INR n / INR c)).
Proof.
  intros n c e H. destruct (@INR_count_bounds n c H) as [Hc Hn].
  unfold entropy_step, py_div.
  destruct (Req_dec_T (INR n) 0) as [E | _]; [lra |]. cbn [bind].
  unfold py_log2. cbn [fdiv fsub fmul flog2 exact_ops].
  destruct (Rlt_dec 0 (INR c / INR n)) as [_ | N].
  2:{ exfalso. apply N. apply Rdiv_lt_0_compat; lra. }
  cbn [bind]. f_equal. unfold log2.
  replace (INR n / INR c) with (/ (INR c / INR n)) by (field; lra).
  rewrite ln_Rinv by (apply Rdiv_lt_0_compat; lra).
  pose proof ln2_pos. field. lra.
Qed.

Lemma exact_entropy_sum : forall (n : nat) (cs : list nat) (e : R),
  Forall (fun c => (1 <= c <= n)%nat) cs ->
  @for_each _ _ cs (@entropy_step exact_ops n) e = Ok (e + shannon_sum n cs).
Proof.
  intros n cs. induction cs as [|c cs IH]; intros e Hall; simpl.
  - f_equal. ring.
  - inversion Hall as [|? ? Hc Hall']; subst.
    rewrite (exact_entropy_step e Hc). cbn [bind].
    rewrite (IH _ Hall'). f_equal. ring.
Qed.

(** The exact entropy of a text is the Shannon sum of its counts. *)
Lemma exact_entropy_value : forall text : str,
  @calculate_entropy exact_ops text
  = Ok (shannon_sum (length text) (map snd (char_count text))).
Proof.
  intros [|c text]; [reflexivity |].
  unfold calculate_entropy.
  rewrite (exact_entropy_sum 0 (counts_in_range (c :: text))).
  f_equal. ring.
Qed.

Lemma shannon_term_nonneg : forall n c, (1 <= c <= n)%nat ->
  0 <= INR c / INR n * log2 (INR n / INR c).
Proof.
  intros n c H. destruct (@INR_count_bounds n c H) as [Hc Hn].
  pose proof ln2_pos.
  apply Rmult_le_pos; [apply Rlt_le, Rdiv_lt_0_compat; lra |].
  unfold log2. apply Rmult_le_pos; [| left; apply Rinv_0_lt_compat; lra].
  rewrite <- ln_1. apply ln_monotone; [lra |].
  apply Rmult_le_reg_r with (INR c); [lra |].
  unfold Rdiv. rewrite Rmult_assoc, Rinv_l by lra. lra.
Qed.

Lemma shannon_sum_nonneg : forall n cs,
  Forall (fun c => (1 <= c <= n)%nat) cs -> 0 <= shannon_sum n cs.
Proof.
  intros n cs Hall. induction Hall as [|c cs Hc _ IH]; simpl; [lra |].
  pose proof (shannon_term_nonneg Hc). lra.
Qed.

(** Gibbs' inequality, one term at a time: for every [K > 0]. *)
Lemma shannon_term_gibbs : forall n c K, (1 <= c <= n)%nat -> 0 < K ->
  INR c / INR n * ln (INR n / INR c)
  <= INR c / INR n * ln K + / K - INR c / INR n.
Proof.
  intros n c K H HK. destruct (@INR_count_bounds n c H) as [Hc Hn].
  set (p := INR c / INR n).
  assert (Hp : 0 < p) by (apply Rdiv_lt_0_compat; lra).
  replace (INR n / INR c) with (/ p) by (unfold p; field; lra).
  assert (Hq : 0 < / (K * p)).
  { apply Rinv_0_lt_compat. apply Rmult_lt_0_compat; lra. }
  pose proof (@ln_le_sub1 (/ (K * p)) Hq) as Hln.
  rewrite ln_Rinv in Hln by (apply Rmult_lt_0_compat; lra).
  rewrite ln_mult in Hln by lra.
  rewrite ln_Rinv by exact Hp.
  assert (Hpk : p * / (K * p) = / K) by (field; lra).
  assert (p * (- (ln K + ln p)) <= p * (/ (K * p) - 1))
    by (apply Rmult_le_compat_l; lra).
  nra.
Qed.

Lemma shannon_sum_gibbs : forall n cs K,
  Forall (fun c => (1 <= c <= n)%nat) cs -> 0 < K ->
  shannon_sum n cs * ln 2
  <= INR (total_count cs) / INR n * ln K + INR (length cs) / K
     - INR (total_count cs) / INR n.
Proof.
  intros n cs K Hall HK. pose proof ln2_pos as H2.
  induction Hall as [|c cs Hc _ IH].
  - simpl. unfold Rdiv. rewrite !Rmult_0_l. lra.
  - simpl shannon_sum. simpl total_count. simpl length.
    rewrite plus_INR, S_INR.
    pose proof (shannon_term_gibbs Hc HK) as Ht.
    assert (Hlog : INR c / INR n * log2 (INR n / INR c) * ln 2
                   = INR c / INR n * ln (INR n / INR c)).
    { destruct (@INR_count_bounds n c Hc) as [Hc1 Hn1].
      unfold log2. field. repeat split; lra. }
    rewrite Rmult_plus_distr_r, Hlog.
    unfold Rdiv in *. lra.
Qed.

End Exact_entropy_bounds.

Section Exact_entropy_theorems.

Local Open Scope R_scope.

Lemma char_count_distinct : forall text : str,
  length (char_count text) = distinct_count text.
Proof.
  intros text. unfold distinct_count. rewrite <- (length_map fst).
  apply Permutation_length, NoDup_Permutation.
  - apply (char_count_keys text).
  - apply NoDup_nodup.
  - intros k. rewrite nodup_In.
    destruct (char_count_spec text []) as (_ & _ & _ & H). cbn zeta in H.
    unfold char_count. rewrite H. simpl. tauto.
Qed.

Lemma shannon_sum_upper : forall text : str,
  text <> [] ->
  shannon_sum (length text) (map snd (char_count text))
  <= log2 (INR (distinct_count text)).
Proof.
  intros text Hne. pose proof (counts_in_range text) as Hall.
  assert (HL : 0 < INR (length text)).
  { apply lt_0_INR. destruct text; [now elim Hne | simpl; lia]. }
  assert (Hk : 0 < INR (distinct_count text)).
  { apply lt_0_INR. rewrite <- char_count_distinct.
    destruct text as [|c text]; [now elim Hne |].
    pose proof (char_count_total (c :: text)) as Ht.
    destruct (char_count (c :: text)); [discriminate Ht | simpl; lia]. }
  pose proof (shannon_sum_gibbs Hall Hk) as H.
  rewrite char_count_total, length_map, char_count_distinct in H.
  replace (INR (length text) / INR (length text)) with 1 in H by (field; lra).
  replace (INR (distinct_count text) / INR (distinct_count text)) with 1 in H
    by (field; lra).
  pose proof ln2_pos as H2. unfold log2.
  apply Rmult_le_reg_r with (ln 2); [lra |].
  unfold Rdiv. rewrite Rmult_assoc, Rinv_l by lra. lra.
Qed.

Lemma dict_incr_fresh : forall ch d,
  ~ In ch (map fst d) -> dict_incr ch d = d ++ [(ch, 1%nat)].
Proof.
  induction d as [|[k n] d IH]; simpl; intros Hnot; [reflexivity |].
  destruct (N.eqb_spec k ch) as [-> | _]; [tauto |].
  f_equal. apply IH. tauto.
Qed.

Lemma char_count_nodup : forall (text : str) d,
  NoDup (map fst d ++ text) ->
  fold_left (fun d ch => dict_incr ch d) text d
  = d ++ map (fun c => (c, 1%nat)) text.
Proof.
  induction text as [|c text IH]; intros d Hnd; simpl.
  - now rewrite app_nil_r.
  - rewrite dict_incr_fresh.
    + rewrite IH; [now rewrite <- app_assoc |].
      rewrite map_app. simpl. rewrite <- app_assoc. exact Hnd.
    + apply NoDup_remove_2 in Hnd. intros Hin. apply Hnd.
      apply in_or_app. now left.
Qed.

End Exact_entropy_theorems.

(** ** The entropy in the arithmetic of the program *)

Lemma distinct_count_pos : forall (c : char) (text : str),
  (0 < distinct_count (c :: text))%nat.
Proof.
  intros c text. unfold distinct_count.
  assert (Hin : In c (nodup N.eq_dec (c :: text)))
    by (apply nodup_In; now left).
  destruct (nodup N.eq_dec (c :: text)); [contradiction | simpl; lia].
Qed.

Section Entropy_of_distinct.

Local Open Scope R_scope.

Context {F : FloatOps}.
Hypothesis SM : StandardModel F.

(** The sum of the term bounds is the Shannon sum, up to the rounding. *)
Lemma sum_term_bounds_shannon : forall n cs,
  sum_term_bounds n cs
  = (1 + eps) ^ 3 * (shannon_sum n cs
                     + 4 * eps * (INR (total_count cs) / INR n)).
Proof.
  intros n cs. induction cs as [|c cs IH].
  - simpl. unfold Rdiv. ring.
  - simpl sum_term_bounds. simpl shannon_sum. simpl total_count.
    rewrite IH, plus_INR. unfold term_bound, Rdiv. ring.
Qed.

(** The computed entropy does not exceed the binary logarithm of the number
    of different characters by more than the rounding. *)
Lemma entropy_upper : forall text : str,
  text <> [] ->
  exists e,
    calculate_entropy text = Ok e
    /\ Rabs e <= (1 + eps) ^ (distinct_count text + 3)
                 * (log2 (INR (distinct_count text)) + 4 * eps).
Proof.
  intros text Hne. pose proof eps_pos as He.
  destruct (calculate_entropy_total SM text) as (e & Hcalc & Hb).
  exists e. split; [exact Hcalc |].
  rewrite sum_term_bounds_shannon, char_count_total, char_count_distinct
    in Hb.
  assert (HL : 0 < INR (length text)).
  { apply lt_0_INR. destruct text; [now elim Hne | simpl; lia]. }
  replace (INR (length text) / INR (length text)) with 1 in Hb
    by (field; lra).
  pose proof (shannon_sum_upper Hne) as Hup.
  assert (Hpow : 0 < (1 + eps) ^ distinct_count text) by (apply pow_lt; lra).
  assert (Hpow3 : 0 < (1 + eps) ^ 3) by (apply pow_lt; lra).
  eapply Rle_trans; [exact Hb |].
  rewrite pow_add, (Rmult_assoc ((1 + eps) ^ distinct_count text)).
  apply Rmult_le_compat_l; [lra |].
  apply Rmult_le_compat_l; lra.
Qed.

Lemma pow_one_minus_eps : forall n : nat, 1 - INR n * eps <= (1 - eps) ^ n.
Proof.
  pose proof eps_pos as He. pose proof eps_small as Hs.
  induction n as [|n IH].
  - simpl. lra.
  - rewrite <- tech_pow_Rmult, S_INR.
    assert (H0 : 0 <= (1 - eps) ^ n) by (apply pow_le; lra).
    pose proof (pos_INR n) as Hn.
    destruct (Rle_dec 0 (1 - INR n * eps)) as [Hpos | Hneg].
    + assert ((1 - eps) * (1 - INR n * eps) <= (1 - eps) * (1 - eps) ^ n)
        by (apply Rmult_le_compat_l; lra).
      nra.
    + assert (0 <= (1 - eps) * (1 - eps) ^ n)
        by (apply Rmult_le_pos; lra).
      nra.
Qed.

(** One step of the loop for a character that occurs once among [n >= 2]:
    the entropy grows by about [log2 n / n]. *)
Lemma entropy_step_distinct : forall (n : nat) (e : R),
  (2 <= n)%nat -> 0 <= e ->
  exists e',
    entropy_step n e 1 = Ok e'
    /\ (e + (1 - eps) ^ 3 * (log2 (INR n) - 2 * eps) / INR n) * (1 - eps)
       <= e'.
Proof.
  intros n e Hn He. pose proof eps_pos as He0. pose proof eps_small as He1.
  pose proof ln2_pos as H2.
  assert (HN : 2 <= INR n).
  { replace 2 with (INR 2) by (simpl; lra). now apply le_INR. }
  assert (Hlog : 1 <= log2 (INR n)).
  { replace 1 with (INR 1) by reflexivity. rewrite <- (log2_pow2 1).
    apply log2_monotone; simpl; lra. }
  set (L := log2 (INR n) - 2 * eps).
  assert (HL : 0 < L) by (unfold L; lra).
  unfold entropy_step, py_div.
  destruct (Req_dec_T (INR n) 0) as [E | _]; [lra |]. cbn [bind].
  change (INR 1) with 1.
  set (p := 1 / INR n).
  assert (Hp : 0 < p <= / 2).
  { unfold p. split.
    - apply Rdiv_lt_0_compat; lra.
    - unfold Rdiv. rewrite Rmult_1_l. apply Rinv_le_contravar; lra. }
  pose proof (@sm_div F SM 1 (INR n) ltac:(lra)) as Hd. fold p in Hd.
  set (p' := fdiv 1 (INR n)) in *.
  pose proof (@rel_pos p' p Hd (proj1 Hp)) as Hp'.
  destruct (@ln_rel p' p (proj1 Hp) Hp') as (Hp'0 & _ & Hln).
  unfold py_log2. destruct (Rlt_dec 0 p') as [_ | N]; [| lra]. cbn [bind].
  eexists. split; [reflexivity |].
  assert (Hlnp : ln p = - ln (INR n)).
  { unfold p, Rdiv. rewrite Rmult_1_l. apply ln_Rinv. lra. }
  assert (Hinv : 0 < / ln 2 <= 2).
  { split; [apply Rinv_0_lt_compat; lra |].
    apply Rmult_le_reg_l with (ln 2); [lra |]. rewrite Rinv_r by lra. lra. }
  assert (Hl : log2 p' <= - L).
  { unfold log2, L. unfold log2.
    apply Rle_trans with ((- ln (INR n) + eps) * / ln 2).
    - apply Rmult_le_compat_r; lra.
    - nra. }
  pose proof (@sm_log2 F SM p' Hp'0) as Hl2.
  rewrite (Rabs_left (log2 p')) in Hl2 by lra.
  apply Rabs_bound_inv in Hl2.
  set (l' := flog2 p') in *.
  assert (Hl' : l' <= - (L * (1 - eps))) by nra.
  assert (Hprod : p' * l' <= - (p * (1 - eps) * (L * (1 - eps)))).
  { assert (p' * l' <= p' * - (L * (1 - eps)))
      by (apply Rmult_le_compat_l; lra).
    assert (p * (1 - eps) * (L * (1 - eps)) <= p' * (L * (1 - eps))).
    { apply Rmult_le_compat_r; [| lra]. apply Rmult_le_pos; lra. }
    lra. }
  assert (HT : 0 < p * (1 - eps) * (L * (1 - eps))).
  { apply Rmult_lt_0_compat; apply Rmult_lt_0_compat; lra. }
  pose proof (@sm_mul F SM p' l') as Hm.
  rewrite (Rabs_left (p' * l')) in Hm by lra.
  apply Rabs_bound_inv in Hm.
  set (t := fmul p' l') in *.
  assert (Ht : t <= - (p * (1 - eps) * (L * (1 - eps)) * (1 - eps))) by nra.
  pose proof (@sm_sub F SM e t) as Hs.
  assert (Hpos : 0 < e - t) by nra.
  rewrite (Rabs_pos_eq (e - t)) in Hs by lra.
  apply Rabs_bound_inv in Hs.
  assert (Hfin : (e + p * (1 - eps) * (L * (1 - eps)) * (1 - eps))
                 * (1 - eps) <= (e - t) * (1 - eps))
    by (apply Rmult_le_compat_r; lra).
  replace ((1 - eps) ^ 3 * L / INR n)
    with (p * (1 - eps) * (L * (1 - eps)) * (1 - eps))
    by (unfold p; field; lra).
  lra.
Qed.

Lemma entropy_loop_distinct : forall (n k : nat) (e : R),
  (2 <= n)%nat -> 0 <= e ->
  exists e',
    for_each (repeat 1%nat k) (entropy_step n) e = Ok e'
    /\ (1 - eps) ^ k
       * (e + INR k * ((1 - eps) ^ 3 * (log2 (INR n) - 2 * eps) / INR n))
       <= e'.
Proof.
  intros n k e Hn. pose proof eps_pos as He0. pose proof eps_small as He1.
  assert (HN : 2 <= INR n).
  { replace 2 with (INR 2) by (simpl; lra). now apply le_INR. }
  assert (Hlog : 1 <= log2 (INR n)).
  { replace 1 with (INR 1) by reflexivity. rewrite <- (log2_pow2 1).
    apply log2_monotone; simpl; lra. }
  set (T := (1 - eps) ^ 3 * (log2 (INR n) - 2 * eps) / INR n).
  assert (HT : 0 <= T).
  { unfold T, Rdiv. apply Rmult_le_pos.
    - apply Rmult_le_pos; [apply pow_le; lra | lra].
    - left. apply Rinv_0_lt_compat. lra. }
  revert e. induction k as [|k IH]; intros e He.
  - exists e. split; [reflexivity |]. simpl. lra.
  - cbn [repeat for_each].
    destruct (@entropy_step_distinct n e Hn He) as (e1 & -> & H1).
    fold T in H1. cbn [bind].
    assert (He1' : 0 <= e1).
    { assert (0 <= (e + T) * (1 - eps)) by (apply Rmult_le_pos; lra). lra. }
    destruct (IH e1 He1') as (e' & -> & H').
    exists e'. split; [reflexivity |].
    eapply Rle_trans; [| exact H'].
    rewrite <- tech_pow_Rmult, S_INR.
    rewrite (Rmult_comm (1 - eps)), Rmult_assoc.
    assert (Hpow : 0 <= (1 - eps) ^ k) by (apply pow_le; lra).
    apply Rmult_le_compat_l; [exact Hpow |].
    pose proof (pos_INR k) as Hk.
    assert (0 <= INR k * T) by (apply Rmult_le_pos; lra).
    nra.
Qed.

Lemma entropy_of_distinct : forall text : str,
  NoDup text -> (2 <= length text)%nat ->
  exists e,
    calculate_entropy text = Ok e
    /\ (1 - eps) ^ (length text + 3) * (log2 (INR (length text)) - 2 * eps)
       <= e
       <= (1 + eps) ^ (length text + 3)
          * (log2 (INR (length text)) + 4 * eps).
Proof.
  intros text Hnd Hlen. pose proof eps_pos as He0. pose proof eps_small as He1.
  assert (Hne : text <> []) by (intros ->; simpl in Hlen; lia).
  assert (Hd : distinct_count text = length text).
  { unfold distinct_count. now rewrite nodup_fixed_point. }
  destruct (entropy_upper Hne) as (e & Hcalc & Hup).
  rewrite Hd in Hup. exists e. split; [exact Hcalc |]. split.
  - assert (Hc : map snd (char_count text) = repeat 1%nat (length text)).
    { unfold char_count. rewrite char_count_nodup by exact Hnd. simpl.
      rewrite map_map. simpl. clear. induction text; simpl; congruence. }
    destruct (@entropy_loop_distinct (length text) (length text) 0 Hlen
                ltac:(lra)) as (e' & He' & Hlow).
    assert (E : e' = e).
    { destruct text as [|c text']; [now elim Hne |].
      unfold calculate_entropy in Hcalc. rewrite Hc, He' in Hcalc.
      now injection Hcalc. }
    subst e'. eapply Rle_trans; [| exact Hlow].
    assert (HN : 2 <= INR (length text)).
    { replace 2 with (INR 2) by (simpl; lra). now apply le_INR. }
    right. rewrite pow_add. field. lra.
  - apply Rabs_bound_inv in Hup. lra.
Qed.

End Entropy_of_distinct.

(** X1: the computed entropy of a text that is not empty exceeds the binary
    logarithm of the number [d] of its different characters by no more than
    the rounding: its absolute value is at most
    [(1 + eps) ^ (d + 3) * (log2 d + 4 eps)]; with 256 different characters
    or fewer it is below 8.01. *)
Theorem entropy_at_most_log2_distinct :
  forall (F : FloatOps),
    StandardModel F ->
    forall text : str,
      text <> [] ->
      exists e,
        calculate_entropy text = Ok e
        /\ (Rabs e <= (1 + eps) ^ (distinct_count text + 3)
                      * (log2 (INR (distinct_count text)) + 4 * eps))%R
        /\ ((distinct_count text <= 256)%nat -> (e <= 801 / 100)%R).
Proof.
  intros F SM text Hne.
  destruct (entropy_upper SM Hne) as (e & Hcalc & Hup).
  exists e. split; [exact Hcalc |]. split; [exact Hup |].
  intros Hd. pose proof eps_pos as He0. pose proof eps_small as He1.
  assert (Hpos : (0 < distinct_count text)%nat).
  { destruct text as [|c text']; [now elim Hne | apply distinct_count_pos]. }
  assert (Hd1 : (1 <= INR (distinct_count text) <= 2 ^ 8)%R).
  { split.
    - change 1%R with (INR 1). apply le_INR. lia.
    - replace (2 ^ 8)%R with (INR 256) by (simpl; lra). now apply le_INR. }
  assert (Hlog : (0 <= log2 (INR (distinct_count text)) <= 8)%R).
  { split.
    - replace 0%R with (log2 1)
        by (unfold log2; rewrite ln_1; unfold Rdiv; ring).
      apply log2_monotone; lra.
    - replace 8%R with (INR 8) by (simpl; lra). rewrite <- (log2_pow2 8).
      apply log2_monotone; lra. }
  assert (Hpow : ((1 + eps) ^ (distinct_count text + 3)
                  <= 1 + 2 * INR 259 * eps)%R).
  { eapply Rle_trans; [| apply pow_eps_bound; lia].
    apply Rle_pow; [lra | lia]. }
  replace (INR 259) with 259%R in Hpow by (simpl; lra).
  assert (H0 : (0 < (1 + eps) ^ (distinct_count text + 3))%R)
    by (apply pow_lt; lra).
  apply Rabs_bound_inv in Hup.
  assert (Hprod : ((1 + eps) ^ (distinct_count text + 3)
                   * (log2 (INR (distinct_count text)) + 4 * eps)
                   <= (1 + 2 * 259 * eps) * (8 + 4 * eps))%R)
    by (apply Rmult_le_compat; lra).
  nra.
Qed.

Lemma entropy_at_most_log2_distinct_witness :
  exists e,
    @calculate_entropy exact_ops sample_text = Ok e
    /\ (Rabs e <= (1 + eps) ^ (distinct_count sample_text + 3)
                  * (log2 (INR (distinct_count sample_text)) + 4 * eps))%R
    /\ (e <= 801 / 100)%R.
Proof.
  destruct (@entropy_at_most_log2_distinct exact_ops exact_ops_standard
              sample_text ltac:(discriminate)) as (e & He & Hb & H8).
  exists e. split; [exact He |]. split; [exact Hb |].
  apply H8. vm_compute. lia.
Defined.

(** X2: the computed entropy of a text of [n >= 2] characters, all
    different, is the binary logarithm of [n] up to the rounding: it lies
    between [(1 - eps) ^ (n + 3) * (log2 n - 2 eps)] and
    [(1 + eps) ^ (n + 3) * (log2 n + 4 eps)], and for [n <= 1000] within
    0.03 of [log2 n]. *)
Theorem entropy_of_distinct_characters :
  forall (F : FloatOps),
    StandardModel F ->
    forall text : str,
      NoDup text -> (2 <= length text)%nat ->
      exists e,
        calculate_entropy text = Ok e
        /\ ((1 - eps) ^ (length text + 3)
            * (log2 (INR (length text)) - 2 * eps)
            <= e
            <= (1 + eps) ^ (length text + 3)
               * (log2 (INR (length text)) + 4 * eps))%R
        /\ ((length text <= 1000)%nat ->
            (Rabs (e - log2 (INR (length text))) <= 3 / 100)%R).
Proof.
  intros F SM text Hnd Hlen.
  destruct (entropy_of_distinct SM Hnd Hlen) as (e & Hcalc & Hlo & Hhi).
  exists e. split; [exact Hcalc |]. split; [split; assumption |].
  intros Hn. pose proof eps_pos as He0. pose proof eps_small as He1.
  set (n := length text) in *.
  assert (HN : (2 <= INR n <= 2 ^ 10)%R).
  { split.
    - replace 2%R with (INR 2) by (simpl; lra). now apply le_INR.
    - apply Rle_trans with (INR 1000); [now apply le_INR | simpl; lra]. }
  assert (Hlog : (1 <= log2 (INR n) <= 10)%R).
  { split.
    - replace 1%R with (INR 1) by reflexivity. rewrite <- (log2_pow2 1).
      apply log2_monotone; simpl; lra.
    - replace 10%R with (INR 10) by (simpl; lra). rewrite <- (log2_pow2 10).
      apply log2_monotone; lra. }
  assert (Hn1000 : (INR n <= 1000)%R).
  { replace 1000%R with (INR 1000) by (simpl; lra). now apply le_INR. }
  assert (Hup : ((1 + eps) ^ (n + 3) <= 1 + 21 / 10000)%R).
  { rewrite pow_add.
    pose proof (@pow_eps_bound n Hn) as H1.
    pose proof (@pow_eps_bound 3 ltac:(lia)) as H3.
    replace (INR 3) with 3%R in H3 by (simpl; lra).
    assert (0 < (1 + eps) ^ n)%R by (apply pow_lt; lra).
    assert (0 < (1 + eps) ^ 3)%R by (apply pow_lt; lra).
    assert (((1 + eps) ^ n * (1 + eps) ^ 3
             <= (1 + 2 * INR n * eps) * (1 + 2 * 3 * eps))%R)
      by (apply Rmult_le_compat; lra).
    assert (INR n * eps <= / 1000)%R by nra.
    nra. }
  assert (Hdown : (1 - 11 / 10000 <= (1 - eps) ^ (n + 3))%R).
  { pose proof (pow_one_minus_eps (n + 3)) as H.
    rewrite plus_INR in H. replace (INR 3) with 3%R in H by (simpl; lra).
    assert ((INR n + 3) * eps <= 1003 / 1000000)%R by nra.
    lra. }
  assert (H0 : (0 < (1 + eps) ^ (n + 3))%R) by (apply pow_lt; lra).
  assert (Hhi' : (e <= (1 + 21 / 10000) * (log2 (INR n) + 4 * eps))%R).
  { eapply Rle_trans; [exact Hhi |]. apply Rmult_le_compat_r; lra. }
  assert (Hlo' : ((1 - 11 / 10000) * (log2 (INR n) - 2 * eps) <= e)%R).
  { eapply Rle_trans; [| exact Hlo]. apply Rmult_le_compat_r; lra. }
  apply Rabs_le. split; nra.
Qed.

Lemma entropy_of_distinct_characters_witness :
  exists e,
    @calculate_entropy exact_ops (distinct_block 128) = Ok e
    /\ (Rabs (e - log2 (INR (length (distinct_block 128)))) <= 3 / 100)%R.
Proof.
  assert (Hnd : NoDup (distinct_block 128)).
  { assert (H : nodup N.eq_dec (distinct_block 128) = distinct_block 128)
      by (vm_compute; reflexivity).
    rewrite <- H. apply NoDup_nodup. }
  destruct (@entropy_of_distinct_characters exact_ops exact_ops_standard
              (distinct_block 128) Hnd
              ltac:(rewrite distinct_block_length; lia))
    as (e & He & _ & Hnear).
  exists e. split; [exact He |].
  apply Hnear. rewrite distinct_block_length. lia.
Defined.

(** ** The assessment of a page *)

Section Assessment_facts.

Local Open Scope R_scope.

Context {F : FloatOps} {U : UnicodeTables}.

(** What [detect_encodings] returns for a text of 16 characters or more. *)
Lemma detect_encodings_long : forall (text : str) (d : detection),
  (16 <= length text)%nat ->
  detect_encodings text = Ok d ->
  exists b h u e density,
    detect_base64 text = Ok b
    /\ detect_hex text = Ok h
    /\ detect_url_encoding text = Ok u
    /\ detect_high_entropy text 100 = Ok e
    /\ py_div (INR (length (b ++ h ++ u ++ e)))
         (fdiv (INR (length text)) 1000) = Ok density
    /\ let sr := accumulate_score density
                   (count_high_confidence (b ++ h ++ u ++ e))
                   (count_high_entropy e) (length b) in
       findings d
       = sort_by (fun y x => Rgtb (f_confidence y) (f_confidence x))
           (b ++ h ++ u ++ e)
       /\ suspicious d = Rgtb (fst sr) 5
       /\ suspicion_score d = fround2 (fst sr)
       /\ suspicion_reasons d = if Rgtb (fst sr) 5 then snd sr else [].
Proof.
  intros text d Hlen. unfold detect_encodings.
  replace (is_empty text || (length text <? min_length)%nat) with false.
  2:{ symmetry. apply orb_false_intro.
      - destruct text; [simpl in Hlen; lia | reflexivity].
      - apply Nat.ltb_ge. exact Hlen. }
  unfold default_block_size.
  destruct (detect_base64 text) as [b |]; [| discriminate].
  destruct (detect_hex text) as [h |]; [| discriminate].
  destruct (detect_url_encoding text) as [u |]; [| discriminate].
  destruct (detect_high_entropy text 100) as [e |]; [| discriminate].
  cbn [bind].
  destruct (py_div _ _) as [density |] eqn:Hdiv; [| discriminate].
  cbn [bind]. intros Hd. exists b, h, u, e, density.
  repeat (split; [reflexivity |]). split; [exact Hdiv |].
  unfold accumulate_score, count_high_confidence, count_high_entropy.
  revert Hd.
  destruct (Rgtb density (5 / 10));
    match goal with |- context [Nat.leb 3 ?n] => destruct (Nat.leb 3 n) end;
    match goal with |- context [Nat.ltb 0 ?n] => destruct (Nat.ltb 0 n) end;
    match goal with |- context [Nat.ltb 2 ?n] => destruct (Nat.ltb 2 n) end;
    intros [= <-]; cbn [findings suspicious suspicion_score
                        suspicion_reasons fst snd app];
    repeat split.
Qed.

Lemma detect_encodings_short : forall (text : str) (d : detection),
  (length text < 16)%nat ->
  detect_encodings text = Ok d ->
  d = {| findings := []; suspicious := false; suspicion_score := 0;
         suspicion_reasons := [] |}.
Proof.
  intros text d Hlen. unfold detect_encodings.
  replace (length text <? min_length)%nat with true
    by (symmetry; apply Nat.ltb_lt; exact Hlen).
  rewrite orb_true_r. congruence.
Qed.

Lemma Rgtb_0_5 : Rgtb 0 5 = false.
Proof. apply Rgtb_false. lra. Qed.

(** A score above 5 has a reason. *)
Lemma accumulate_score_reasons : forall density hc he nb,
  Rgtb (fst (accumulate_score density hc he nb)) 5 = true ->
  snd (accumulate_score density hc he nb) <> [].
Proof.
  intros density hc he nb. unfold accumulate_score.
  destruct (Rgtb density (5 / 10)); destruct (Nat.leb 3 hc);
    destruct (Nat.ltb 0 he); destruct (Nat.ltb 2 nb);
    cbn [fst snd]; intros H;
    try (rewrite Rgtb_0_5 in H; discriminate H);
    try (intros E; apply app_eq_nil in E; destruct E; discriminate);
    discriminate.
Qed.

End Assessment_facts.

(** X3: a page is flagged as suspicious exactly when it is given reasons:
    a page that is not suspicious has no reason, and a suspicious one has at
    least one. *)
Theorem suspicious_iff_reasons :
  forall (F : FloatOps) (U : UnicodeTables) (text : str) (d : detection),
    detect_encodings text = Ok d ->
    (suspicious d = true <-> suspicion_reasons d <> []).
Proof.
  intros F U text d Hd.
  destruct (Nat.lt_ge_cases (length text) 16) as [Hshort | Hlong].
  - rewrite (detect_encodings_short text Hshort Hd). simpl.
    split; [discriminate | intros H; now elim H].
  - destruct (detect_encodings_long text Hlong Hd)
      as (b & h & u & e & density & _ & _ & _ & _ & _ & Hsr).
    cbn zeta in Hsr. destruct Hsr as (_ & -> & _ & ->).
    destruct (Rgtb (fst _) 5) eqn:E.
    + split; [intros _; now apply accumulate_score_reasons | reflexivity].
    + split; [discriminate | intros H; now elim H].
Qed.

Lemma suspicious_iff_reasons_witness :
  exists d, @detect_encodings exact_ops ascii_tables (b64encode sample_text)
            = Ok d
            /\ (suspicious d = true <-> suspicion_reasons d <> []).
Proof.
  destruct (@detect_encodings_findings exact_ops ascii_tables
              exact_ops_standard (b64encode sample_text)) as (d & Hd & _).
  exists d. split; [exact Hd |].
  apply (@suspicious_iff_reasons exact_ops ascii_tables
           (b64encode sample_text) d Hd).
Defined.

(** ** The rules of the score under the standard model *)

Section Score_bounds.

Local Open Scope R_scope.

Context {F : FloatOps}.
Hypothesis SM : StandardModel F.

Lemma py_div_inv : forall a b q,
  py_div a b = Ok q -> b <> 0 /\ q = fdiv a b.
Proof.
  intros a b q. unfold py_div.
  destruct (Req_dec_T b 0); [discriminate | intros [= <-]; auto].
Qed.

(** An exact zero stays zero. *)
Lemma rel_zero : forall x, Rabs (x - 0) <= eps * Rabs 0 -> x = 0.
Proof.
  intros x H. rewrite Rabs_R0, Rmult_0_r, Rminus_0_r in H.
  pose proof (Rabs_pos x). apply (@Rabs_bound_inv _ _) in H. lra.
Qed.

Lemma fdiv_zero : forall y, y <> 0 -> fdiv 0 y = 0.
Proof.
  intros y Hy. pose proof (@sm_div F SM 0 y Hy) as H.
  replace (0 / y) with 0 in H by (field; exact Hy). now apply (@rel_zero _).
Qed.

Lemma rel_nonneg : forall x y, Rabs (x - y) <= eps * Rabs y -> 0 <= y ->
  y * (1 - eps) <= x.
Proof.
  intros x y H [Hy | <-].
  - now apply (@rel_pos x y).
  - rewrite (@rel_zero _ H). lra.
Qed.

Lemma fadd_keeps : forall s a, 0 <= s -> 0 <= a -> s * (1 - eps) <= fadd s a.
Proof.
  intros s a Hs Ha. pose proof eps_pos. pose proof eps_small.
  pose proof (@rel_nonneg _ _ (@sm_add F SM s a) ltac:(lra)).
  assert (s * (1 - eps) <= (s + a) * (1 - eps))
    by (apply Rmult_le_compat_r; lra).
  lra.
Qed.

Lemma fmul_nonneg : forall a b, 0 <= a -> 0 <= b -> 0 <= fmul a b.
Proof.
  intros a b Ha Hb. pose proof eps_pos. pose proof eps_small.
  assert (0 <= a * b) by (apply Rmult_le_pos; assumption).
  pose proof (@rel_nonneg _ _ (@sm_mul F SM a b) ltac:(assumption)).
  assert (0 <= a * b * (1 - eps)) by (apply Rmult_le_pos; lra). lra.
Qed.

(** A density of 5.01 or more is enough for a score above 5. *)
Lemma accumulate_score_dense : forall density hc he nb,
  501 / 100 <= density ->
  5 < fst (accumulate_score density hc he nb).
Proof.
  intros density hc he nb Hd. pose proof eps_pos. pose proof eps_small.
  unfold accumulate_score. rewrite (@Rgtb_true density (5 / 10)) by lra.
  assert (H1 : 5009 / 1000 <= fadd 0 density).
  { pose proof (@rel_nonneg _ _ (@sm_add F SM 0 density) ltac:(lra)).
    assert (501 / 100 * (1 - eps) <= (0 + density) * (1 - eps))
      by (apply Rmult_le_compat_r; lra).
    lra. }
  set (s1 := fadd 0 density) in *.
  assert (Hstep : forall s a lo, lo <= s -> 5 <= lo <= 6 -> 0 <= a ->
                    lo - 1 / 1000 <= fadd s a).
  { intros s a lo Hs Hlo Ha.
    pose proof (@fadd_keeps s a ltac:(lra) Ha).
    assert (lo * (1 - eps) <= s * (1 - eps))
      by (apply Rmult_le_compat_r; lra).
    assert (lo * eps <= 6 * eps) by (apply Rmult_le_compat_r; lra).
    lra. }
  assert (Hhc : 0 <= fmul (INR hc) (5 / 10))
    by (apply fmul_nonneg; [apply pos_INR | lra]).
  assert (Hnb : 0 <= fmul (INR nb) (7 / 10))
    by (apply fmul_nonneg; [apply pos_INR | lra]).
  pose proof (pos_INR he) as Hhe.
  destruct (Nat.leb 3 hc).
  - pose proof (Hstep s1 _ _ H1 ltac:(lra) Hhc) as H2.
    destruct (Nat.ltb 0 he).
    + pose proof (Hstep _ _ _ H2 ltac:(lra) Hhe) as H3.
      destruct (Nat.ltb 2 nb); cbn [fst].
      * pose proof (Hstep _ _ _ H3 ltac:(lra) Hnb). lra.
      * lra.
    + destruct (Nat.ltb 2 nb); cbn [fst].
      * pose proof (Hstep _ _ _ H2 ltac:(lra) Hnb). lra.
      * lra.
  - destruct (Nat.ltb 0 he).
    + pose proof (Hstep s1 _ _ H1 ltac:(lra) Hhe) as H3.
      destruct (Nat.ltb 2 nb); cbn [fst].
      * pose proof (Hstep _ _ _ H3 ltac:(lra) Hnb). lra.
      * lra.
    + destruct (Nat.ltb 2 nb); cbn [fst].
      * pose proof (Hstep s1 _ _ H1 ltac:(lra) Hnb). lra.
      * lra.
Qed.

(** The density of [n >= 1] findings in a text of fewer than 200
    characters. *)
Lemma density_of_short_text : forall (n len : nat) density,
  (1 <= n)%nat -> (1 <= len < 200)%nat ->
  py_div (INR n) (fdiv (INR len) 1000) = Ok density ->
  501 / 100 <= density.
Proof.
  intros n len density Hn Hlen Hdiv.
  pose proof eps_pos. pose proof eps_small.
  destruct (@py_div_inv _ _ _ Hdiv) as [Hx ->].
  assert (HL : 1 <= INR len <= 199).
  { split.
    - change 1 with (INR 1). apply le_INR. lia.
    - replace 199 with (INR 199) by (simpl; lra). apply le_INR. lia. }
  assert (HN : 1 <= INR n) by (change 1 with (INR 1); apply le_INR; lia).
  pose proof (@sm_div F SM (INR len) 1000 ltac:(lra)) as Hq.
  apply (@rel_pos _ _) in Hq; [| lra].
  set (x := fdiv (INR len) 1000) in *.
  assert (Hx0 : 0 < x) by nra.
  assert (Hx1 : x <= 1991 / 10000) by nra.
  pose proof (@sm_div F SM (INR n) x Hx) as Hd.
  assert (Hnx : 10000 / 1991 <= INR n / x).
  { apply Rmult_le_reg_r with x; [exact Hx0 |].
    unfold Rdiv at 2. rewrite Rmult_assoc, Rinv_l, Rmult_1_r by lra. nra. }
  apply (@rel_pos _ _) in Hd; [| lra]. nra.
Qed.

End Score_bounds.

Lemma sort_by_nil_inv : forall (A : Type) (ahead : A -> A -> bool) l,
  sort_by ahead l = [] -> l = [].
Proof.
  intros A ahead l H. pose proof (sort_by_perm ahead l) as Hp.
  rewrite H in Hp. now apply Permutation_nil in Hp.
Qed.

(** X4: under the standard model, a page of 16 to 199 characters on which a
    detector finds anything at all is suspicious: one finding in so short a
    text is a pattern density above 5 per 1000 characters. *)
Theorem short_page_with_finding_is_suspicious :
  forall (F : FloatOps) (U : UnicodeTables),
    StandardModel F ->
    forall (text : str) (d : detection),
      (16 <= length text < 200)%nat ->
      detect_encodings text = Ok d ->
      findings d <> [] ->
      suspicious d = true.
Proof.
  intros F U SM text d [Hlo Hhi] Hd Hne.
  destruct (detect_encodings_long text Hlo Hd)
    as (b & h & u & e & density & _ & _ & _ & _ & Hdiv & Hsr).
  cbn zeta in Hsr. destruct Hsr as (Hf & -> & _).
  apply Rgtb_true. apply (accumulate_score_dense SM).
  apply (density_of_short_text SM (n := length (b ++ h ++ u ++ e))
           (len := length text)); [| lia | exact Hdiv].
  destruct (b ++ h ++ u ++ e) as [|f fs] eqn:E; [| simpl; lia].
  elim Hne. rewrite Hf. reflexivity.
Qed.

(** X5: under the standard model, a page on which no detector finds anything
    is not suspicious and has no reason; its score is [round(0, 2)]. *)
Theorem page_without_finding_is_clean :
  forall (F : FloatOps) (U : UnicodeTables),
    StandardModel F ->
    forall (text : str) (d : detection),
      detect_encodings text = Ok d ->
      findings d = [] ->
      suspicious d = false
      /\ suspicion_reasons d = []
      /\ ((16 <= length text)%nat -> suspicion_score d = fround2 0).
Proof.
  intros F U SM text d Hd Hnil.
  destruct (Nat.lt_ge_cases (length text) 16) as [Hshort | Hlong].
  - rewrite (detect_encodings_short text Hshort Hd). simpl.
    repeat split. lia.
  - destruct (detect_encodings_long text Hlong Hd)
      as (b & h & u & e & density & _ & _ & _ & _ & Hdiv & Hsr).
    cbn zeta in Hsr. destruct Hsr as (Hf & Hs & Hsc & Hr).
    rewrite Hnil in Hf. symmetry in Hf. apply sort_by_nil_inv in Hf.
    destruct b; [| discriminate]. destruct h; [| discriminate].
    destruct u; [| discriminate]. simpl in Hf. subst e.
    destruct (@py_div_inv F _ _ _ Hdiv) as [Hx Hq].
    simpl INR in Hq. rewrite (fdiv_zero SM Hx) in Hq. subst density.
    rewrite Hs, Hsc, Hr.
    unfold accumulate_score, count_high_confidence, count_high_entropy.
    rewrite (@Rgtb_false 0 (5 / 10)) by lra.
    cbn [app filter length Nat.leb Nat.ltb fst snd].
    rewrite Rgtb_0_5. auto.
Qed.

(** ** The order of the findings *)

Section Descending_sort.

Local Open Scope R_scope.

Variable A : Type.
Variable key : A -> R.

Let ahead (y x : A) : bool := Rgtb (key y) (key x).
Let key_ge (x y : A) : Prop := key y <= key x.

Lemma insert_by_descending : forall x l,
  StronglySorted key_ge l -> StronglySorted key_ge (insert_by ahead x l).
Proof.
  intros x l. induction l as [|y l IH]; simpl; intros Hs.
  - constructor; constructor.
  - inversion Hs as [|? ? Hs' Hall]; subst.
    unfold ahead at 1, Rgtb, Rltb. destruct (Rlt_dec (key x) (key y)) as [Hlt | Hge].
    + constructor; [now apply IH |].
      eapply Permutation_Forall;
        [apply Permutation_sym, insert_by_perm |].
      constructor; [unfold key_ge; lra | exact Hall].
    + constructor; [exact Hs |].
      constructor; [unfold key_ge; lra |].
      eapply Forall_impl; [| exact Hall]. unfold key_ge. intros; lra.
Qed.

Lemma sort_by_descending : forall l, StronglySorted key_ge (sort_by ahead l).
Proof.
  induction l as [|x l IH]; simpl.
  - constructor.
  - now apply insert_by_descending.
Qed.

End Descending_sort.

(** X6: the findings that [detect_encodings] returns for a text of 16
    characters or more are those of the four detectors, every one of them
    once, in descending order of confidence. *)
Theorem findings_sorted_by_confidence :
  forall (F : FloatOps) (U : UnicodeTables) (text : str) (d : detection),
    (16 <= length text)%nat ->
    detect_encodings text = Ok d ->
    exists b h u e,
      detect_base64 text = Ok b
      /\ detect_hex text = Ok h
      /\ detect_url_encoding text = Ok u
      /\ detect_high_entropy text 100 = Ok e
      /\ Permutation (findings d) (b ++ h ++ u ++ e)
      /\ StronglySorted confidence_ge (findings d).
Proof.
  intros F U text d Hlong Hd.
  destruct (detect_encodings_long text Hlong Hd)
    as (b & h & u & e & density & Hb & Hh & Hu & He & _ & Hsr).
  cbn zeta in Hsr. destruct Hsr as (Hf & _).
  exists b, h, u, e. repeat (split; [assumption |]).
  rewrite Hf. split; [apply sort_by_perm |].
  apply (sort_by_descending f_confidence).
Qed.

Lemma sample_text_readable :
  @is_readable_text exact_ops ascii_tables sample_text = Ok true.
Proof. now apply readable_when_all_printable. Qed.

Lemma short_page_with_finding_is_suspicious_witness :
  exists d,
    @detect_encodings exact_ops ascii_tables (b64encode sample_text) = Ok d
    /\ suspicious d = true.
Proof.
  destruct (@detect_encodings_findings exact_ops ascii_tables
              exact_ops_standard (b64encode sample_text)) as (d & Hd & _).
  exists d. split; [exact Hd |].
  apply (@short_page_with_finding_is_suspicious exact_ops ascii_tables
           exact_ops_standard (b64encode sample_text) d);
    [vm_compute; lia | exact Hd |].
  destruct (@detect_encodings_long exact_ops ascii_tables
              (b64encode sample_text) d ltac:(vm_compute; lia) Hd)
    as (b & h & u & e & density & Hb & _ & _ & _ & _ & Hsr).
  cbn zeta in Hsr. destruct Hsr as (Hf & _).
  rewrite (@detect_base64_of_encoding exact_ops ascii_tables sample_text
             sample_text eq_refl sample_text_readable
             ltac:(vm_compute; lia)) in Hb.
  injection Hb as <-. rewrite Hf. intros E.
  apply sort_by_nil_inv in E. discriminate E.
Defined.

Lemma page_without_finding_is_clean_witness :
  exists d,
    @detect_encodings exact_ops ascii_tables (repeat 32%N 20) = Ok d
    /\ suspicious d = false
    /\ suspicion_reasons d = []
    /\ suspicion_score d = @fround2 exact_ops 0.
Proof.
  destruct (@detect_encodings_findings exact_ops ascii_tables
              exact_ops_standard (repeat 32%N 20)) as (d & Hd & _).
  exists d. split; [exact Hd |].
  assert (Hnil : findings d = []).
  { destruct (@detect_encodings_long exact_ops ascii_tables
                (repeat 32%N 20) d ltac:(vm_compute; lia) Hd)
      as (b & h & u & e & density & Hb & Hh & Hu & He & _ & Hsr).
    cbn zeta in Hsr. destruct Hsr as (Hf & _).
    rewrite (detect_high_entropy_default exact_ops_standard) in He.
    vm_compute in Hb, Hh, Hu.
    injection Hb as <-. injection Hh as <-. injection Hu as <-.
    injection He as <-. exact Hf. }
  destruct (@page_without_finding_is_clean exact_ops ascii_tables
              exact_ops_standard (repeat 32%N 20) d Hd Hnil)
    as (H1 & H2 & H3).
  repeat split; [exact H1 | exact H2 | apply H3; vm_compute; lia].
Defined.

(** ** Block sizes that are not positive *)



(** ** Readable text in exact arithmetic *)

(** X8: in exact arithmetic a text is readable exactly when it is not empty,
    has a letter, has one of the common characters, and more than 95 of 100
    of its characters are printable; 95 of 100 exactly is not enough. *)
Theorem is_readable_text_exact :
  forall (U : UnicodeTables) (text : str),
    @is_readable_text exact_ops U text
    = Ok (negb (is_empty text)
          && existsb isalpha text
          && existsb (fun c => existsb (N.eqb c) common_chars) text
          && (95 * length text <? 100 * count_printable text)%nat).
Proof.
  intros U [|c text]; [reflexivity |].
  set (t := c :: text). unfold is_readable_text, py_div.
  assert (HL : (0 < INR (length t))%R) by (apply lt_0_INR; simpl; lia).
  fold t. destruct (Req_dec_T (INR (length t)) 0) as [E | _]; [lra |].
  cbn [bind fdiv exact_ops is_empty negb andb]. subst t. cbn [is_empty].
  f_equal. f_equal.
  set (t := c :: text) in *.
  destruct (Nat.ltb_spec (95 * length t) (100 * count_printable t))
    as [Hlt | Hge].
  - apply Rgtb_true. apply lt_INR in Hlt. rewrite !mult_INR in Hlt.
    replace (INR 95) with 95%R in Hlt by (simpl; lra).
    replace (INR 100) with 100%R in Hlt by (simpl; lra).
    apply Rmult_lt_reg_r with (INR (length t)); [exact HL |].
    replace (INR (count_printable t) / INR (length t) * INR (length t))%R
      with (INR (count_printable t)) by (field; lra).
    lra.
  - apply Rgtb_false. apply le_INR in Hge. rewrite !mult_INR in Hge.
    replace (INR 95) with 95%R in Hge by (simpl; lra).
    replace (INR 100) with 100%R in Hge by (simpl; lra).
    apply Rmult_le_reg_r with (INR (length t)); [exact HL |].
    replace (INR (count_printable t) / INR (length t) * INR (length t))%R
      with (INR (count_printable t)) by (field; lra).
    lra.
Qed.

(** ** What [finditer] returns *)

Lemma in_sequence_cons : forall ms c text,
  in_sequence ms text -> in_sequence ms (c :: text).
Proof.
  intros [|m ms] c text; simpl; [auto |].
  intros (gap & rest & -> & H). exists (c :: gap), rest. auto.
Qed.

Lemma in_sequence_substring : forall ms text m,
  in_sequence ms text -> In m ms -> substring m text.
Proof.
  induction ms as [|m0 ms IH]; simpl; intros text m Hseq Hin; [tauto |].
  destruct Hseq as (gap & rest & -> & Hrest). destruct Hin as [-> | Hin].
  - now exists gap, rest.
  - destruct (IH _ _ Hrest Hin) as (pre & post & ->).
    exists (gap ++ m0 ++ pre), post. now rewrite <- !app_assoc.
Qed.

Lemma finditer_from_in_sequence : forall matcher,
  matches_prefix matcher ->
  forall l skip,
    in_sequence (finditer_from matcher l skip) (skipn skip l)
    /\ Forall (fun m => exists s, matcher s = Some m)
         (finditer_from matcher l skip).
Proof.
  intros matcher Hpre. induction l as [|c l IH]; intros skip.
  - simpl. split; [exact I | constructor].
  - destruct skip as [|k]; cbn [finditer_from skipn].
    + destruct (matcher (c :: l)) as [m |] eqn:Hm.
      * destruct (Hpre _ _ Hm) as (Hne & post & Heq).
        destruct m as [|c' m']; [now elim Hne |].
        simpl in Heq. injection Heq as <- ->.
        destruct (IH (length (c :: m') - 1)%nat) as [Hseq Hall].
        split.
        -- simpl. exists [], post. split; [reflexivity |].
           simpl in Hseq. rewrite Nat.sub_0_r in Hseq.
           rewrite skipn_length_app in Hseq.
           simpl. rewrite Nat.sub_0_r. exact Hseq.
        -- constructor; [now exists (c :: m' ++ post) | exact Hall].
      * destruct (IH 0%nat) as [Hseq Hall]. split; [| exact Hall].
        apply in_sequence_cons. exact Hseq.
    + apply IH.
Qed.

Lemma finditer_in_sequence : forall matcher text,
  matches_prefix matcher ->
  in_sequence (finditer matcher text) text
  /\ Forall (fun m => exists s, matcher s = Some m) (finditer matcher text).
Proof.
  intros matcher text Hpre.
  apply (finditer_from_in_sequence Hpre text 0).
Qed.

(** The shapes of the matches of the three patterns. *)
Lemma take_while_spec : forall p l,
  forallb p (take_while p l) = true
  /\ l = take_while p l ++ skipn (length (take_while p l)) l.
Proof.
  intros p. induction l as [|c l [IH1 IH2]]; simpl; [auto |].
  destruct (p c) eqn:E; simpl; [| auto].
  rewrite E, IH1. split; [reflexivity | now rewrite <- IH2].
Qed.

Lemma take_upto_spec : forall n p l,
  forallb p (take_upto n p l) = true
  /\ (length (take_upto n p l) <= n)%nat
  /\ exists post, l = take_upto n p l ++ post.
Proof.
  intros n p. induction n as [|n IH]; intros l.
  - destruct l; simpl; (split; [reflexivity | split; [lia | eexists; reflexivity]]).
  - destruct l as [|c l]; simpl.
    + split; [reflexivity | split; [lia | now exists []]].
    + destruct (p c) eqn:E.
      * destruct (IH l) as (H1 & H2 & post & H3). simpl. rewrite E, H1.
        split; [reflexivity | split; [lia |]].
        exists post. now rewrite <- H3.
      * simpl. split; [reflexivity | split; [lia | now exists (c :: l)]].
Qed.

Lemma pattern_base64_match : forall s m,
  pattern_base64 s = Some m ->
  (exists post, s = m ++ post)
  /\ exists body pads,
       m = body ++ pads
       /\ forallb is_base64_char body = true
       /\ (min_length <= length body)%nat
       /\ forallb is_equals pads = true
       /\ (length pads <= 3)%nat.
Proof.
  intros s m. unfold pattern_base64.
  destruct (take_while_spec is_base64_char s) as [Hbody Hs].
  set (body := take_while is_base64_char s) in *.
  destruct (Nat.leb_spec min_length (length body)) as [Hlen |];
    [| discriminate].
  intros [= <-].
  destruct (take_upto_spec 3 is_equals (skipn (length body) s))
    as (Hp & Hk & post & Hpost).
  split.
  - exists post. rewrite <- app_assoc.
    etransitivity; [exact Hs |]. f_equal. exact Hpost.
  - exists body, (take_upto 3 is_equals (skipn (length body) s)). auto.
Qed.

Lemma pattern_hex_match : forall s m,
  pattern_hex s = Some m ->
  (exists post, s = m ++ post)
  /\ forallb is_hex_char m = true /\ (min_length <= length m)%nat.
Proof.
  intros s m. unfold pattern_hex.
  destruct (take_while_spec is_hex_char s) as [Hbody Hs].
  set (body := take_while is_hex_char s) in *.
  destruct (Nat.leb_spec min_length (length body)) as [Hlen |];
    [| discriminate].
  intros [= <-]. split; [now exists (skipn (length body) s) | auto].
Qed.

Lemma percent_groups_prefix : forall l,
  exists post, l = percent_groups l ++ post.
Proof.
  intros l. remember (length l) as n eqn:Hn. revert l Hn.
  induction n as [n IH] using lt_wf_ind. intros l Hn.
  destruct l as [|p [|a [|b l']]]; try (now eexists; simpl; reflexivity).
  cbn [percent_groups].
  destruct ((p =? 37)%N && is_hex_char a && is_hex_char b);
    [| now exists (p :: a :: b :: l')].
  destruct (IH (length l') ltac:(subst n; simpl; lia) l' eq_refl)
    as (post & Hpost).
  exists post. simpl. now rewrite <- Hpost.
Qed.

Lemma percent_groups_idem : forall l,
  percent_groups (percent_groups l) = percent_groups l.
Proof.
  intros l. remember (length l) as n eqn:Hn. revert l Hn.
  induction n as [n IH] using lt_wf_ind. intros l Hn.
  destruct l as [|p [|a [|b l']]]; try reflexivity.
  cbn [percent_groups].
  destruct ((p =? 37)%N && is_hex_char a && is_hex_char b) eqn:E;
    [| reflexivity].
  cbn [percent_groups]. rewrite E. f_equal. f_equal. f_equal.
  apply (IH (length l')); [subst n; simpl; lia | reflexivity].
Qed.

Lemma pattern_url_match : forall s m,
  pattern_url s = Some m ->
  (exists post, s = m ++ post) /\ (9 <= length m)%nat.
Proof.
  intros s m. unfold pattern_url.
  destruct (Nat.leb_spec 9 (length (percent_groups s))) as [Hlen |];
    [| discriminate].
  intros [= <-]. split; [apply percent_groups_prefix | exact Hlen].
Qed.

Lemma patterns_match_prefix :
  matches_prefix pattern_base64 /\ matches_prefix pattern_hex
  /\ matches_prefix pattern_url.
Proof.
  unfold matches_prefix. repeat split.
  - destruct (pattern_base64_match _ H)
      as (_ & body & pads & -> & _ & Hlen & _).
    unfold min_length in Hlen. destruct body; [simpl in Hlen; lia |].
    discriminate.
  - apply (pattern_base64_match _ H).
  - destruct (pattern_hex_match _ H) as (_ & _ & Hlen).
    unfold min_length in Hlen. destruct m; [simpl in Hlen; lia |].
    discriminate.
  - apply (pattern_hex_match _ H).
  - destruct (pattern_url_match _ H) as (_ & Hlen).
    destruct m; [simpl in Hlen; lia | discriminate].
  - apply (pattern_url_match _ H).
Qed.


Lemma in_sequence_app_l : forall ms pre text,
  in_sequence ms text -> in_sequence ms (pre ++ text).
Proof.
  intros ms pre text H. induction pre as [|c pre IH]; [exact H |].
  simpl. now apply in_sequence_cons.
Qed.

(** A loop over matches that appends at most one finding per match, the
    content of which is the match. *)
Lemma for_each_in_sequence : forall (Q : str -> Prop) (G : finding -> Prop)
    (body : list finding -> str -> result (list finding)),
  (forall findings encoded,
     Q encoded ->
     exists findings',
       body findings encoded = Ok findings'
       /\ (findings' = findings
           \/ exists f, findings' = findings ++ [f]
                        /\ f_content f = encoded /\ G f)) ->
  forall cands text findings,
    in_sequence cands text -> Forall Q cands ->
    exists new,
      for_each cands body findings = Ok (findings ++ new)
      /\ in_sequence (map f_content new) text
      /\ Forall G new.
Proof.
  intros Q G body Hbody. induction cands as [|c cs IH];
    intros text findings Hseq HQ.
  - exists []. simpl. rewrite app_nil_r. auto.
  - simpl in Hseq. destruct Hseq as (gap & rest & -> & Hrest).
    inversion HQ as [|? ? Hc Hcs]; subst.
    destruct (Hbody findings c Hc) as (fs1 & Hfs1 & Hcase).
    cbn [for_each]. rewrite Hfs1. cbn [bind].
    destruct Hcase as [-> | (f & -> & Hcontent & Hf)].
    + destruct (IH rest findings Hrest Hcs) as (new & Hnew & Hs & Hall).
      exists new. split; [exact Hnew | split; [| exact Hall]].
      rewrite app_assoc. now apply in_sequence_app_l.
    + destruct (IH rest (findings ++ [f]) Hrest Hcs)
        as (new & Hnew & Hs & Hall).
      exists (f :: new). split; [| split].
      * rewrite Hnew, <- app_assoc. reflexivity.
      * simpl. exists gap, rest. rewrite Hcontent. auto.
      * now constructor.
Qed.

Section Findings_sound.

Context {F : FloatOps} {U : UnicodeTables}.
Hypothesis SM : StandardModel F.

Lemma candidate_reports : forall (t : finding_type) (confidence : R) binary
    (decode : str -> result bytes) findings encoded,
  exists findings',
    try_except_all
      (decoded <- decode encoded ;;
       classify_decoded findings encoded decoded t confidence binary)
      (Ok findings)
    = Ok findings'
    /\ (findings' = findings
        \/ exists f, findings' = findings ++ [f]
                     /\ f_content f = encoded
                     /\ reports_text t confidence decode f).
Proof.
  intros t confidence binary decode findings encoded.
  destruct (decode encoded) as [decoded | e] eqn:Hdec;
    cbn [bind try_except_all].
  - destruct (classify_decoded_spec SM findings encoded decoded t confidence
                binary) as (fs & -> & [-> | (s & Hs & Hr & ->)]).
    + exists findings. auto.
    + eexists. split; [reflexivity |]. right. eexists.
      split; [reflexivity |]. split; [reflexivity |].
      exists decoded, s. simpl. auto.
  - exists findings. auto.
Qed.

End Findings_sound.

(** X9: under the standard model, the findings of [detect_base64] are matches
    of the Base64 pattern that lie in the text one behind the other, without
    overlap: a run of at least 16 characters of the alphabet and at most
    three padding characters, which decodes, once padded, to UTF-8 bytes of
    a readable text; the finding is the one that reports this text, with
    the confidence 0.9. *)
Theorem detect_base64_findings :
  forall (F : FloatOps) (U : UnicodeTables),
    StandardModel F ->
    forall text : str,
      exists fs,
        detect_base64 text = Ok fs
        /\ in_sequence (map f_content fs) text
        /\ Forall (fun f =>
                     base64_shaped (f_content f)
                     /\ reports_text base64 (9 / 10)
                          (fun e => b64decode (pad_base64 e)) f) fs.
Proof.
  intros F U SM text. unfold detect_base64.
  destruct patterns_match_prefix as (Hp & _ & _).
  destruct (finditer_in_sequence text Hp) as [Hseq Hall].
  destruct (@for_each_in_sequence
              (fun m => exists s, pattern_base64 s = Some m)
              (fun f => base64_shaped (f_content f)
                        /\ reports_text base64 (9 / 10)
                             (fun e => b64decode (pad_base64 e)) f)
              base64_candidate) with (cands := finditer pattern_base64 text)
      (text := text) (findings := @nil finding)
    as (new & Hnew & Hs & Hg); [| exact Hseq | exact Hall |].
  - intros findings encoded (s & Hm). unfold base64_candidate.
    destruct (_ <? _)%nat; [exists findings; auto |].
    destruct (candidate_reports SM base64 (9 / 10)
                (Some (base64_binary, (7 / 10)%R))
                (fun e => b64decode (pad_base64 e)) findings encoded)
      as (fs & Hfs & Hcase).
    exists fs. split; [exact Hfs |].
    destruct Hcase as [-> | (f & -> & Hc & Hf)]; [now left | right].
    exists f. repeat split; auto.
    rewrite Hc. apply (pattern_base64_match _ Hm).
  - exists new. simpl in Hnew. auto.
Qed.

Lemma detect_base64_findings_witness :
  exists fs,
    @detect_base64 exact_ops ascii_tables (b64encode sample_text) = Ok fs
    /\ in_sequence (map f_content fs) (b64encode sample_text)
    /\ Forall (fun f =>
                 base64_shaped (f_content f)
                 /\ @reports_text exact_ops ascii_tables base64 (9 / 10)
                      (fun e => b64decode (pad_base64 e)) f) fs.
Proof.
  apply (@detect_base64_findings exact_ops ascii_tables exact_ops_standard
           (b64encode sample_text)).
Defined.

(** X10: under the standard model, the findings of [detect_hex] are runs of
    hexadecimal digits that lie in the text one behind the other, without
    overlap, of an even length of 16 or more, which are the hexadecimal
    form of UTF-8 bytes of a readable text; the finding is the one that
    reports this text, with the confidence 0.85. *)
Theorem detect_hex_findings :
  forall (F : FloatOps) (U : UnicodeTables),
    StandardModel F ->
    forall text : str,
      exists fs,
        detect_hex text = Ok fs
        /\ in_sequence (map f_content fs) text
        /\ Forall (fun f =>
                     (forallb is_hex_char (f_content f) = true
                      /\ (min_length <= length (f_content f))%nat
                      /\ Nat.even (length (f_content f)) = true)
                     /\ reports_text hexadecimal (85 / 100) fromhex f) fs.
Proof.
  intros F U SM text. unfold detect_hex.
  destruct patterns_match_prefix as (_ & Hp & _).
  destruct (finditer_in_sequence text Hp) as [Hseq Hall].
  destruct (@for_each_in_sequence
              (fun m => exists s, pattern_hex s = Some m)
              (fun f =>
                 (forallb is_hex_char (f_content f) = true
                  /\ (min_length <= length (f_content f))%nat
                  /\ Nat.even (length (f_content f)) = true)
                 /\ reports_text hexadecimal (85 / 100) fromhex f)
              hex_candidate) with (cands := finditer pattern_hex text)
      (text := text) (findings := @nil finding)
    as (new & Hnew & Hs & Hg); [| exact Hseq | exact Hall |].
  - intros findings encoded (s & Hm). unfold hex_candidate.
    destruct (Nat.eqb_spec (length encoded mod 2) 0) as [Heven | _];
      cbn [negb]; [| exists findings; auto].
    destruct (candidate_reports SM hexadecimal (85 / 100)
                (Some (hex_binary, (6 / 10)%R)) fromhex findings encoded)
      as (fs & Hfs & Hcase).
    exists fs. split; [exact Hfs |].
    destruct Hcase as [-> | (f & -> & Hc & Hf)]; [now left | right].
    exists f. repeat split; auto; rewrite Hc.
    + apply (pattern_hex_match _ Hm).
    + apply (pattern_hex_match _ Hm).
    + apply Nat.even_spec. exists (length encoded / 2)%nat.
      pose proof (Nat.div_mod_eq (length encoded) 2). lia.
  - exists new. simpl in Hnew. auto.
Qed.

Lemma detect_hex_findings_witness :
  exists fs,
    @detect_hex exact_ops ascii_tables (hexlify sample_text) = Ok fs
    /\ in_sequence (map f_content fs) (hexlify sample_text)
    /\ Forall (fun f =>
                 (forallb is_hex_char (f_content f) = true
                  /\ (min_length <= length (f_content f))%nat
                  /\ Nat.even (length (f_content f)) = true)
                 /\ @reports_text exact_ops ascii_tables hexadecimal
                      (85 / 100) fromhex f) fs.
Proof.
  apply (@detect_hex_findings exact_ops ascii_tables exact_ops_standard
           (hexlify sample_text)).
Defined.

(** X11: under the standard model, the findings of [detect_url_encoding] are
    runs of three or more percent-encoded bytes that lie in the text one
    behind the other, without overlap, whose bytes are the UTF-8 encoding
    of a readable text; the finding is the one that reports this text, with
    the confidence 0.8. *)
Theorem detect_url_encoding_findings :
  forall (F : FloatOps) (U : UnicodeTables),
    StandardModel F ->
    forall text : str,
      exists fs,
        detect_url_encoding text = Ok fs
        /\ in_sequence (map f_content fs) text
        /\ Forall (fun f =>
                     (percent_groups (f_content f) = f_content f
                      /\ (9 <= length (f_content f))%nat)
                     /\ reports_text url_encoding (8 / 10)
                          (fun e => fromhex (remove_percent e)) f) fs.
Proof.
  intros F U SM text. unfold detect_url_encoding.
  destruct patterns_match_prefix as (_ & _ & Hp).
  destruct (finditer_in_sequence text Hp) as [Hseq Hall].
  destruct (@for_each_in_sequence
              (fun m => exists s, pattern_url s = Some m)
              (fun f =>
                 (percent_groups (f_content f) = f_content f
                  /\ (9 <= length (f_content f))%nat)
                 /\ reports_text url_encoding (8 / 10)
                      (fun e => fromhex (remove_percent e)) f)
              url_candidate) with (cands := finditer pattern_url text)
      (text := text) (findings := @nil finding)
    as (new & Hnew & Hs & Hg); [| exact Hseq | exact Hall |].
  - intros findings encoded (s & Hm). unfold url_candidate.
    destruct (candidate_reports SM url_encoding (8 / 10) None
                (fun e => fromhex (remove_percent e)) findings encoded)
      as (fs & Hfs & Hcase).
    exists fs. split; [exact Hfs |].
    destruct Hcase as [-> | (f & -> & Hc & Hf)]; [now left | right].
    exists f. repeat split; auto; rewrite Hc.
    + unfold pattern_url in Hm.
      destruct (9 <=? _)%nat; [| discriminate]. injection Hm as <-.
      apply percent_groups_idem.
    + apply (pattern_url_match _ Hm).
  - exists new. simpl in Hnew. auto.
Qed.

(** ** Percent-encoded text *)

Lemma percent_byte_facts : forall upper b, (b < 256)%N ->
  let h := hex_digit upper (N.shiftr b 4) in
  let l := hex_digit upper (N.land b 15) in
  is_hex_char h = true /\ is_hex_char l = true
  /\ (h =? 37)%N = false /\ (l =? 37)%N = false
  /\ forall rest : str,
       fromhex (h :: l :: rest) = (r <- fromhex rest ;; Ok (b :: r)).
Proof.
  intros upper b Hb. cbn zeta.
  assert (H : percent_byte_check upper b = true).
  { apply (@forall_below_spec 256 (percent_byte_check upper));
      [destruct upper; vm_compute; reflexivity | exact Hb]. }
  unfold percent_byte_check in H. cbn zeta in H.
  rewrite !andb_true_iff in H.
  destruct H as (((((Hs & Hh) & Hl) & Hph) & Hpl) & Hv).
  apply negb_true_iff in Hs, Hph, Hpl.
  repeat (split; [assumption |]).
  intros rest. cbn [fromhex]. rewrite Hs.
  destruct (hex_digit_value (hex_digit upper (N.shiftr b 4))) as [top |];
    [| discriminate].
  destruct (hex_digit_value (hex_digit upper (N.land b 15))) as [bot |];
    [| discriminate].
  apply N.eqb_eq in Hv. now rewrite Hv.
Qed.

Lemma percent_encode_facts : forall upper (bs : bytes),
  Forall (fun b => (b < 256)%N) bs ->
  percent_groups (percent_encode upper bs) = percent_encode upper bs
  /\ fromhex (remove_percent (percent_encode upper bs)) = Ok bs
  /\ length (percent_encode upper bs) = (3 * length bs)%nat.
Proof.
  intros upper. induction bs as [|b bs IH]; intros Hall.
  - repeat split.
  - inversion Hall as [|? ? Hb Hall']; subst.
    destruct (IH Hall') as (Hg & Hd & Hl).
    destruct (@percent_byte_facts upper b Hb) as (Hh & Hlo & Hph & Hpl & Hf).
    unfold percent_encode in *.
    cbn [flat_map percent_byte app percent_groups remove_percent filter
         length].
    rewrite Hh, Hlo, N.eqb_refl, Hph, Hpl. cbn [negb andb].
    fold (remove_percent (flat_map (percent_byte upper) bs)).
    rewrite Hg, Hf, Hd, Hl. repeat split. lia.
Qed.

(** The text a percent-encoded readable string is found as. *)
Lemma detect_url_of_encoding : forall (F : FloatOps) (U : UnicodeTables)
    (upper : bool) (s : str) (bs : bytes),
  utf8_encode s = Ok bs ->
  is_readable_text s = Ok true ->
  (3 <= length bs)%nat ->
  detect_url_encoding (percent_encode upper bs)
  = Ok [text_finding url_encoding (percent_encode upper bs) s (8 / 10)].
Proof.
  intros F U upper s bs Henc Hread Hlen.
  destruct (utf8_round_trip s Henc) as [Hall Hdec].
  destruct (percent_encode_facts upper Hall) as (Hg & Hfrom & Hl).
  assert (Hne : percent_encode upper bs <> []).
  { intros E. rewrite E in Hl. simpl in Hl. lia. }
  assert (Hm : pattern_url (percent_encode upper bs)
               = Some (percent_encode upper bs)).
  { unfold pattern_url. rewrite Hg.
    replace (9 <=? length (percent_encode upper bs))%nat with true
      by (symmetry; apply Nat.leb_le; lia).
    reflexivity. }
  unfold detect_url_encoding. rewrite (finditer_whole _ Hne Hm).
  cbn [for_each]. unfold url_candidate. rewrite Hfrom. cbn [bind].
  rewrite (classify_decoded_text _ _ _ _ _ _ Hdec Hread). reflexivity.
Qed.

(** X12: percent-encoded readable text of at least three bytes is found by
    [detect_url_encoding] as one finding that carries the text. *)
Theorem url_encoded_text_round_trip :
  forall (F : FloatOps) (U : UnicodeTables) (upper : bool) (s : str)
         (bs : bytes),
    utf8_encode s = Ok bs ->
    is_readable_text s = Ok true ->
    (3 <= length bs)%nat ->
    exists f,
      detect_url_encoding (percent_encode upper bs) = Ok [f]
      /\ f_type f = url_encoding
      /\ f_content f = percent_encode upper bs
      /\ f_sample_decoded f
         = Some (if (length s <=? 50)%nat then s
                 else firstn 50 s ++ ellipsis)
      /\ f_confidence f = (8 / 10)%R.
Proof.
  intros F U upper s bs Henc Hread Hlen. rewrite <- sample50_cases.
  eexists. split; [apply (@detect_url_of_encoding F U upper s bs Henc Hread Hlen) |].
  repeat split.
Qed.

Lemma url_encoded_text_round_trip_witness :
  exists f,
    @detect_url_encoding exact_ops ascii_tables
      (percent_encode true sample_text) = Ok [f]
    /\ f_type f = url_encoding
    /\ f_content f = percent_encode true sample_text
    /\ f_sample_decoded f = Some sample_text
    /\ f_confidence f = (8 / 10)%R.
Proof.
  apply (@url_encoded_text_round_trip exact_ops ascii_tables true sample_text
           sample_text eq_refl
           (@readable_when_all_printable ascii_tables sample_text
              eq_refl eq_refl eq_refl)).
  vm_compute. lia.
Defined.

(** ** Padding a Base64 candidate *)

Lemma base64_char_facts : forall c,
  is_base64_char c = true ->
  (c =? 61)%N = false
  /\ (exists v, table_a2b_base64 c = Some v)
  /\ (c <? 128)%N = true.
Proof.
  intros c H. unfold is_base64_char, in_range in H.
  rewrite !orb_true_iff, !andb_true_iff, !N.leb_le, !N.eqb_eq in H.
  split; [apply N.eqb_neq; lia |]. split; [| apply N.ltb_lt; lia].
  unfold table_a2b_base64, in_range.
  repeat match goal with
  | |- context [if ?b then _ else _] => destruct b eqn:?
  end; eauto.
  exfalso.
  repeat match goal with
  | E : (_ && _) = false |- _ => apply andb_false_iff in E
  | E : (_ <=? _)%N = false |- _ => apply N.leb_gt in E
  | E : (_ =? _)%N = false |- _ => apply N.eqb_neq in E
  end.
  repeat match goal with
  | E : _ \/ _ |- _ => rewrite !N.leb_gt in E
  end.
  lia.
Qed.

(** Four characters of the alphabet give three bytes and leave the decoder
    where it was. *)
Lemma a2b_quad : forall a b c d,
  forallb is_base64_char [a; b; c; d] = true ->
  forall lc p out, exists d3,
    length d3 = 3%nat
    /\ forall rest,
         a2b_base64_loop (a :: b :: c :: d :: rest) 0 lc p out
         = a2b_base64_loop rest 0 0 0 (out ++ d3).
Proof.
  intros a b c d H lc p out. cbn [forallb] in H.
  rewrite !andb_true_iff in H. destruct H as (Ha & Hb & Hc & Hd & _).
  destruct (base64_char_facts _ Ha) as (Ea & (va & Va) & _).
  destruct (base64_char_facts _ Hb) as (Eb & (vb & Vb) & _).
  destruct (base64_char_facts _ Hc) as (Ec & (vc & Vc) & _).
  destruct (base64_char_facts _ Hd) as (Ed & (vd & Vd) & _).
  eexists. split; [| intros rest; cbn [a2b_base64_loop];
                     rewrite Ea, Va, Eb, Vb, Ec, Vc, Ed, Vd; cbn;
                     rewrite <- !app_assoc; cbn [app]; reflexivity].
  reflexivity.
Qed.

Lemma pad_base64_quad : forall a b c d (rest : str),
  pad_base64 (a :: b :: c :: d :: rest) = a :: b :: c :: d :: pad_base64 rest.
Proof.
  intros a b c d rest. unfold pad_base64.
  assert (E : (length (a :: b :: c :: d :: rest) mod 4
               = length rest mod 4)%nat).
  { cbn [length]. replace (S (S (S (S (length rest)))))
      with (length rest + 1 * 4)%nat by lia.
    apply Nat.Div0.mod_add. }
  rewrite E. reflexivity.
Qed.

Lemma a2b_base64_padded : forall encoded : str,
  forallb is_base64_char encoded = true ->
  forall lc p out,
    (length encoded mod 4 = 1%nat ->
     a2b_base64_loop (pad_base64 encoded) 0 lc p out = Raise BinasciiError)
    /\ (length encoded mod 4 <> 1%nat ->
        exists decoded,
          a2b_base64_loop (pad_base64 encoded) 0 lc p out
          = Ok (out ++ decoded)
          /\ length decoded = (length encoded * 3 / 4)%nat).
Proof.
  intros encoded. remember (length encoded) as n eqn:Hn. revert encoded Hn.
  induction n as [n IH] using lt_wf_ind. intros encoded Hn Hall lc p out.
  destruct encoded as [|a [|b [|c [|d rest]]]].
  - subst n. split; [simpl; lia | intros _].
    exists []. simpl. now rewrite app_nil_r.
  - subst n. cbn [forallb] in Hall. rewrite !andb_true_iff in Hall.
    destruct Hall as (Ha & _).
    destruct (base64_char_facts _ Ha) as (Ea & (va & Va) & _).
    split; [intros _ | simpl; lia].
    unfold pad_base64. cbn. rewrite Ea, Va. reflexivity.
  - subst n. cbn [forallb] in Hall. rewrite !andb_true_iff in Hall.
    destruct Hall as (Ha & Hb & _).
    destruct (base64_char_facts _ Ha) as (Ea & (va & Va) & _).
    destruct (base64_char_facts _ Hb) as (Eb & (vb & Vb) & _).
    split; [simpl; lia | intros _].
    unfold pad_base64. cbn. rewrite Ea, Va, Eb, Vb. cbn.
    eexists. split; reflexivity.
  - subst n. cbn [forallb] in Hall. rewrite !andb_true_iff in Hall.
    destruct Hall as (Ha & Hb & Hc & _).
    destruct (base64_char_facts _ Ha) as (Ea & (va & Va) & _).
    destruct (base64_char_facts _ Hb) as (Eb & (vb & Vb) & _).
    destruct (base64_char_facts _ Hc) as (Ec & (vc & Vc) & _).
    split; [simpl; lia | intros _].
    unfold pad_base64. cbn. rewrite Ea, Va, Eb, Vb, Ec, Vc. cbn.
    rewrite <- app_assoc. eexists. split; reflexivity.
  - assert (Hq : forallb is_base64_char [a; b; c; d] = true
                 /\ forallb is_base64_char rest = true).
    { cbn [forallb] in *. rewrite !andb_true_iff in *. tauto. }
    destruct Hq as [Hq Hrest].
    destruct (a2b_quad _ _ _ _ Hq lc p out) as (d3 & Hd3 & Hstep).
    rewrite pad_base64_quad, Hstep.
    assert (Hmod : (n mod 4 = length rest mod 4)%nat).
    { subst n. cbn [length]. replace (S (S (S (S (length rest)))))
        with (length rest + 1 * 4)%nat by lia.
      apply Nat.Div0.mod_add. }
    assert (Hdiv : (n * 3 / 4 = 3 + length rest * 3 / 4)%nat).
    { subst n. cbn [length].
      replace (S (S (S (S (length rest))) ) * 3)%nat
        with (length rest * 3 + 3 * 4)%nat by lia.
      rewrite Nat.div_add by lia. lia. }
    destruct (IH (length rest) ltac:(subst n; simpl; lia) rest eq_refl Hrest
                0%N 0%N (out ++ d3)) as [Hbad Hgood].
    rewrite Hmod, Hdiv. split; [exact Hbad |].
    intros Hne. destruct (Hgood Hne) as (decoded & -> & Hlen).
    exists (d3 ++ decoded). rewrite app_assoc. split; [reflexivity |].
    rewrite length_app. lia.
Qed.

Lemma pad_base64_ascii : forall encoded : str,
  forallb is_base64_char encoded = true ->
  forallb (fun c => (c <? 128)%N) (pad_base64 encoded) = true.
Proof.
  intros encoded H. unfold pad_base64. rewrite forallb_app.
  apply andb_true_iff. split.
  - rewrite forallb_forall in *. intros c Hc.
    apply (base64_char_facts _ (H c Hc)).
  - apply forallb_forall. intros c Hc. apply repeat_spec in Hc. now subst c.
Qed.

(** X13: a run of characters of the Base64 alphabet decodes, once padded, to
    [3 n / 4] bytes, unless its length is 1 modulo 4: then the decoder
    raises and the candidate is dropped. *)
Theorem base64_candidate_padding :
  forall (F : FloatOps) (U : UnicodeTables) (encoded : str),
    forallb is_base64_char encoded = true ->
    (length encoded mod 4 = 1%nat ->
     b64decode (pad_base64 encoded) = Raise BinasciiError
     /\ forall findings, base64_candidate findings encoded = Ok findings)
    /\ (length encoded mod 4 <> 1%nat ->
        exists decoded,
          b64decode (pad_base64 encoded) = Ok decoded
          /\ length decoded = (length encoded * 3 / 4)%nat).
Proof.
  intros F U encoded Hall.
  destruct (a2b_base64_padded _ Hall 0%N 0%N []) as [Hbad Hgood].
  unfold b64decode, a2b_base64. rewrite (pad_base64_ascii _ Hall). split.
  - intros Hmod. split; [now apply Hbad |].
    intros findings. unfold base64_candidate.
    destruct (_ <? _)%nat; [reflexivity |].
    unfold b64decode, a2b_base64. rewrite (pad_base64_ascii _ Hall).
    rewrite (Hbad Hmod). reflexivity.
  - intros Hmod. destruct (Hgood Hmod) as (decoded & -> & Hlen).
    now exists decoded.
Qed.

Lemma base64_candidate_padding_witness :
  (length (repeat 65%N 17) mod 4 = 1%nat ->
   b64decode (pad_base64 (repeat 65%N 17)) = Raise BinasciiError
   /\ forall findings,
        @base64_candidate exact_ops ascii_tables findings (repeat 65%N 17)
        = Ok findings)
  /\ (length (repeat 65%N 17) mod 4 <> 1%nat ->
      exists decoded,
        b64decode (pad_base64 (repeat 65%N 17)) = Ok decoded
        /\ length decoded = (length (repeat 65%N 17) * 3 / 4)%nat).
Proof.
  apply (@base64_candidate_padding exact_ops ascii_tables (repeat 65%N 17)).
  reflexivity.
Defined.

(** ** More on the aggregator *)

Section Stable_sorting.

Variable A : Type.
Variable key : A -> Z.

Let ahead (y x : A) : bool := (key y <? key x)%Z.
Let key_le (x y : A) : Prop := (key x <= key y)%Z.

(** Elements with the same key keep their order. *)
Lemma insert_by_filter : forall (n : Z) x l,
  filter (fun y => (key y =? n)%Z) (insert_by ahead x l)
  = filter (fun y => (key y =? n)%Z) (x :: l).
Proof.
  intros n x l. induction l as [|y l IH]; [reflexivity |].
  cbn [insert_by]. unfold ahead at 1.
  destruct (key y <? key x)%Z eqn:Hyx; [| reflexivity].
  apply Z.ltb_lt in Hyx. cbn [filter] in *. rewrite IH.
  destruct (key x =? n)%Z eqn:Hx; [| reflexivity].
  apply Z.eqb_eq in Hx.
  replace (key y =? n)%Z with false by (symmetry; apply Z.eqb_neq; lia).
  reflexivity.
Qed.

Lemma sort_by_filter : forall (n : Z) l,
  filter (fun y => (key y =? n)%Z) (sort_by ahead l)
  = filter (fun y => (key y =? n)%Z) l.
Proof.
  intros n. induction l as [|x l IH]; [reflexivity |].
  cbn [sort_by fold_right]. fold (sort_by ahead l).
  rewrite insert_by_filter. cbn [filter]. now rewrite IH.
Qed.

(** A list in ascending order is left as it is. *)
Lemma sort_by_sorted_id : forall l,
  StronglySorted key_le l -> sort_by ahead l = l.
Proof.
  induction l as [|x l IH]; intros Hs; [reflexivity |].
  inversion Hs as [|? ? Hs' Hall]; subst.
  cbn [sort_by fold_right]. fold (sort_by ahead l). rewrite (IH Hs').
  destruct l as [|y l]; [reflexivity |].
  inversion Hall as [|? ? Hxy _]; subst. unfold key_le in Hxy.
  cbn [insert_by]. unfold ahead.
  replace (key y <? key x)%Z with false by (symmetry; apply Z.ltb_ge; lia).
  reflexivity.
Qed.

End Stable_sorting.

Lemma set_update_spec : forall (l s : list str),
  NoDup s ->
  NoDup (set_update s l)
  /\ forall r, In r (set_update s l) <-> In r s \/ In r l.
Proof.
  unfold set_update. induction l as [|x l IH]; intros s Hs; simpl.
  - split; [exact Hs | intros r; tauto].
  - destruct (IH (set_add str_eq_dec x s) (set_add_nodup str_eq_dec x Hs))
      as [Hnd Hin].
    split; [exact Hnd |]. intros r. rewrite Hin, set_add_iff.
    intuition (subst; auto).
Qed.

Lemma fold_set_update_spec : forall (ls : list (list str)) (s : list str),
  NoDup s ->
  NoDup (fold_left set_update ls s)
  /\ forall r, In r (fold_left set_update ls s)
               <-> In r s \/ exists l, In l ls /\ In r l.
Proof.
  induction ls as [|l ls IH]; intros s Hs; simpl.
  - split; [exact Hs |]. intros r. split; [auto |].
    intros [H | (l & [] & _)]. exact H.
  - destruct (set_update_spec l Hs) as [Hnd Hin].
    destruct (IH _ Hnd) as [Hnd' Hin'].
    split; [exact Hnd' |]. intros r. rewrite Hin', Hin. split.
    + intros [[H | H] | (l' & Hl' & H)]; eauto.
    + intros [H | (l' & [<- | Hl'] & H)]; eauto.
Qed.

Lemma fold_max_spec : forall (l : list Z) (m : Z),
  let m' := fold_left Z.max l m in
  (m <= m')%Z
  /\ Forall (fun x => (x <= m')%Z) l
  /\ (m' = m \/ In m' l).
Proof.
  induction l as [|x l IH]; intros m; cbn zeta; simpl.
  - repeat split; [lia | constructor | now left].
  - destruct (IH (Z.max m x)) as (H1 & H2 & H3). cbn zeta in *.
    split; [lia |]. split; [constructor; [lia | exact H2] |].
    destruct H3 as [H3 | H3]; [| now right; right].
    destruct (Z.max_spec m x) as [[_ E] | [_ E]]; rewrite E in *.
    + right. left. now symmetry.
    + now left.
Qed.

Lemma fold_py_max_spec : forall (l : list R) (m : R),
  let m' := fold_left py_max l m in
  (m <= m')%R
  /\ Forall (fun x => (x <= m')%R) l
  /\ (m' = m \/ In m' l).
Proof.
  induction l as [|x l IH]; intros m; cbn zeta; simpl.
  - repeat split; [lra | constructor | now left].
  - destruct (IH (py_max m x)) as (H1 & H2 & H3). cbn zeta in *.
    assert (Hmax : (m <= py_max m x /\ x <= py_max m x)%R
                   /\ (py_max m x = m \/ py_max m x = x)).
    { unfold py_max, Rgtb, Rltb. destruct (Rlt_dec m x); split; auto; lra. }
    destruct Hmax as [[Hm Hx] Hcase].
    split; [lra |]. split; [constructor; [lra | exact H2] |].
    destruct H3 as [H3 | H3]; [| now right; right].
    destruct Hcase as [E | E]; rewrite E in *.
    + now left.
    + right. left. now symmetry.
Qed.

Section Aggregator_more.

Context {F : FloatOps}.
Variable payload : Type.

Lemma page_loop_rest :
  forall (ps : list (page payload)) (a : accumulator payload),
  let a' := fold_left (@page_step F payload) ps a in
  c_document_metadata (a_combined a') = c_document_metadata (a_combined a)
  /\ all_suspicion_reasons (acc_analysis a')
     = fold_left set_update (map (@get_reasons payload) ps)
         (all_suspicion_reasons (acc_analysis a)).
Proof.
  induction ps as [|p ps IH]; intros a; cbn zeta.
  - split; reflexivity.
  - cbn zeta in IH. simpl fold_left.
    destruct (IH (page_step a p)) as (H1 & H2). rewrite H1, H2.
    split; reflexivity.
Qed.

Lemma result_loop_rest :
  forall (rs : list (chunk_result payload)) (a : accumulator payload),
  let a' := fold_left (@result_step F payload) rs a in
  let m := c_document_metadata (a_combined a) in
  let m' := c_document_metadata (a_combined a') in
  c_total_pages (a_combined a')
  = fold_left Z.max (map (@total_pages payload) rs)
      (c_total_pages (a_combined a))
  /\ all_suspicion_reasons (acc_analysis a')
     = fold_left set_update (map (@get_reasons payload) (all_pages rs))
         (all_suspicion_reasons (acc_analysis a))
  /\ (length m <= length m')%nat
  /\ Forall (fun r => (length (get_metadata r) <= length m')%nat) rs
  /\ (m' = m \/ exists r, In r rs /\ document_metadata r = Some m').
Proof.
  induction rs as [|r rs IH]; intros a; cbn zeta.
  - simpl. repeat split; auto.
  - cbn zeta in IH. simpl fold_left.
    destruct (IH (result_step a r)) as (H1 & H2 & H3 & H4 & H5).
    rewrite H1, H2. clear IH H1 H2.
    set (m' := c_document_metadata
                 (a_combined (fold_left (@result_step F payload) rs
                                (result_step a r)))) in *.
    assert (G : c_total_pages (a_combined (result_step a r))
                = Z.max (c_total_pages (a_combined a)) (total_pages r)
                /\ all_suspicion_reasons (acc_analysis (result_step a r))
                   = fold_left set_update
                       (map (@get_reasons payload) (extracted_content r))
                       (all_suspicion_reasons (acc_analysis a))
                /\ c_document_metadata (a_combined (result_step a r))
                   = if (length (c_document_metadata (a_combined a))
                         <? length (get_metadata r))%nat
                     then get_metadata r
                     else c_document_metadata (a_combined a)).
    { unfold result_step.
      match goal with |- context [fold_left _ (extracted_content r) ?a0] =>
        destruct (page_loop_rest (extracted_content r) a0) as (G1 & G2);
        destruct (page_loop_spec (extracted_content r) a0) as (G0 & _)
      end.
      cbn zeta in *. rewrite G0, G1, G2. repeat split. }
    destruct G as (G0 & G1 & G2). rewrite G0, G1, G2 in *.
    unfold all_pages. simpl. rewrite map_app, fold_left_app.
    split; [reflexivity |]. split; [reflexivity |].
    destruct (Nat.ltb_spec (length (c_document_metadata (a_combined a)))
                (length (get_metadata r))) as [Hlt | Hge].
    + split; [lia |]. split; [constructor; [exact H3 | exact H4] |].
      right. destruct H5 as [H5 | (r' & Hr' & H5)].
      * exists r. split; [now left |]. rewrite H5. unfold get_metadata in *.
        destruct (document_metadata r); [reflexivity |].
        simpl in Hlt. lia.
      * exists r'. split; [now right | exact H5].
    + split; [exact H3 |]. split; [constructor; [lia | exact H4] |].
      destruct H5 as [H5 | (r' & Hr' & H5)]; [now left | right].
      exists r'. split; [now right | exact H5].
Qed.

End Aggregator_more.

(** X14: the combined content holds the pages of all chunk results, each as
    often as it came, in ascending order of the page numbers; pages with the
    same number keep the order they came in, and pages that came in
    ascending order stay as they are. *)
Theorem combine_results_pages :
  forall (F : FloatOps) (payload : Type)
         (results : list (chunk_result payload)),
    let content := c_extracted_content (combine_results results) in
    Permutation (all_pages results) content
    /\ StronglySorted (@page_le payload) content
    /\ (forall n : Z,
          filter (fun p => (page_number p =? n)%Z) content
          = filter (fun p => (page_number p =? n)%Z) (all_pages results))
    /\ (StronglySorted (@page_le payload) (all_pages results) ->
        content = all_pages results).
Proof.
  intros F payload results. cbn zeta.
  unfold combine_results. cbn [c_extracted_content].
  destruct (result_loop_spec results (initial_accumulator payload))
    as (_ & -> & _).
  cbn [initial_accumulator a_combined c_extracted_content app].
  unfold sort_pages. repeat split.
  - apply Permutation_sym, sort_by_perm.
  - apply (@sort_by_sorted _ (@page_number payload)).
  - intros n. apply (@sort_by_filter _ (@page_number payload)).
  - apply (@sort_by_sorted_id _ (@page_number payload)).
Qed.

(** X15: [all_suspicion_reasons] holds each reason once, and a reason is in
    it exactly when a page of a chunk result carries it. *)
Theorem combine_results_reasons :
  forall (F : FloatOps) (payload : Type)
         (results : list (chunk_result payload)),
    let reasons :=
      all_suspicion_reasons (c_document_analysis (combine_results results)) in
    NoDup reasons
    /\ forall r : str,
         In r reasons
         <-> exists p, In p (all_pages results) /\ In r (get_reasons p).
Proof.
  intros F payload results. cbn zeta.
  assert (E : all_suspicion_reasons
                (c_document_analysis (combine_results results))
              = fold_left set_update
                  (map (@get_reasons payload) (all_pages results)) []).
  { unfold combine_results. cbn [c_document_analysis].
    destruct (result_loop_rest results (initial_accumulator payload))
      as (_ & H & _).
    unfold acc_analysis in H. cbn zeta in H.
    unfold final_analysis. destruct (0 <? _)%Z; cbn [all_suspicion_reasons];
      exact H. }
  rewrite E.
  destruct (@fold_set_update_spec
              (map (@get_reasons payload) (all_pages results)) [])
    as [Hnd Hin]; [constructor |].
  split; [exact Hnd |]. intros r. rewrite Hin. split.
  - intros [[] | (l & Hl & Hr)]. apply in_map_iff in Hl.
    destruct Hl as (p & <- & Hp). now exists p.
  - intros (p & Hp & Hr). right. exists (get_reasons p).
    split; [now apply in_map | exact Hr].
Qed.

(** X16: [total_pages] is the largest total that a chunk result reports, and
    0 when there is none or all are negative; [document_metadata] is the
    metadata of a chunk result, no other chunk result has more entries, and
    it is empty when no chunk result has any. *)
Theorem combine_results_totals :
  forall (F : FloatOps) (payload : Type)
         (results : list (chunk_result payload)),
    let c := combine_results results in
    ((0 <= c_total_pages c)%Z
     /\ Forall (fun r => (total_pages r <= c_total_pages c)%Z) results
     /\ (c_total_pages c = 0%Z
         \/ exists r, In r results /\ total_pages r = c_total_pages c))
    /\ (Forall (fun r => (length (get_metadata r)
                          <= length (c_document_metadata c))%nat) results
        /\ (c_document_metadata c = []
            \/ exists r, In r results
                         /\ document_metadata r
                            = Some (c_document_metadata c))).
Proof.
  intros F payload results. cbn zeta.
  unfold combine_results. cbn [c_total_pages c_document_metadata].
  destruct (result_loop_rest results (initial_accumulator payload))
    as (Ht & _ & _ & Hm & Hc).
  cbn zeta in *. rewrite Ht.
  cbn [initial_accumulator a_combined c_total_pages c_document_metadata]
    in *.
  destruct (fold_max_spec (map (@total_pages payload) results) 0)
    as (H0 & Hall & Hcase). cbn zeta in *.
  split; [| split; [exact Hm | exact Hc]].
  split; [exact H0 |]. split.
  - rewrite Forall_map in Hall. exact Hall.
  - destruct Hcase as [E | Hin]; [now left | right].
    apply in_map_iff in Hin. destruct Hin as (r & Hr & Hin). now exists r.
Qed.

(** X17: [max_suspicion_score] is 0.0 or the score of a page, and no page has
    a higher score; a page with a score above 7.0 makes the document
    suspicious when the chunk results report a positive number of
    processed pages. *)
Theorem combine_results_max_score :
  forall (F : FloatOps) (payload : Type)
         (results : list (chunk_result payload)),
    let c := combine_results results in
    let d := c_document_analysis c in
    (0 <= max_suspicion_score d)%R
    /\ Forall (fun p => (get_score p <= max_suspicion_score d)%R)
         (all_pages results)
    /\ (max_suspicion_score d = 0%R
        \/ exists p, In p (all_pages results)
                     /\ get_score p = max_suspicion_score d)
    /\ ((0 < c_processed_pages c)%Z ->
        (exists p, In p (all_pages results) /\ (get_score p > 7)%R) ->
        overall_suspicious d = true).
Proof.
  intros F payload results. cbn zeta.
  unfold combine_results. cbn [c_document_analysis c_processed_pages].
  destruct (result_loop_spec results (initial_accumulator payload))
    as (_ & _ & _ & Hmax & _).
  cbn zeta in Hmax. unfold acc_analysis in Hmax.
  set (a := fold_left (@result_step F payload) results
              (initial_accumulator payload)) in *.
  cbn [initial_accumulator a_combined c_document_analysis
       max_suspicion_score] in Hmax.
  destruct (fold_py_max_spec (map (@get_score payload) (all_pages results))
              0) as (H0 & Hall & Hcase).
  cbn zeta in *. rewrite <- Hmax in H0, Hall, Hcase.
  assert (Hkeep : max_suspicion_score
                    (final_analysis (c_processed_pages (a_combined a))
                       (a_total_suspicion_score a)
                       (c_document_analysis (a_combined a)))
                  = max_suspicion_score (c_document_analysis (a_combined a))).
  { unfold final_analysis. now destruct (0 <? _)%Z. }
  rewrite Hkeep. rewrite Forall_map in Hall.
  split; [exact H0 |]. split; [exact Hall |]. split.
  - destruct Hcase as [E | Hin]; [now left | right].
    apply in_map_iff in Hin. destruct Hin as (p & Hp & Hin). now exists p.
  - intros Hn (p & Hp & Hscore). unfold final_analysis.
    replace (0 <? c_processed_pages (a_combined a))%Z with true
      by (symmetry; now apply Z.ltb_lt).
    cbn [overall_suspicious].
    rewrite Forall_forall in Hall. specialize (Hall p Hp).
    rewrite (@Rgtb_true (max_suspicion_score
                           (c_document_analysis (a_combined a))) 7)
      by lra.
    now rewrite !orb_true_r.
Qed.

Lemma combine_results_pages_witness :
  let content :=
    c_extracted_content
      (@combine_results exact_ops unit [sample_chunk_b; sample_chunk_a]) in
  Permutation (all_pages [sample_chunk_b; sample_chunk_a]) content
  /\ StronglySorted (@page_le unit) content
  /\ (forall n : Z,
        filter (fun p => (page_number p =? n)%Z) content
        = filter (fun p => (page_number p =? n)%Z)
            (all_pages [sample_chunk_b; sample_chunk_a]))
  /\ (StronglySorted (@page_le unit)
        (all_pages [sample_chunk_b; sample_chunk_a]) ->
      content = all_pages [sample_chunk_b; sample_chunk_a]).
Proof.
  apply (@combine_results_pages exact_ops unit
           [sample_chunk_b; sample_chunk_a]).
Defined.

(** * The PDF processor *)

(** ** The tables of a page *)

Section Tables_facts.

Variable isspace : char -> bool.

(** A cell that holds the stripped text of a span of the page. *)
Let cell_of (spans : list span) (c : cell) : Prop :=
  cell_text c <> []
  /\ exists sp, In sp spans /\ cell_text c = strip isspace (span_text sp)
                /\ cell_bbox c = span_bbox sp.

Let rows_of (spans : list span) (rows : rows_dict) : Prop :=
  Forall (fun kv => Forall (cell_of spans) (snd kv)) rows.

Lemma rows_append_spec : forall spans y c rows,
  rows_of spans rows -> cell_of spans c ->
  rows_of spans (rows_append y c rows)
  /\ length (rows_append y c rows) = length rows.
Proof.
  intros spans y c rows Hrows Hc.
  induction Hrows as [|[k cs] rows Hk Hrows' IH]; simpl.
  - split; [constructor | reflexivity].
  - destruct (Reqb k y); simpl.
    + split; [| reflexivity]. constructor; [| assumption].
      simpl in *. apply Forall_app. split; [exact Hk | now constructor].
    + destruct IH as [IH1 IH2]. split; [now constructor | now rewrite IH2].
Qed.

Lemma rows_of_incl : forall spans spans' rows,
  incl spans spans' -> rows_of spans rows -> rows_of spans' rows.
Proof.
  intros spans spans' rows Hincl Hrows.
  eapply Forall_impl; [| exact Hrows]. intros kv Hkv.
  eapply Forall_impl; [| exact Hkv].
  intros c (Hc & sp & Hsp & Ht). split; [exact Hc |].
  exists sp. split; [now apply Hincl | exact Ht].
Qed.

Lemma add_spans_spec : forall y spans sps rows,
  rows_of spans rows -> incl sps spans ->
  rows_of spans (fold_left (add_span isspace y) sps rows)
  /\ length (fold_left (add_span isspace y) sps rows) = length rows.
Proof.
  intros y spans sps. induction sps as [|sp sps IH]; intros rows Hrows Hincl.
  - now split.
  - simpl fold_left.
    assert (Hstep : rows_of spans (add_span isspace y rows sp)
                    /\ length (add_span isspace y rows sp) = length rows).
    { unfold add_span.
      destruct (strip isspace (span_text sp)) as [|c0 t] eqn:Et; simpl.
      - now split.
      - apply rows_append_spec; [exact Hrows |]. split; [discriminate |].
        exists sp. simpl. repeat split; [| now symmetry].
        apply Hincl. now left. }
    destruct Hstep as [H1 H2].
    destruct (IH _ H1) as [H3 H4].
    + intros x Hx. apply Hincl. now right.
    + split; [exact H3 | now rewrite H4].
Qed.

Lemma add_line_spec : forall spans rows ln,
  rows_of spans rows -> incl (line_spans ln) spans ->
  rows_of spans (add_line isspace rows ln)
  /\ (length (add_line isspace rows ln) <= S (length rows))%nat.
Proof.
  intros spans rows ln Hrows Hincl. unfold add_line.
  assert (Hd : rows_of spans
                 (rows_setdefault (round0 (bbox_y0 (line_bbox ln))) rows)
               /\ (length (rows_setdefault
                             (round0 (bbox_y0 (line_bbox ln))) rows)
                   <= S (length rows))%nat).
  { unfold rows_setdefault. destruct (rows_has _ rows).
    - split; [exact Hrows | lia].
    - split; [| rewrite length_app; simpl; lia].
      apply Forall_app. split; [exact Hrows |].
      constructor; [constructor | constructor]. }
  destruct Hd as [H1 H2].
  destruct (@add_spans_spec (round0 (bbox_y0 (line_bbox ln))) spans
              (line_spans ln) _ H1 Hincl)
    as [H3 H4].
  split; [exact H3 | lia].
Qed.

Lemma add_lines_spec : forall spans lns rows,
  rows_of spans rows -> incl (flat_map line_spans lns) spans ->
  rows_of spans (fold_left (add_line isspace) lns rows)
  /\ (length (fold_left (add_line isspace) lns rows)
      <= length rows + length lns)%nat.
Proof.
  intros spans lns. induction lns as [|ln lns IH]; intros rows Hrows Hincl.
  - simpl. split; [exact Hrows | lia].
  - simpl fold_left. simpl in Hincl.
    destruct (@add_line_spec spans rows ln Hrows) as [H1 H2].
    { intros x Hx. apply Hincl, in_or_app. now left. }
    destruct (IH _ H1) as [H3 H4].
    { intros x Hx. apply Hincl, in_or_app. now right. }
    split; [exact H3 | simpl; lia].
Qed.

Lemma add_blocks_spec : forall spans blocks rows,
  rows_of spans rows -> incl (text_spans blocks) spans ->
  rows_of spans (fold_left (add_block isspace) blocks rows)
  /\ (length (fold_left (add_block isspace) blocks rows)
      <= length rows + length (text_lines blocks))%nat.
Proof.
  intros spans blocks. induction blocks as [|b blocks IH];
    intros rows Hrows Hincl.
  - simpl. split; [exact Hrows | lia].
  - simpl fold_left. unfold text_spans, text_lines in *. simpl in Hincl.
    rewrite flat_map_app in Hincl. cbn [flat_map]. rewrite length_app.
    assert (E : add_block isspace rows b
                = if (block_type b =? 0)%Z
                  then fold_left (add_line isspace) (block_lines b) rows
                  else rows) by reflexivity.
    rewrite E. clear E.
    destruct (block_type b =? 0)%Z.
    + destruct (@add_lines_spec spans (block_lines b) rows Hrows)
        as [H1 H2].
      { intros x Hx. apply Hincl, in_or_app. now left. }
      destruct (IH _ H1) as [H3 H4].
      { intros x Hx. apply Hincl, in_or_app. now right. }
      split; [exact H3 | lia].
    + destruct (IH _ Hrows) as [H3 H4].
      { intros x Hx. apply Hincl, in_or_app. now right. }
      split; [exact H3 | simpl; lia].
Qed.

(** The rows of a page: cells of its text spans, and at most one row per
    line. *)
Lemma group_rows_spec : forall blocks,
  rows_of (text_spans blocks) (group_rows isspace blocks)
  /\ (length (group_rows isspace blocks) <= length (text_lines blocks))%nat.
Proof.
  intros blocks. unfold group_rows.
  destruct (@add_blocks_spec (text_spans blocks) blocks [])
    as [H1 H2]; [constructor | apply incl_refl |].
  split; [exact H1 | simpl in H2; lia].
Qed.

(** A table of rows of three cells or more. *)
Let good_row (spans : list span) (cs : list cell) : Prop :=
  (3 <= length cs)%nat /\ Forall (cell_of spans) cs.

Let good_table (spans : list span) (t : table) : Prop :=
  (3 <= length t)%nat
  /\ Forall (fun row =>
               (3 <= length row)%nat
               /\ Forall (fun text =>
                            text <> []
                            /\ exists sp, In sp spans
                                 /\ text = strip isspace (span_text sp))
                    row) t.

Lemma table_data_good : forall spans current_table,
  (3 <= length current_table)%nat ->
  Forall (good_row spans) current_table ->
  good_table spans (table_data current_table).
Proof.
  intros spans ct Hlen Hall. unfold table_data. split.
  - now rewrite length_map.
  - apply Forall_map. eapply Forall_impl; [| exact Hall].
    intros row [Hrow Hcells].
    set (sorted := sort_by _ row).
    assert (Hp : Permutation sorted row) by apply sort_by_perm.
    split.
    + rewrite length_map, (Permutation_length Hp). exact Hrow.
    + apply Forall_map.
      eapply Permutation_Forall in Hcells;
        [| apply Permutation_sym; exact Hp].
      eapply Forall_impl; [| exact Hcells].
      intros c (Hc & sp & Hsp & Ht & _). split; [exact Hc |]. now exists sp.
Qed.

Lemma table_loop_spec : forall spans rows tables current_table,
  rows_of spans rows ->
  Forall (good_table spans) tables ->
  Forall (good_row spans) current_table ->
  let '(tables', current_table') :=
    fold_left table_step rows (tables, current_table) in
  Forall (good_table spans) tables'
  /\ Forall (good_row spans) current_table'
  /\ (table_rows tables' + length current_table'
      <= table_rows tables + length current_table + length rows)%nat.
Proof.
  intros spans rows. induction rows as [|[y cs] rows IH];
    intros tables ct Hrows Ht Hct.
  - simpl. repeat split; [exact Ht | exact Hct | lia].
  - inversion Hrows as [|? ? Hcs Hrows']; subst. simpl in Hcs.
    cbn [fold_left].
    assert (E : table_step (tables, ct) (y, cs)
                = if (length cs <? min_cols)%nat
                  then ((if (3 <=? length ct)%nat
                         then tables ++ [table_data ct] else tables), [])
                  else (tables, ct ++ [cs])) by reflexivity.
    rewrite E. clear E.
    assert (Hrows_app : forall ts t,
              table_rows (ts ++ [t]) = (table_rows ts + length t)%nat).
    { intros ts t. unfold table_rows. induction ts as [|t0 ts IHts]; simpl.
      - lia.
      - rewrite IHts. lia. }
    destruct (Nat.ltb_spec (length cs) min_cols) as [Hshort | Hwide].
    + destruct (Nat.leb_spec 3 (length ct)) as [Hbig | Hsmall].
      * specialize (IH (tables ++ [table_data ct]) (@nil (list cell))
                      Hrows').
        destruct (fold_left table_step rows
                    (tables ++ [table_data ct], [])) as [ts' ct'].
        destruct IH as (H1 & H2 & H3).
        { apply Forall_app. split; [exact Ht |].
          constructor; [now apply table_data_good | constructor]. }
        { constructor. }
        rewrite Hrows_app in H3. unfold table_data in H3.
        rewrite length_map in H3. simpl in *.
        repeat split; [exact H1 | exact H2 | lia].
      * specialize (IH tables (@nil (list cell)) Hrows' Ht).
        destruct (fold_left table_step rows (tables, [])) as [ts' ct'].
        destruct IH as (H1 & H2 & H3); [constructor |].
        simpl in *. repeat split; [exact H1 | exact H2 | lia].
    + specialize (IH tables (ct ++ [cs]) Hrows' Ht).
      destruct (fold_left table_step rows (tables, ct ++ [cs]))
        as [ts' ct'].
      destruct IH as (H1 & H2 & H3).
      { apply Forall_app. split; [exact Hct |].
        constructor; [| constructor]. split; [exact Hwide | exact Hcs]. }
      rewrite length_app in H3. simpl in *.
      repeat split; [exact H1 | exact H2 | lia].
Qed.

(** X18: every table that [extract_tables] returns has at least three rows,
    every row at least three cells, every cell is the stripped text, not
    empty, of a span of a text block of the page; all tables together have
    no more rows than the text blocks have lines. *)
Theorem extract_tables_shape :
  forall blocks : list block,
    let tables := extract_tables isspace blocks in
    Forall (fun t : table =>
              (3 <= length t)%nat
              /\ Forall (fun row =>
                           (3 <= length row)%nat
                           /\ Forall (fun text =>
                                        text <> []
                                        /\ exists sp,
                                             In sp (text_spans blocks)
                                             /\ text
                                                = strip isspace (span_text sp))
                                row) t) tables
    /\ (table_rows tables <= length (text_lines blocks))%nat
    /\ ((length (text_lines blocks) < 3)%nat -> tables = []).
Proof.
  intros blocks. cbn zeta.
  destruct (group_rows_spec blocks) as [Hrows Hlen].
  assert (Hsorted : rows_of (text_spans blocks)
                      (sorted_rows (group_rows isspace blocks))).
  { eapply Permutation_Forall; [| exact Hrows].
    apply Permutation_sym, sort_by_perm. }
  assert (Hslen : length (sorted_rows (group_rows isspace blocks))
                  = length (group_rows isspace blocks)).
  { apply Permutation_length, sort_by_perm. }
  pose proof (@table_loop_spec (text_spans blocks) _ [] [] Hsorted
                (Forall_nil _) (Forall_nil _)) as Hloop.
  unfold extract_tables.
  destruct (fold_left table_step (sorted_rows (group_rows isspace blocks))
              ([], [])) as [ts ct].
  destruct Hloop as (H1 & H2 & H3). simpl in H3.
  assert (Hrows_app : forall ts t,
            table_rows (ts ++ [t]) = (table_rows ts + length t)%nat).
  { intros ts0 t. unfold table_rows. induction ts0 as [|t0 ts0 IHts]; simpl.
    - lia.
    - rewrite IHts. lia. }
  assert (Hall : Forall (good_table (text_spans blocks))
                   (if (3 <=? length ct)%nat
                    then ts ++ [table_data ct] else ts)
                 /\ (table_rows (if (3 <=? length ct)%nat
                                 then ts ++ [table_data ct] else ts)
                     <= length (text_lines blocks))%nat).
  { destruct (Nat.leb_spec 3 (length ct)) as [Hbig | Hsmall].
    - split.
      + apply Forall_app. split; [exact H1 |].
        constructor; [now apply table_data_good | constructor].
      + rewrite Hrows_app. unfold table_data. rewrite length_map. lia.
    - split; [exact H1 | lia]. }
  destruct Hall as [Hgood Hcount].
  split; [exact Hgood |]. split; [exact Hcount |].
  intros Hfew.
  destruct (if (3 <=? length ct)%nat then ts ++ [table_data ct] else ts)
    as [|t rest]; [reflexivity |].
  inversion Hgood as [|? ? [Ht _] _]; subst.
  simpl in Hcount. lia.
Qed.

End Tables_facts.

(** ** The metadata of a document *)

Lemma dict_set_fresh : forall key value d,
  ~ In key (map fst d) -> dict_set key value d = d ++ [(key, value)].
Proof.
  induction d as [|[k v] d IH]; simpl; intros Hnot; [reflexivity |].
  destruct (str_eq_dec k key) as [-> | _]; [tauto |].
  f_equal. apply IH. tauto.
Qed.

Lemma filled_entries_keys : forall items k,
  In k (map fst (filled_entries items)) -> In k (map fst items).
Proof.
  induction items as [|[key [value |]] items IH]; simpl; intros k Hk.
  - exact Hk.
  - destruct (negb (is_empty key) && negb (is_empty value)); simpl in Hk.
    + destruct Hk as [<- | Hk]; [now left | right; now apply IH].
    + right; now apply IH.
  - right; now apply IH.
Qed.

Section Metadata.

Variable pdf_page : Type.

Lemma metadata_loop : forall (items : list (str * option str)) metadata,
  NoDup (map fst metadata ++ map fst items) ->
  fold_left
    (fun metadata kv =>
       match kv with
       | (key, Some value) =>
           if negb (is_empty key) && negb (is_empty value)
           then dict_set key value metadata else metadata
       | (_, None) => metadata
       end) items metadata
  = metadata ++ filled_entries items.
Proof.
  induction items as [|[key [value |]] items IH]; intros metadata Hnd.
  - simpl. now rewrite app_nil_r.
  - cbn [fold_left filled_entries flat_map]. simpl in Hnd.
    pose proof (NoDup_remove_1 _ _ _ Hnd) as Hnd1.
    pose proof (NoDup_remove_2 _ _ _ Hnd) as Hnd2.
    destruct (negb (is_empty key) && negb (is_empty value)).
    + rewrite dict_set_fresh
        by (intros Hin; apply Hnd2, in_or_app; now left).
      rewrite IH; [now rewrite <- app_assoc |].
      rewrite map_app. simpl. rewrite <- app_assoc. exact Hnd.
    + rewrite IH by exact Hnd1. reflexivity.
  - cbn [fold_left filled_entries flat_map]. simpl in Hnd.
    rewrite IH by exact (NoDup_remove_1 _ _ _ Hnd). reflexivity.
Qed.

(** X19: of the metadata of a document, a dictionary, the entries that have a
    key and a value, neither empty, are kept, in their order and as they
    are. *)
Theorem extract_document_metadata_filled :
  forall doc : document pdf_page,
    NoDup (map fst (doc_metadata doc)) ->
    extract_document_metadata doc = filled_entries (doc_metadata doc)
    /\ Forall (fun kv => fst kv <> [] /\ snd kv <> []
                         /\ In (fst kv, Some (snd kv)) (doc_metadata doc))
         (extract_document_metadata doc)
    /\ NoDup (map fst (extract_document_metadata doc)).
Proof.
  intros doc Hnd. unfold extract_document_metadata.
  rewrite metadata_loop by exact Hnd. cbn [app].
  split; [reflexivity |]. split.
  - clear Hnd. induction (doc_metadata doc) as [|[key [value |]] items IH];
      cbn [filled_entries flat_map].
    + constructor.
    + assert (Hrest : Forall
                (fun kv => fst kv <> [] /\ snd kv <> []
                           /\ In (fst kv, Some (snd kv))
                                ((key, Some value) :: items))
                (filled_entries items)).
      { eapply Forall_impl; [| exact IH].
        intros kv (H1 & H2 & H3). repeat split; auto. now right. }
      destruct key as [|c key]; [exact Hrest |].
      destruct value as [|c' value]; [exact Hrest |].
      cbn [is_empty negb andb app]. constructor; [| exact Hrest].
      simpl. repeat split; try discriminate. now left.
    + eapply Forall_impl; [| exact IH].
      intros kv (H1 & H2 & H3). repeat split; auto. now right.
  - induction (doc_metadata doc) as [|[key [value |]] items IH];
      cbn [filled_entries flat_map].
    + constructor.
    + simpl in Hnd. inversion Hnd as [|? ? Hnot Hnd']; subst.
      destruct (negb (is_empty key) && negb (is_empty value)).
      * cbn [app map fst]. constructor; [| now apply IH].
        intros Hin. apply Hnot. now apply filled_entries_keys.
      * now apply IH.
    + simpl in Hnd. inversion Hnd; subst. now apply IH.
Qed.

End Metadata.


(** ** The pages of a chunk *)

Lemma z_seq_cons : forall a n, z_seq a (S n) = a :: z_seq (a + 1) n.
Proof.
  intros a n. unfold z_seq. cbn [seq map]. f_equal; [lia |].
  rewrite <- seq_shift, map_map. apply map_ext. intros k. lia.
Qed.

Lemma z_seq_length : forall a n, length (z_seq a n) = n.
Proof. intros a n. unfold z_seq. now rewrite length_map, length_seq. Qed.

Lemma z_seq_app : forall a n m,
  z_seq a (n + m) = z_seq a n ++ z_seq (a + Z.of_nat n) m.
Proof.
  intros a n. revert a. induction n as [|n IH]; intros a m.
  - replace (a + Z.of_nat 0)%Z with a by lia. reflexivity.
  - cbn [Nat.add]. rewrite !z_seq_cons, IH. cbn [app].
    replace (a + 1 + Z.of_nat n)%Z with (a + Z.of_nat (S n))%Z by lia.
    reflexivity.
Qed.

(** [range(a, b)] *)
Lemma py_range_step_1 : forall a b,
  py_range a b 1 = Ok (z_seq a (Z.to_nat (b - a))).
Proof.
  intros a b. unfold py_range, range_length, z_seq. cbn [Z.eqb Z.ltb Z.compare].
  f_equal.
  assert (E : Z.to_nat (if (a <? b)%Z then (b - a - 1) / 1 + 1 else 0)
              = Z.to_nat (b - a)).
  { destruct (Z.ltb_spec a b); [rewrite Z.div_1_r; lia | lia]. }
  rewrite E. apply map_ext. intros k. lia.
Qed.

Section Chunk_facts.

Context {F : FloatOps} {U : UnicodeTables}.
Hypothesis SM : StandardModel F.

Variable isspace : char -> bool.
Variable pdf_page : Type.
Variable get_text : pdf_page -> str.
Variable get_blocks : pdf_page -> list block.
Variable rotation : pdf_page -> Z.
Variable open_document : bytes -> result (document pdf_page).
Variable visual_elements : Type.
Variable extract_visual_elements : pdf_page -> str -> result visual_elements.
Variable reason_text : suspicion_reason -> str.
Variable rotated_flag : Z -> str.

Let process_page_of :=
  process_page isspace get_text get_blocks rotation extract_visual_elements
    reason_text rotated_flag.

Let process_pdf_chunk_of :=
  process_pdf_chunk isspace get_text get_blocks rotation open_document
    extract_visual_elements reason_text rotated_flag.

Let page_of :=
  @page_of_document F U isspace pdf_page get_text get_blocks rotation
    visual_elements reason_text.

Lemma process_pages_spec : forall doc : document pdf_page,
  visuals_extractable get_text extract_visual_elements doc ->
  forall (n a : nat) results,
    (n <> 0%nat -> (a + n <= length (doc_pages doc))%nat) ->
    exists new,
      for_each (z_seq (Z.of_nat a) n) (process_page_of doc) results
      = Ok (results ++ new)
      /\ map (@page_number _) new = z_seq (Z.of_nat a) n
      /\ Forall (page_of doc) new.
Proof.
  intros doc Hvis. induction n as [|n IH]; intros a results Hlen.
  - exists []. simpl. rewrite app_nil_r. repeat split. constructor.
  - specialize (Hlen (Nat.neq_succ_0 n)).
    rewrite z_seq_cons. cbn [for_each].
    destruct (nth_error (doc_pages doc) a) as [pg |] eqn:Hpg.
    2:{ apply nth_error_None in Hpg. lia. }
    destruct (Hvis pg (nth_error_In _ _ Hpg)) as (v & Hv).
    destruct (detect_encodings_findings SM (get_text pg)) as (d & Hd & _).
    assert (Hstep : process_page_of doc results (Z.of_nat a)
                    = Ok (results ++
                          [{| page_number := Z.of_nat a;
                              page_suspicious := Some (suspicious d);
                              page_suspicion_score := Some (suspicion_score d);
                              page_suspicion_reasons :=
                                Some (map reason_text (suspicion_reasons d));
                              page_payload :=
                                {| pc_text := get_text pg;
                                   pc_tables :=
                                     extract_tables isspace (get_blocks pg);
                                   pc_visual_elements := v;
                                   pc_encoded_sections := findings d;
                                   pc_formatting_flags :=
                                     if negb (rotation pg =? 0)%Z
                                     then [rotated_flag (rotation pg)]
                                     else [];
                                   pc_rotation := rotation pg |} |}])).
    { unfold process_page_of, process_page.
      replace (Z.of_nat a <? Z.of_nat (length (doc_pages doc)))%Z with true
        by (symmetry; apply Z.ltb_lt; lia).
      rewrite Nat2Z.id, Hpg, Hv. cbn [bind]. rewrite Hd. reflexivity. }
    rewrite Hstep. cbn [bind].
    replace (Z.of_nat a + 1)%Z with (Z.of_nat (S a)) by lia.
    destruct (IH (S a) (results ++
                 [{| page_number := Z.of_nat a;
                     page_suspicious := Some (suspicious d);
                     page_suspicion_score := Some (suspicion_score d);
                     page_suspicion_reasons :=
                       Some (map reason_text (suspicion_reasons d));
                     page_payload :=
                       {| pc_text := get_text pg;
                          pc_tables := extract_tables isspace (get_blocks pg);
                          pc_visual_elements := v;
                          pc_encoded_sections := findings d;
                          pc_formatting_flags :=
                            if negb (rotation pg =? 0)%Z
                            then [rotated_flag (rotation pg)]
                            else [];
                          pc_rotation := rotation pg |} |}]))
      as (new & Hnew & Hnums & Hall); [intros _; lia |].
    eexists (_ :: new). split; [| split].
    + rewrite Hnew, <- app_assoc. reflexivity.
    + cbn [map page_number]. now rewrite Hnums.
    + constructor; [| exact Hall].
      exists pg, d. cbn. rewrite Nat2Z.id.
      repeat split; auto. lia.
Qed.

(** The chunk of an opened document. *)
Lemma process_pdf_chunk_spec : forall (pdf_data : str) pdf_bytes doc,
  b64decode pdf_data = Ok pdf_bytes ->
  open_document pdf_bytes = Ok doc ->
  visuals_extractable get_text extract_visual_elements doc ->
  forall page_range : option (Z * Z),
    let total := Z.of_nat (length (doc_pages doc)) in
    let start_page :=
      match page_range with None => 0%Z | Some (a, _) => Z.max 0 a end in
    let end_page :=
      match page_range with None => total | Some (_, b) => Z.min total b end in
    exists results,
      process_pdf_chunk_of pdf_data page_range
      = Ok {| total_pages := total;
              processed_pages := end_page - start_page;
              extracted_content := results;
              document_metadata := Some (extract_document_metadata doc) |}
      /\ map (@page_number _) results
         = z_seq start_page (Z.to_nat (end_page - start_page))
      /\ Forall (page_of doc) results.
Proof.
  intros pdf_data pdf_bytes doc Hb64 Hopen Hvis page_range. cbn zeta.
  set (total := Z.of_nat (length (doc_pages doc))).
  set (s := match page_range with None => 0%Z | Some (a, _) => Z.max 0 a end).
  set (e := match page_range with
            | None => total | Some (_, b) => Z.min total b end).
  assert (Hs : (0 <= s)%Z) by (subst s; destruct page_range as [[a b] |]; lia).
  assert (He : (e <= total)%Z)
    by (subst e; destruct page_range as [[a b] |]; lia).
  destruct (@process_pages_spec doc Hvis (Z.to_nat (e - s)) (Z.to_nat s) [])
    as (new & Hnew & Hnums & Hall); [intros Hn; subst total; lia |].
  rewrite Z2Nat.id in Hnew, Hnums by exact Hs.
  exists new. split; [| split; [exact Hnums | exact Hall]].
  unfold process_pdf_chunk_of, process_pdf_chunk.
  rewrite Hb64. cbn [bind]. rewrite Hopen. cbn [bind].
  fold total.
  assert (Epair : match page_range with
                  | None => (0%Z, total)
                  | Some (a, b) => (Z.max 0 a, Z.min total b)
                  end = (s, e))
    by (subst s e; destruct page_range as [[a b] |]; reflexivity).
  rewrite Epair. rewrite py_range_step_1. cbn [bind].
  fold process_page_of. rewrite Hnew. reflexivity.
Qed.

(** X20: the chunk of a document that opens.  With the range cut to the
    document, [start_page = max(0, a)] and [end_page = min(total_pages, b)],
    the result holds the pages from [start_page] to [end_page - 1], each
    once and in order, each the page of the document with that number and
    with the flags of [detect_encodings] on its text; looking up a page
    never fails.  [processed_pages] is [end_page - start_page] even when
    this is negative: a range behind the last page, or a reversed one,
    gives no page and a negative count. *)
Theorem process_pdf_chunk_pages :
  forall (pdf_data : str) (pdf_bytes : bytes) (doc : document pdf_page)
         (a b : Z),
    b64decode pdf_data = Ok pdf_bytes ->
    open_document pdf_bytes = Ok doc ->
    visuals_extractable get_text extract_visual_elements doc ->
    let total := Z.of_nat (length (doc_pages doc)) in
    let start_page := Z.max 0 a in
    let end_page := Z.min total b in
    exists r,
      process_pdf_chunk isspace get_text get_blocks rotation open_document
        extract_visual_elements reason_text rotated_flag pdf_data
        (Some (a, b))
      = Ok r
      /\ total_pages r = total
      /\ processed_pages r = (end_page - start_page)%Z
      /\ map (@page_number _) (extracted_content r)
         = z_seq start_page (Z.to_nat (end_page - start_page))
      /\ Forall (@page_of_document F U isspace pdf_page get_text get_blocks
                   rotation visual_elements reason_text doc)
           (extracted_content r)
      /\ document_metadata r = Some (extract_document_metadata doc)
      /\ ((end_page < start_page)%Z ->
          extracted_content r = [] /\ (processed_pages r < 0)%Z).
Proof.
  intros pdf_data pdf_bytes doc a b Hb64 Hopen Hvis. cbn zeta.
  destruct (@process_pdf_chunk_spec pdf_data pdf_bytes doc Hb64 Hopen Hvis
              (Some (a, b))) as (results & Hr & Hnums & Hall).
  cbn zeta in Hr, Hnums. eexists. split; [exact Hr |].
  cbn [total_pages processed_pages extracted_content document_metadata].
  repeat split; try assumption.
  - replace (Z.to_nat _) with 0%nat in Hnums by lia.
    destruct results; [reflexivity | discriminate].
  - lia.
Qed.

End Chunk_facts.

(** ** The orchestrator over the PDF processor *)

Lemma chunks_of_contiguous : forall total size : Z,
  (0 <= total)%Z -> (1 <= size)%Z ->
  exists chunks,
    chunks_of total size = Ok chunks /\ contiguous 0 chunks total.
Proof.
  intros total size Htotal Hsize. unfold chunks_of, py_range.
  replace (size =? 0)%Z with false by (symmetry; apply Z.eqb_neq; lia).
  cbn [bind]. eexists. split; [reflexivity |].
  set (n := Z.to_nat (range_length 0 total size)).
  assert (Hn0 : n = 0%nat -> (Z.of_nat 0 * size = total)%Z).
  { subst n. unfold range_length.
    replace (0 <? size)%Z with true by (symmetry; apply Z.ltb_lt; lia).
    destruct (0 <? total)%Z eqn:Ht.
    - apply Z.ltb_lt in Ht. intros H.
      assert (0 <= (total - 0 - 1) / size)%Z by (apply Z.div_pos; lia). lia.
    - apply Z.ltb_ge in Ht. intros _. lia. }
  assert (Hn1 : n <> 0%nat ->
     ((Z.of_nat 0 + Z.of_nat n - 1) * size < total
      <= (Z.of_nat 0 + Z.of_nat n) * size)%Z).
  { subst n. unfold range_length.
    replace (0 <? size)%Z with true by (symmetry; apply Z.ltb_lt; lia).
    destruct (0 <? total)%Z eqn:Ht; [| intros H; now elim H].
    apply Z.ltb_lt in Ht. intros _.
    assert (0 <= (total - 0 - 1) / size)%Z by (apply Z.div_pos; lia).
    rewrite Z2Nat.id by lia.
    pose proof (Z.div_mod (total - 0 - 1) size ltac:(lia)) as Hdm.
    pose proof (Z.mod_pos_bound (total - 0 - 1) size ltac:(lia)) as Hb.
    nia. }
  destruct (@chunks_from_contiguous total size n 0 ltac:(lia) Hn0 Hn1)
    as [Hc _].
  cbn [Z.of_nat Z.mul] in Hc. exact Hc.
Qed.

Lemma fold_add_shift : forall (l : list Z) (acc : Z),
  fold_left Z.add l acc = (acc + fold_left Z.add l 0)%Z.
Proof.
  induction l as [|x l IH]; intros acc; simpl; [lia |].
  rewrite IH, (IH x). lia.
Qed.

Lemma fold_max_constant : forall (l : list Z) (v : Z),
  (0 <= v)%Z -> l <> [] -> Forall (fun x => x = v) l ->
  fold_left Z.max l 0%Z = v.
Proof.
  intros l v Hv Hne Hall.
  destruct (fold_max_spec l 0) as (H0 & Hle & Hcase). cbn zeta in *.
  destruct l as [|x l]; [now elim Hne |].
  inversion Hall as [|? ? Hx Hall']; subst.
  inversion Hle as [|? ? Hxle _]; subst.
  destruct Hcase as [E | Hin].
  - rewrite E in *. lia.
  - rewrite Forall_forall in Hall. apply (Hall _ Hin).
Qed.

Section Ascending.

Variable A : Type.
Variable key : A -> Z.

Lemma ascending_keys_sorted : forall (l : list A) a,
  map key l = z_seq a (length l) ->
  StronglySorted (fun x y => (key x <= key y)%Z) l
  /\ Forall (fun x => (a <= key x)%Z) l.
Proof.
  induction l as [|x l IH]; intros a Hl.
  - split; constructor.
  - cbn [length] in Hl. rewrite z_seq_cons in Hl. cbn [map] in Hl.
    injection Hl as Hx Hl. destruct (IH _ Hl) as [Hs Hall].
    split.
    + constructor; [exact Hs |].
      eapply Forall_impl; [| exact Hall]. intros y Hy. simpl in Hy. lia.
    + constructor; [lia |].
      eapply Forall_impl; [| exact Hall]. intros y Hy. simpl in Hy. lia.
Qed.

End Ascending.

Section End_to_end.

Context {F : FloatOps} {U : UnicodeTables}.
Hypothesis SM : StandardModel F.

Variable isspace : char -> bool.
Variable pdf_page : Type.
Variable get_text : pdf_page -> str.
Variable get_blocks : pdf_page -> list block.
Variable rotation : pdf_page -> Z.
Variable open_document : bytes -> result (document pdf_page).
Variable visual_elements : Type.
Variable extract_visual_elements : pdf_page -> str -> result visual_elements.
Variable reason_text : suspicion_reason -> str.
Variable rotated_flag : Z -> str.

Let process_pdf_chunk_of :=
  process_pdf_chunk isspace get_text get_blocks rotation open_document
    extract_visual_elements reason_text rotated_flag.

Let page_of :=
  @page_of_document F U isspace pdf_page get_text get_blocks rotation
    visual_elements reason_text.

(** The results of the chunks that follow one another from [a] to the end
    of the document. *)
Lemma gather_chunks : forall (pdf_data : str) pdf_bytes doc,
  b64decode pdf_data = Ok pdf_bytes ->
  open_document pdf_bytes = Ok doc ->
  visuals_extractable get_text extract_visual_elements doc ->
  let total := Z.of_nat (length (doc_pages doc)) in
  forall chunks a,
    (0 <= a)%Z -> contiguous a chunks total ->
    exists results,
      gather (fun range => process_pdf_chunk_of pdf_data (Some range)) chunks
      = Ok results
      /\ length results = length chunks
      /\ map (@page_number _) (all_pages results)
         = z_seq a (Z.to_nat (total - a))
      /\ Forall (page_of doc) (all_pages results)
      /\ Forall (fun r => total_pages r = total
                          /\ document_metadata r
                             = Some (extract_document_metadata doc)) results
      /\ sum_processed results = (total - a)%Z.
Proof.
  intros pdf_data pdf_bytes doc Hb64 Hopen Hvis total.
  induction chunks as [|[s e] chunks IH]; intros a Ha Hc.
  - simpl in Hc. subst a. exists []. cbn [gather].
    replace (total - total)%Z with 0%Z by lia.
    repeat split; constructor.
  - simpl in Hc. destruct Hc as (-> & Hlt & Hc).
    pose proof (contiguous_le _ _ _ Hc) as He.
    destruct (@process_pdf_chunk_spec F U SM isspace pdf_page get_text
                get_blocks rotation open_document visual_elements
                extract_visual_elements reason_text rotated_flag
                pdf_data pdf_bytes doc Hb64 Hopen Hvis (Some (a, e)))
      as (pages & Hr & Hnums & Hall).
    cbn zeta in Hr, Hnums. fold total in Hr, Hnums.
    replace (Z.max 0 a) with a in Hr, Hnums by lia.
    replace (Z.min total e) with e in Hr, Hnums by lia.
    destruct (IH e ltac:(lia) Hc)
      as (results & Hg & Hlen & Hn & Hp & Ht & Hsum).
    cbn [gather]. fold process_pdf_chunk_of in Hr. rewrite Hr. cbn [bind].
    rewrite Hg. cbn [bind]. eexists. split; [reflexivity |].
    unfold all_pages, sum_processed in *.
    cbn [flat_map extracted_content map processed_pages fold_left length].
    split; [now rewrite Hlen |]. split; [| split; [| split]].
    + rewrite map_app, Hnums, Hn.
      replace (Z.to_nat (total - a))
        with (Z.to_nat (e - a) + Z.to_nat (total - e))%nat by lia.
      rewrite z_seq_app. do 2 f_equal. lia.
    + apply Forall_app. split; [exact Hall | exact Hp].
    + constructor; [split; reflexivity | exact Ht].
    + rewrite fold_add_shift, Hsum. lia.
Qed.

Variable int_of_str : str -> result Z.
Variable process_chunk :
  str -> Z * Z -> result (chunk_result (page_content visual_elements)).

(** X21: the orchestrator over the PDF processor.  For a document that opens
    and whose pages can be processed, and a chunk size of 1 or more, the
    response is the result 200 with every page of the document once, in the
    order of the document, each with the flags of [detect_encodings] on its
    text; [total_pages] and [processed_pages] are the number of pages. *)
Theorem orchestrator_processes_every_page :
  forall (pdf_data : str) (pdf_bytes : bytes) (doc : document pdf_page)
         (field : option json) (chunk_size : Z),
    is_empty pdf_data = false ->
    b64decode pdf_data = Ok pdf_bytes ->
    open_document pdf_bytes = Ok doc ->
    visuals_extractable get_text extract_visual_elements doc ->
    (forall range,
       process_chunk pdf_data range
       = process_pdf_chunk isspace get_text get_blocks rotation open_document
           extract_visual_elements reason_text rotated_flag
           pdf_data (Some range)) ->
    json_chunk_size_value field = JInt chunk_size ->
    (1 <= chunk_size)%Z ->
    exists c,
      orchestrator_function int_of_str
        (priming_page_count isspace get_text get_blocks rotation open_document
           extract_visual_elements reason_text rotated_flag)
        process_chunk (Json_payload (Some (Some pdf_data, field)))
      = Http_200 c
      /\ c_total_pages c = Z.of_nat (length (doc_pages doc))
      /\ c_processed_pages c = Z.of_nat (length (doc_pages doc))
      /\ map (@page_number _) (c_extracted_content c)
         = z_seq 0 (length (doc_pages doc))
      /\ Forall (@page_of_document F U isspace pdf_page get_text get_blocks
                   rotation visual_elements reason_text doc)
           (c_extracted_content c)
      /\ (doc_pages doc <> [] ->
          c_document_metadata c = extract_document_metadata doc).
Proof.
  intros pdf_data pdf_bytes doc field size Hne Hb64 Hopen Hvis Hproc Hfield
    Hsize.
  set (total := Z.of_nat (length (doc_pages doc))).
  destruct (@process_pdf_chunk_spec F U SM isspace pdf_page get_text
              get_blocks rotation open_document visual_elements
              extract_visual_elements reason_text rotated_flag
              pdf_data pdf_bytes doc Hb64 Hopen Hvis (Some (0, 1)%Z))
    as (pages0 & Hr0 & _).
  cbn zeta in Hr0.
  destruct (@chunks_of_contiguous total size ltac:(subst total; lia) Hsize)
    as (chunks & Hchunks & Hcont).
  destruct (@gather_chunks pdf_data pdf_bytes doc Hb64 Hopen Hvis chunks 0%Z
              ltac:(lia) Hcont)
    as (results & Hg & Hlen & Hn & Hp & Ht & Hsum).
  fold total in Hn, Ht, Hsum.
  assert (Hgather : gather (process_chunk pdf_data) chunks = Ok results).
  { rewrite <- Hg. clear - Hproc. induction chunks as [|c chunks IH];
      [reflexivity |].
    cbn [gather]. rewrite Hproc, IH. reflexivity. }
  exists (combine_results results). split.
  - unfold orchestrator_function, run_orchestrator. rewrite Hne.
    unfold priming_page_count. rewrite Hr0. cbn [bind total_pages].
    rewrite Hfield. cbn [as_integer bind]. fold total.
    rewrite Hchunks. cbn [bind]. rewrite Hgather. reflexivity.
  - replace (Z.to_nat (total - 0)) with (length (doc_pages doc)) in Hn
      by (subst total; lia).
    assert (Hpages : c_extracted_content (combine_results results)
                     = all_pages results).
    { unfold combine_results. cbn [c_extracted_content].
      destruct (result_loop_spec results (initial_accumulator _))
        as (_ & -> & _).
      cbn [initial_accumulator a_combined c_extracted_content app].
      unfold sort_pages.
      apply (@sort_by_sorted_id _ (@page_number _)).
      apply (@ascending_keys_sorted _ (@page_number _) _ 0%Z).
      rewrite Hn. f_equal.
      symmetry.
      rewrite <- (length_map (@page_number _) (all_pages results)), Hn.
      apply z_seq_length. }
    assert (Hresults : doc_pages doc <> [] -> results <> []).
    { intros Hdoc Hnil. subst results. simpl in Hlen.
      destruct chunks; [| discriminate]. simpl in Hcont.
      destruct (doc_pages doc); [now elim Hdoc |].
      subst total. simpl in Hcont. lia. }
    destruct (result_loop_rest results (initial_accumulator _))
      as (Htot & _ & _ & Hmlen & Hmcase).
    cbn zeta in Htot, Hmlen, Hmcase.
    cbn [initial_accumulator a_combined c_total_pages c_document_metadata]
      in Htot, Hmlen, Hmcase.
    split; [| split; [| split; [| split]]].
    + unfold combine_results. cbn [c_total_pages]. rewrite Htot.
      destruct results as [|r results'] eqn:Eres.
      * simpl. destruct (doc_pages doc) as [|pg pgs] eqn:Edoc;
          [reflexivity |].
        exfalso. apply Hresults; [discriminate | reflexivity].
      * apply fold_max_constant; [subst total; lia | discriminate |].
        apply Forall_map. eapply Forall_impl; [| exact Ht].
        intros r0 [H _]. exact H.
    + destruct (result_loop_spec results (initial_accumulator _))
        as (Hproc' & _).
      cbn zeta in Hproc'. unfold combine_results. cbn [c_processed_pages].
      rewrite Hproc'. cbn [initial_accumulator a_combined c_processed_pages].
      fold (sum_processed results). rewrite Hsum. lia.
    + rewrite Hpages. exact Hn.
    + rewrite Hpages. exact Hp.
    + intros Hdoc. specialize (Hresults Hdoc).
      unfold combine_results. cbn [c_document_metadata].
      destruct results as [|r results']; [now elim Hresults |].
      inversion Ht as [|? ? [_ Hr] Ht']; subst.
      destruct Hmcase as [E | (r' & Hin & E)].
      * rewrite E. inversion Hmlen as [|? ? Hr0len _]; subst.
        rewrite E in Hr0len. unfold get_metadata in Hr0len.
        rewrite Hr in Hr0len.
        destruct (extract_document_metadata doc); [reflexivity |].
        simpl in Hr0len. lia.
      * rewrite Forall_forall in Ht.
        destruct (Ht r' Hin) as [_ Hr']. rewrite Hr' in E.
        now injection E.
Qed.

End End_to_end.

Lemma sample_document_opens :
  b64decode [65; 65; 65; 65]%N = Ok [0; 0; 0]%N
  /\ sample_open_document [0; 0; 0]%N = Ok sample_document
  /\ visuals_extractable (fun pg : str => pg) sample_visual_elements
       sample_document.
Proof.
  repeat split. intros pg _. now exists tt.
Qed.

Lemma process_pdf_chunk_pages_witness :
  exists r,
    sample_process_pdf_chunk [65; 65; 65; 65]%N (Some (1, 7)%Z) = Ok r
    /\ total_pages r = 3%Z
    /\ processed_pages r = 2%Z
    /\ map (@page_number _) (extracted_content r) = [1; 2]%Z.
Proof.
  destruct sample_document_opens as (H1 & H2 & H3).
  destruct (@process_pdf_chunk_pages exact_ops ascii_tables
              exact_ops_standard (fun _ => false) str (fun pg => pg)
              (fun _ => []) (fun _ => 0%Z) sample_open_document unit
              sample_visual_elements (fun _ => []) (fun _ => [])
              [65; 65; 65; 65]%N [0; 0; 0]%N sample_document 1%Z 7%Z
              H1 H2 H3)
    as (r & Hr & Ht & Hp & Hn & _).
  exists r. repeat split; assumption.
Defined.

Lemma extract_document_metadata_filled_witness :
  extract_document_metadata sample_document
  = [([116; 105; 116; 108; 101]%N, sample_text)].
Proof.
  refine (proj1 (@extract_document_metadata_filled str sample_document _)).
  assert (H : nodup str_eq_dec (map fst (doc_metadata sample_document))
              = map fst (doc_metadata sample_document))
    by (vm_compute; reflexivity).
  rewrite <- H. apply NoDup_nodup.
Defined.

Lemma orchestrator_processes_every_page_witness :
  exists c,
    @orchestrator_function exact_ops (page_content unit) sample_int_of_str
      (@priming_page_count exact_ops ascii_tables (fun _ => false) str
         (fun pg => pg) (fun _ => []) (fun _ => 0%Z) sample_open_document
         unit sample_visual_elements (fun _ => []) (fun _ => []))
      (fun pdf_data range => sample_process_pdf_chunk pdf_data (Some range))
      (Json_payload (Some (Some [65; 65; 65; 65]%N, None)))
    = Http_200 c
    /\ c_total_pages c = 3%Z
    /\ c_processed_pages c = 3%Z
    /\ map (@page_number _) (c_extracted_content c) = [0; 1; 2]%Z.
Proof.
  destruct sample_document_opens as (H1 & H2 & H3).
  destruct (@orchestrator_processes_every_page exact_ops ascii_tables
              exact_ops_standard (fun _ => false) str (fun pg => pg)
              (fun _ => []) (fun _ => 0%Z) sample_open_document unit
              sample_visual_elements (fun _ => []) (fun _ => [])
              sample_int_of_str
              (fun pdf_data range =>
                 sample_process_pdf_chunk pdf_data (Some range))
              [65; 65; 65; 65]%N [0; 0; 0]%N sample_document None 5%Z
              eq_refl H1 H2 H3 (fun _ => eq_refl) eq_refl ltac:(lia))
    as (c & Hc & Ht & Hp & Hn & _).
  exists c. repeat split; assumption.
Defined.

(** ** The blocks that [detect_high_entropy] reports *)

Lemma for_each_invariant_in : forall (A S : Type) (P : S -> Prop)
    (body : S -> A -> result S) (xs : list A) (s : S),
  P s ->
  (forall s x, In x xs -> P s -> exists s', body s x = Ok s' /\ P s') ->
  exists s', for_each xs body s = Ok s' /\ P s'.
Proof.
  intros A S P body xs. induction xs as [|x xs IH]; intros s Hs Hbody; simpl.
  - now exists s.
  - destruct (Hbody s x (or_introl eq_refl) Hs) as (s1 & -> & Hs1). simpl.
    apply IH; [exact Hs1 |]. intros s' y Hy. apply Hbody. now right.
Qed.

Lemma in_combine_seq_map : forall (A : Type) (g : nat -> A) n a i (x : A),
  In (i, x) (combine (seq a n) (map g (seq a n))) ->
  (a <= i < a + n)%nat /\ x = g i.
Proof.
  intros A g. induction n as [|n IH]; intros a i x Hin; simpl in Hin.
  - contradiction.
  - destruct Hin as [E | Hin].
    + injection E as <- <-. split; [lia | reflexivity].
    + destruct (IH (S a) i x Hin) as [Hi Hx]. split; [lia | exact Hx].
Qed.

Lemma distinct_count_le_length : forall text : str,
  (distinct_count text <= length text)%nat.
Proof.
  intros text. unfold distinct_count.
  induction text as [|c text IH]; simpl; [lia |].
  destruct (in_dec N.eq_dec c text); simpl; lia.
Qed.

Section High_entropy_exact.

Local Open Scope R_scope.

(** In exact arithmetic an entropy above 7 takes more than 128 different
    characters. *)
Lemma entropy_above_7 : forall (block : str) (entropy : R),
  @calculate_entropy exact_ops block = Ok entropy ->
  7 < entropy ->
  (128 < distinct_count block)%nat.
Proof.
  intros block entropy He H7.
  destruct block as [|c block].
  - simpl in He. injection He as <-. lra.
  - rewrite exact_entropy_value in He. injection He as <-.
    pose proof (@shannon_sum_upper (c :: block) ltac:(discriminate)) as Hup.
    destruct (Nat.lt_ge_cases 128 (distinct_count (c :: block)))
      as [Hlt | Hge]; [exact Hlt | exfalso].
    assert (Hpos : 0 < INR (distinct_count (c :: block)))
      by (apply lt_0_INR, distinct_count_pos).
    assert (Hle : INR (distinct_count (c :: block)) <= 2 ^ 7).
    { replace (2 ^ 7) with (INR 128) by (simpl; lra). now apply le_INR. }
    pose proof (log2_monotone Hpos Hle) as Hm.
    rewrite log2_pow2 in Hm. simpl INR in Hm. cbn [length] in *. lra.
Qed.

(** X22: in exact arithmetic, with a block size of 1 or more, every finding
    of [detect_high_entropy] reports a block of the text, the block with
    its index, the entropy of which is above 7.0; such a block has more
    than 128 different characters, so that there is no finding at all with
    a block size of 128 or less. *)
Theorem detect_high_entropy_findings :
  forall (text : str) (block_size : Z),
    (1 <= block_size)%Z ->
    exists fs,
      @detect_high_entropy exact_ops text block_size = Ok fs
      /\ Forall (fun f =>
                   exists (i : nat) (entropy : R),
                     let block :=
                       py_slice text (Z.of_nat i * block_size)
                         (Z.of_nat i * block_size + block_size) in
                     f = @high_entropy_finding exact_ops i block entropy
                     /\ (Z.of_nat i * block_size < Z.of_nat (length text))%Z
                     /\ @calculate_entropy exact_ops block = Ok entropy
                     /\ 7 < entropy
                     /\ (128 < distinct_count block)%nat) fs
      /\ ((block_size <= 128)%Z -> fs = []).
Proof.
  intros text size Hsize.
  set (G := fun f : finding =>
              exists (i : nat) (entropy : R),
                f = @high_entropy_finding exact_ops i
                      (py_slice text (Z.of_nat i * size)
                         (Z.of_nat i * size + size)) entropy
                /\ (Z.of_nat i * size < Z.of_nat (length text))%Z
                /\ @calculate_entropy exact_ops
                     (py_slice text (Z.of_nat i * size)
                        (Z.of_nat i * size + size)) = Ok entropy
                /\ 7 < entropy
                /\ (128 < distinct_count
                            (py_slice text (Z.of_nat i * size)
                               (Z.of_nat i * size + size)))%nat).
  assert (Hmain : exists fs,
            @detect_high_entropy exact_ops text size = Ok fs
            /\ Forall G fs).
  { unfold detect_high_entropy.
    destruct (Rltb _ _); [exists []; split; [reflexivity | constructor] |].
    unfold blocks_of, py_range.
    replace (size =? 0)%Z with false by (symmetry; apply Z.eqb_neq; lia).
    cbn [bind]. rewrite map_map. unfold enumerate. rewrite length_map.
    rewrite length_seq.
    set (n := Z.to_nat (range_length 0 (Z.of_nat (length text)) size)).
    assert (Hn : forall i, (i < n)%nat ->
                   (Z.of_nat i * size < Z.of_nat (length text))%Z).
    { intros i Hi. subst n. unfold range_length in Hi.
      replace (0 <? size)%Z with true in Hi by (symmetry; apply Z.ltb_lt; lia).
      destruct (0 <? Z.of_nat (length text))%Z eqn:Ht; [| simpl in Hi; lia].
      apply Z.ltb_lt in Ht.
      set (L := Z.of_nat (length text)) in *.
      assert (H0 : (0 <= (L - 0 - 1) / size)%Z) by (apply Z.div_pos; lia).
      pose proof (Z.div_mod (L - 0 - 1) size ltac:(lia)) as Hdm.
      pose proof (Z.mod_pos_bound (L - 0 - 1) size ltac:(lia)) as Hb.
      assert (Hi' : (Z.of_nat i <= (L - 0 - 1) / size)%Z) by lia.
      nia. }
    apply for_each_invariant_in with (P := Forall G); [constructor |].
    intros findings [i block] Hin Hall.
    apply (@in_combine_seq_map _
             (fun k => py_slice text (0 + Z.of_nat k * size)
                         (0 + Z.of_nat k * size + size))) in Hin.
    destruct Hin as [Hi ->]. cbn [Z.add] in *.
    unfold high_entropy_block.
    destruct (Rltb _ _); [now exists findings |].
    rewrite exact_entropy_value. cbn [bind].
    destruct (Rgtb _ 7) eqn:Hgt; [| now exists findings].
    eexists. split; [reflexivity |].
    apply Forall_app. split; [exact Hall |]. constructor; [| constructor].
    assert (H7 : 7 < shannon_sum
                       (length (py_slice text (Z.of_nat i * size)
                                  (Z.of_nat i * size + size)))
                       (map snd (char_count
                                   (py_slice text (Z.of_nat i * size)
                                      (Z.of_nat i * size + size))))).
    { unfold Rgtb, Rltb in Hgt.
      destruct (Rlt_dec 7 _) as [H |]; [exact H | discriminate]. }
    exists i. eexists. split; [reflexivity |].
    split; [apply Hn; lia |].
    split; [apply exact_entropy_value |]. split; [exact H7 |].
    apply (@entropy_above_7 _ _ (exact_entropy_value _) H7). }
  destruct Hmain as (fs & Hfs & Hall).
  exists fs. split; [exact Hfs |]. split; [exact Hall |].
  intros Hsmall. destruct fs as [|f fs]; [reflexivity | exfalso].
  inversion Hall as [|? ? (i & entropy & _ & _ & _ & _ & Hd) _]; subst.
  pose proof (distinct_count_le_length
                (py_slice text (Z.of_nat i * size)
                   (Z.of_nat i * size + size))) as Hle.
  pose proof (@py_slice_length _ text (Z.of_nat i * size) size
                ltac:(nia) ltac:(lia)) as Hlen.
  lia.
Qed.

Lemma detect_high_entropy_findings_witness :
  exists fs,
    @detect_high_entropy exact_ops (distinct_block 128) 128 = Ok fs
    /\ fs = [].
Proof.
  destruct (@detect_high_entropy_findings (distinct_block 128) 128%Z
              ltac:(lia)) as (fs & Hfs & _ & Hnil).
  exists fs. split; [exact Hfs | apply Hnil; lia].
Defined.

End High_entropy_exact.

(** ** The calls of the orchestrator *)

Lemma contiguous_pages : forall cs a b acc,
  contiguous a cs b ->
  fold_left Z.add (map chunk_pages cs) acc = (acc + (b - a))%Z.
Proof.
  induction cs as [|[s e] cs IH]; simpl; intros a b acc H.
  - lia.
  - destruct H as (-> & Hlt & Hc). rewrite (@IH _ _ _ Hc).
    unfold chunk_pages. simpl. lia.
Qed.

Lemma full_but_last_bound : forall size cs a b,
  (0 <= size)%Z -> contiguous a cs b -> full_but_last size cs ->
  Forall (fun c => (1 <= chunk_pages c <= size)%Z) cs.
Proof.
  intros size. induction cs as [|[s e] cs IH]; intros a b Hsize Hc Hf.
  - constructor.
  - simpl in Hc. destruct Hc as (-> & Hlt & Hc).
    destruct cs as [|c' cs].
    + constructor; [| constructor]. unfold chunk_pages. simpl in *. lia.
    + destruct Hf as [Hw Hf].
      constructor; [unfold chunk_pages; simpl; lia |].
      apply (IH _ _ Hsize Hc Hf).
Qed.

(** X23: for [total_pages >= 0] and [chunk_size >= 1] the orchestrator makes
    [ceil(total_pages / chunk_size)] chunks, each of 1 to [chunk_size]
    pages, and the chunks have [total_pages] pages together. *)
Theorem chunks_count :
  forall total_pages chunk_size : Z,
    (0 <= total_pages)%Z -> (1 <= chunk_size)%Z ->
    exists chunks,
      chunks_of total_pages chunk_size = Ok chunks
      /\ Z.of_nat (length chunks)
         = ((total_pages + chunk_size - 1) / chunk_size)%Z
      /\ Forall (fun c => (1 <= chunk_pages c <= chunk_size)%Z) chunks
      /\ fold_left Z.add (map chunk_pages chunks) 0%Z = total_pages.
Proof.
  intros total size Htotal Hsize. unfold chunks_of, py_range.
  replace (size =? 0)%Z with false by (symmetry; apply Z.eqb_neq; lia).
  cbn [bind]. eexists. split; [reflexivity |].
  set (n := Z.to_nat (range_length 0 total size)).
  assert (Hlen : Z.of_nat n = ((total + size - 1) / size)%Z).
  { subst n. unfold range_length.
    replace (0 <? size)%Z with true by (symmetry; apply Z.ltb_lt; lia).
    destruct (0 <? total)%Z eqn:Ht.
    - apply Z.ltb_lt in Ht.
      assert (0 <= (total - 0 - 1) / size)%Z by (apply Z.div_pos; lia).
      rewrite Z2Nat.id by lia.
      replace (total + size - 1)%Z with (total - 0 - 1 + 1 * size)%Z by lia.
      rewrite Z.div_add by lia. reflexivity.
    - apply Z.ltb_ge in Ht. replace total with 0%Z by lia.
      rewrite Z.div_small by lia. reflexivity. }
  assert (Hn0 : n = 0%nat -> (Z.of_nat 0 * size = total)%Z).
  { intros E. rewrite E in Hlen. simpl in Hlen.
    destruct (Z.eq_dec total 0) as [-> | Hpos]; [reflexivity | exfalso].
    assert (1 <= (total + size - 1) / size)%Z.
    { replace (total + size - 1)%Z with (total - 1 + 1 * size)%Z by lia.
      rewrite Z.div_add by lia.
      assert (0 <= (total - 1) / size)%Z by (apply Z.div_pos; lia). lia. }
    lia. }
  assert (Hn1 : n <> 0%nat ->
     ((Z.of_nat 0 + Z.of_nat n - 1) * size < total
      <= (Z.of_nat 0 + Z.of_nat n) * size)%Z).
  { intros Hn. rewrite Hlen.
    destruct (Z.eq_dec total 0) as [-> | Hpos].
    { exfalso. apply Hn. rewrite Z.div_small in Hlen by lia. lia. }
    replace (total + size - 1)%Z with (total - 1 + 1 * size)%Z by lia.
    rewrite Z.div_add by lia.
    pose proof (Z.div_mod (total - 1) size ltac:(lia)) as Hdm.
    pose proof (Z.mod_pos_bound (total - 1) size ltac:(lia)) as Hb.
    nia. }
  destruct (@chunks_from_contiguous total size n 0 ltac:(lia) Hn0 Hn1)
    as [Hc Hf].
  cbn [Z.of_nat Z.mul] in Hc.
  split; [| split].
  - rewrite !length_map, length_seq. exact Hlen.
  - apply (@full_but_last_bound size _ 0%Z total ltac:(lia) Hc Hf).
  - rewrite (@contiguous_pages _ 0%Z total 0%Z Hc). lia.
Qed.

Lemma chunks_count_witness :
  exists chunks,
    chunks_of 12 5 = Ok chunks
    /\ Z.of_nat (length chunks) = ((12 + 5 - 1) / 5)%Z
    /\ Forall (fun c => (1 <= chunk_pages c <= 5)%Z) chunks
    /\ fold_left Z.add (map chunk_pages chunks) 0%Z = 12%Z.
Proof.
  apply (@chunks_count 12 5); lia.
Defined.

Lemma gather_all : forall (A B : Type) (f : A -> result B) l results,
  Forall2 (fun x y => f x = Ok y) l results -> gather f l = Ok results.
Proof.
  intros A B f l results H. induction H as [|x y l results Hxy _ IH].
  - reflexivity.
  - cbn [gather]. rewrite Hxy. cbn [bind]. rewrite IH. reflexivity.
Qed.

Lemma gather_raises : forall (A B : Type) (f : A -> result B) l,
  Exists (fun x => exists e, f x = Raise e) l ->
  exists x e, In x l /\ f x = Raise e /\ gather f l = Raise e.
Proof.
  intros A B f. induction l as [|x l IH]; intros H.
  - inversion H.
  - cbn [gather]. destruct (f x) as [y | e] eqn:Hx.
    + inversion H as [? ? (e & He) | ? ? Hl]; subst.
      * rewrite Hx in He. discriminate.
      * destruct (IH Hl) as (x' & e & Hin & Hf & Hg).
        exists x', e. cbn [bind]. rewrite Hg.
        repeat split; [now right | exact Hf].
    + exists x, e. repeat split; [now left | exact Hx].
Qed.

Section All_or_nothing.

Context {F : FloatOps}.
Variable payload : Type.
Variable int_of_str : str -> result Z.
Variable count_pages : str -> result Z.
Variable process_chunk : str -> Z * Z -> result (chunk_result payload).

(** X24: the response of the orchestrator is all or nothing.  When every
    chunk is answered, the response is the result 200 with the combination
    of the answers in the order of the chunks; when the processing of a
    chunk raises, the response is the error 500 of a chunk that raised,
    and nothing of the other chunks is returned. *)
Theorem orchestrator_all_or_nothing :
  forall (pdf_data : str) (field : option json) (total chunk_size : Z)
         (chunks : list (Z * Z)),
    is_empty pdf_data = false ->
    count_pages pdf_data = Ok total ->
    json_chunk_size_value field = JInt chunk_size ->
    chunks_of total chunk_size = Ok chunks ->
    (forall results,
       Forall2 (fun c r => process_chunk pdf_data c = Ok r) chunks results ->
       orchestrator_function int_of_str count_pages process_chunk
         (Json_payload (Some (Some pdf_data, field)))
       = Http_200 (combine_results results))
    /\ (Exists (fun c => exists e, process_chunk pdf_data c = Raise e) chunks ->
        exists c e,
          In c chunks /\ process_chunk pdf_data c = Raise e
          /\ orchestrator_function int_of_str count_pages process_chunk
               (Json_payload (Some (Some pdf_data, field)))
             = Http_500 e).
Proof.
  intros pdf_data field total size chunks Hne Hcount Hfield Hchunks.
  unfold orchestrator_function, run_orchestrator.
  rewrite Hne, Hcount. cbn [bind]. rewrite Hfield. cbn [as_integer bind].
  rewrite Hchunks. cbn [bind]. split.
  - intros results Hall. rewrite (gather_all _ Hall). reflexivity.
  - intros Hex. destruct (gather_raises _ Hex) as (c & e & Hin & Hc & Hg).
    exists c, e. rewrite Hg. repeat split; assumption.
Qed.

End All_or_nothing.

Lemma orchestrator_all_or_nothing_witness :
  @orchestrator_function exact_ops unit sample_int_of_str sample_count_pages
    sample_process_chunk (Json_payload (Some (Some [37; 80; 68; 70]%N, None)))
  = Http_200
      (@combine_results exact_ops unit
         [{| total_pages := 12; processed_pages := 5;
             extracted_content := []; document_metadata := None |};
          {| total_pages := 12; processed_pages := 5;
             extracted_content := []; document_metadata := None |};
          {| total_pages := 12; processed_pages := 2;
             extracted_content := []; document_metadata := None |}]).
Proof.
  refine (proj1 (@orchestrator_all_or_nothing exact_ops unit
                   sample_int_of_str sample_count_pages sample_process_chunk
                   [37; 80; 68; 70]%N None 12%Z 5%Z
                   [(0, 5); (5, 10); (10, 12)]%Z
                   eq_refl eq_refl eq_refl eq_refl) _ _).
  repeat constructor.
Defined.

(** ** What the rules of the score can and cannot do *)

Section Score_rules.

Local Open Scope R_scope.

Context {F : FloatOps} {U : UnicodeTables}.
Hypothesis SM : StandardModel F.

Lemma detect_base64_confidence : forall text fs,
  detect_base64 text = Ok fs ->
  Forall (fun f => f_confidence f = 9 / 10) fs.
Proof.
  intros text fs Hfs.
  destruct (@for_each_invariant str (list finding)
              (Forall (fun f => f_confidence f = 9 / 10))
              base64_candidate (finditer pattern_base64 text) [])
    as (fs' & Hfs' & Hall); [constructor | |].
  - intros findings encoded Hall. unfold base64_candidate.
    destruct (_ <? _)%nat; [now exists findings |].
    destruct (candidate_reports SM base64 (9 / 10)
                (Some (base64_binary, (7 / 10)%R))
                (fun e => b64decode (pad_base64 e)) findings encoded)
      as (fs' & Hfs' & Hcase).
    exists fs'. split; [exact Hfs' |].
    destruct Hcase as [-> | (f & -> & _ & Hf)]; [exact Hall |].
    apply Forall_app. split; [exact Hall |]. constructor; [| constructor].
    destruct Hf as (decoded & s & _ & _ & _ & ->). reflexivity.
  - unfold detect_base64 in Hfs. rewrite Hfs in Hfs'.
    injection Hfs' as <-. exact Hall.
Qed.

Lemma count_high_confidence_base64 : forall (b rest : list finding),
  Forall (fun f => f_confidence f = 9 / 10) b ->
  (length b <= count_high_confidence (b ++ rest))%nat.
Proof.
  intros b rest Hall. unfold count_high_confidence.
  rewrite filter_app, length_app.
  assert (E : filter (fun f => Rgtb (f_confidence f) (8 / 10)) b = b).
  { induction Hall as [|f b Hf _ IH]; [reflexivity |].
    cbn [filter]. rewrite Hf, (@Rgtb_true (9 / 10) (8 / 10)) by lra.
    now rewrite IH. }
  rewrite E. lia.
Qed.

(** Five findings with a confidence above 0.8, all of them Base64, are
    enough for a score above 5. *)
Lemma accumulate_score_many_base64 : forall density hc he nb,
  (5 <= nb)%nat -> (nb <= hc)%nat ->
  5 < fst (accumulate_score density hc he nb).
Proof.
  intros density hc he nb Hnb Hhc.
  pose proof eps_pos as He0. pose proof eps_small as He1.
  assert (He : 99 / 100 <= 1 - eps) by lra.
  unfold accumulate_score.
  assert (H1 : 0 <= fst (if Rgtb density (5 / 10)
                         then (fadd 0 density,
                               [High_pattern_density density])
                         else (0, []))).
  { unfold Rgtb, Rltb. destruct (Rlt_dec (5 / 10) density) as [Hd |];
      cbn [fst]; [| lra].
    pose proof (@rel_nonneg _ _ (@sm_add F SM 0 density) ltac:(lra)) as H.
    assert (0 <= (0 + density) * (1 - eps)) by (apply Rmult_le_pos; lra).
    lra. }
  destruct (if Rgtb density (5 / 10)
            then (fadd 0 density, [High_pattern_density density])
            else (0, [])) as [s1 r1].
  cbn [fst] in H1.
  replace (3 <=? hc)%nat with true by (symmetry; apply Nat.leb_le; lia).
  replace (2 <? nb)%nat with true by (symmetry; apply Nat.ltb_lt; lia).
  assert (HC : 5 <= INR hc).
  { replace 5 with (INR 5) by (simpl; lra). apply le_INR. lia. }
  assert (HN : 5 <= INR nb).
  { replace 5 with (INR 5) by (simpl; lra). apply le_INR. lia. }
  assert (Hm2 : 2475 / 1000 <= fmul (INR hc) (5 / 10)).
  { pose proof (@rel_nonneg _ _ (@sm_mul F SM (INR hc) (5 / 10))
                  ltac:(lra)) as H.
    assert (25 / 10 * (99 / 100) <= INR hc * (5 / 10) * (1 - eps))
      by (apply Rmult_le_compat; lra).
    lra. }
  assert (Hm4 : 3465 / 1000 <= fmul (INR nb) (7 / 10)).
  { pose proof (@rel_nonneg _ _ (@sm_mul F SM (INR nb) (7 / 10))
                  ltac:(lra)) as H.
    assert (35 / 10 * (99 / 100) <= INR nb * (7 / 10) * (1 - eps))
      by (apply Rmult_le_compat; lra).
    lra. }
  assert (Hadd : forall s a lo, 0 <= lo -> lo <= s + a ->
                   lo * (99 / 100) <= fadd s a).
  { intros s a lo Hlo Hsa.
    pose proof (@rel_nonneg _ _ (@sm_add F SM s a) ltac:(lra)) as H.
    assert (lo * (99 / 100) <= (s + a) * (1 - eps))
      by (apply Rmult_le_compat; lra).
    lra. }
  pose proof (Hadd s1 (fmul (INR hc) (5 / 10)) (2475 / 1000)
                ltac:(lra) ltac:(lra)) as H2.
  set (s2 := fadd s1 (fmul (INR hc) (5 / 10))) in *.
  pose proof (pos_INR he) as Hhe.
  destruct (0 <? he)%nat; cbn [fst].
  - pose proof (Hadd s2 (INR he) (2450 / 1000) ltac:(lra) ltac:(lra)) as H3.
    pose proof (Hadd (fadd s2 (INR he)) (fmul (INR nb) (7 / 10))
                  (5890 / 1000) ltac:(lra) ltac:(lra)).
    lra.
  - pose proof (Hadd s2 (fmul (INR nb) (7 / 10)) (5900 / 1000)
                  ltac:(lra) ltac:(lra)).
    lra.
Qed.

Lemma accumulate_score_no_entropy_reason : forall density hc nb n,
  ~ In (High_entropy_blocks_found n)
      (snd (accumulate_score density hc 0 nb)).
Proof.
  intros density hc nb n. unfold accumulate_score.
  destruct (Rgtb density (5 / 10)); destruct (3 <=? hc)%nat;
    destruct (2 <? nb)%nat; cbn [Nat.ltb Nat.leb snd app In];
    intuition discriminate.
Qed.

End Score_rules.

(** A text with a match of the Base64 pattern has 16 characters or more. *)
Lemma finditer_base64_short : forall text : str,
  (length text < 16)%nat -> finditer pattern_base64 text = [].
Proof.
  intros text Hlen.
  destruct patterns_match_prefix as (Hp & _ & _).
  destruct (finditer_in_sequence text Hp) as [Hseq Hall].
  destruct (finditer pattern_base64 text) as [|m ms]; [reflexivity |].
  exfalso. inversion Hall as [|? ? (s & Hs) _]; subst.
  destruct (pattern_base64_match _ Hs)
    as (_ & body & pads & -> & _ & Hbody & _).
  simpl in Hseq. destruct Hseq as (gap & rest & -> & _).
  rewrite !length_app in Hlen. unfold min_length in Hbody. lia.
Qed.

(** X25: under the standard model, five or more findings of [detect_base64]
    make the text suspicious, whatever its length and whatever else is
    found: the rules for many patterns of high confidence and for many
    Base64 patterns give a score of about 6. *)
Theorem five_base64_findings_are_suspicious :
  forall (F : FloatOps) (U : UnicodeTables),
    StandardModel F ->
    forall (text : str) (d : detection) (base64_findings : list finding),
      detect_encodings text = Ok d ->
      detect_base64 text = Ok base64_findings ->
      (5 <= length base64_findings)%nat ->
      suspicious d = true
      /\ In (Multiple_Base64_patterns (length base64_findings))
           (suspicion_reasons d).
Proof.
  intros F U SM text d b0 Hd Hb0 Hfive.
  destruct (Nat.lt_ge_cases (length text) 16) as [Hshort | Hlong].
  { exfalso. unfold detect_base64 in Hb0.
    rewrite (finditer_base64_short text Hshort) in Hb0.
    injection Hb0 as <-. simpl in Hfive. lia. }
  destruct (detect_encodings_long text Hlong Hd)
    as (b & h & u & e & density & Hb & _ & _ & _ & _ & Hsr).
  rewrite Hb0 in Hb. injection Hb as <-.
  cbn zeta in Hsr. destruct Hsr as (_ & Hs & _ & Hr).
  pose proof (detect_base64_confidence SM text Hb0) as Hconf.
  pose proof (count_high_confidence_base64 (h ++ u ++ e) Hconf) as Hhc.
  pose proof (@accumulate_score_many_base64 F SM density
                (count_high_confidence (b0 ++ h ++ u ++ e))
                (count_high_entropy e) (length b0) Hfive Hhc) as Hscore.
  rewrite Hr, Hs, (Rgtb_true Hscore). split; [reflexivity |].
  unfold accumulate_score.
  replace (2 <? length b0)%nat with true by (symmetry; apply Nat.ltb_lt; lia).
  repeat match goal with
  | |- context [if ?c then _ else _] => destruct c
  end; cbn [snd]; apply in_or_app; right; now left.
Qed.

(** X26: under the standard model, the reason for high-entropy blocks is
    never given: with the block size of 100 that [detect_encodings] uses,
    no block is found, and the rule that counts blocks with an entropy
    above 7.5 adds nothing to any score. *)
Theorem entropy_reason_is_never_given :
  forall (F : FloatOps) (U : UnicodeTables),
    StandardModel F ->
    forall (text : str) (d : detection),
      detect_encodings text = Ok d ->
      forall n, ~ In (High_entropy_blocks_found n) (suspicion_reasons d).
Proof.
  intros F U SM text d Hd n.
  destruct (Nat.lt_ge_cases (length text) 16) as [Hshort | Hlong].
  { rewrite (detect_encodings_short text Hshort Hd). simpl. tauto. }
  destruct (detect_encodings_long text Hlong Hd)
    as (b & h & u & e & density & _ & _ & _ & He & _ & Hsr).
  rewrite (detect_high_entropy_default SM) in He. injection He as <-.
  cbn zeta in Hsr. destruct Hsr as (_ & _ & _ & Hr). rewrite Hr.
  destruct (Rgtb _ 5); [| simpl; tauto].
  apply accumulate_score_no_entropy_reason.
Qed.

Lemma entropy_reason_is_never_given_witness :
  exists d,
    @detect_encodings exact_ops ascii_tables (b64encode sample_text) = Ok d
    /\ forall n, ~ In (High_entropy_blocks_found n) (suspicion_reasons d).
Proof.
  destruct (@detect_encodings_findings exact_ops ascii_tables
              exact_ops_standard (b64encode sample_text)) as (d & Hd & _).
  exists d. split; [exact Hd |].
  exact (@entropy_reason_is_never_given exact_ops ascii_tables
           exact_ops_standard (b64encode sample_text) d Hd).
Defined.

Lemma base64_candidate_sample : forall findings,
  @base64_candidate exact_ops ascii_tables findings (b64encode sample_text)
  = Ok (findings
        ++ [text_finding base64 (b64encode sample_text) sample_text
              (9 / 10)]).
Proof.
  intros findings. unfold base64_candidate.
  replace (length (rstrip_equals (b64encode sample_text)) <? min_length)%nat
    with false by (vm_compute; reflexivity).
  replace (b64decode (pad_base64 (b64encode sample_text)))
    with (@Ok bytes sample_text) by (vm_compute; reflexivity).
  cbn [bind].
  rewrite (@classify_decoded_text exact_ops ascii_tables findings
             (b64encode sample_text) sample_text base64 (9 / 10)
             (Some (base64_binary, (7 / 10)%R)) sample_text
             ltac:(vm_compute; reflexivity) sample_text_readable).
  reflexivity.
Qed.

Lemma five_base64_findings_are_suspicious_witness :
  exists d,
    @detect_encodings exact_ops ascii_tables sample_five_base64 = Ok d
    /\ suspicious d = true
    /\ In (Multiple_Base64_patterns 5) (suspicion_reasons d).
Proof.
  destruct (@detect_encodings_findings exact_ops ascii_tables
              exact_ops_standard sample_five_base64) as (d & Hd & _).
  exists d. split; [exact Hd |].
  assert (Hb : @detect_base64 exact_ops ascii_tables sample_five_base64
               = Ok (repeat (text_finding base64 (b64encode sample_text)
                               sample_text (9 / 10)) 5)).
  { unfold detect_base64.
    replace (finditer pattern_base64 sample_five_base64)
      with (repeat (b64encode sample_text) 5) by (vm_compute; reflexivity).
    cbn [repeat for_each].
    repeat (rewrite base64_candidate_sample; cbn [bind app]).
    reflexivity. }
  apply (@five_base64_findings_are_suspicious exact_ops ascii_tables
           exact_ops_standard sample_five_base64 d _ Hd Hb).
  simpl. lia.
Defined.

(** ** Sample pages with findings *)

Lemma detect_url_encoding_findings_witness :
  exists f,
    @detect_url_encoding exact_ops ascii_tables
      (percent_encode true sample_text) = Ok [f]
    /\ in_sequence [f_content f] (percent_encode true sample_text)
    /\ (percent_groups (f_content f) = f_content f
        /\ (9 <= length (f_content f))%nat)
    /\ @reports_text exact_ops ascii_tables url_encoding (8 / 10)
         (fun e => fromhex (remove_percent e)) f.
Proof.
  pose proof (@detect_url_of_encoding exact_ops ascii_tables true sample_text
                sample_text eq_refl sample_text_readable
                ltac:(vm_compute; lia)) as E.
  destruct (@detect_url_encoding_findings exact_ops ascii_tables
              exact_ops_standard (percent_encode true sample_text))
    as (fs & Hfs & Hseq & Hall).
  rewrite E in Hfs. injection Hfs as Hfs. rewrite <- Hfs in Hseq, Hall.
  exists (text_finding url_encoding (percent_encode true sample_text)
            sample_text (8 / 10)).
  split; [exact E |]. split; [exact Hseq |]. exact (Forall_inv Hall).
Defined.

Lemma url_candidate_sample : forall findings,
  @url_candidate exact_ops ascii_tables findings
    (percent_encode true sample_text)
  = Ok (findings
        ++ [text_finding url_encoding (percent_encode true sample_text)
              sample_text (8 / 10)]).
Proof.
  intros findings. unfold url_candidate.
  replace (fromhex (remove_percent (percent_encode true sample_text)))
    with (@Ok bytes sample_text) by (vm_compute; reflexivity).
  cbn [bind].
  rewrite (@classify_decoded_text exact_ops ascii_tables findings
             (percent_encode true sample_text) sample_text url_encoding
             (8 / 10) None sample_text
             ltac:(vm_compute; reflexivity) sample_text_readable).
  reflexivity.
Qed.

Lemma findings_sorted_by_confidence_witness :
  exists d,
    @detect_encodings exact_ops ascii_tables sample_mixed = Ok d
    /\ @detect_base64 exact_ops ascii_tables sample_mixed
       = Ok [text_finding base64 (b64encode sample_text) sample_text
               (9 / 10)]
    /\ @detect_hex exact_ops ascii_tables sample_mixed = Ok []
    /\ @detect_url_encoding exact_ops ascii_tables sample_mixed
       = Ok [text_finding url_encoding (percent_encode true sample_text)
               sample_text (8 / 10)]
    /\ @detect_high_entropy exact_ops sample_mixed 100 = Ok []
    /\ findings d
       = [text_finding base64 (b64encode sample_text) sample_text (9 / 10);
          text_finding url_encoding (percent_encode true sample_text)
            sample_text (8 / 10)]
    /\ StronglySorted confidence_ge (findings d).
Proof.
  destruct (@detect_encodings_findings exact_ops ascii_tables
              exact_ops_standard sample_mixed) as (d & Hd & _).
  destruct (@findings_sorted_by_confidence exact_ops ascii_tables
              sample_mixed d ltac:(vm_compute; lia) Hd)
    as (b & h & u & e & Hb & Hh & Hu & He & Hperm & Hsorted).
  assert (Hb' : @detect_base64 exact_ops ascii_tables sample_mixed
                = Ok [text_finding base64 (b64encode sample_text)
                        sample_text (9 / 10)]).
  { unfold detect_base64.
    replace (finditer pattern_base64 sample_mixed)
      with [b64encode sample_text] by (vm_compute; reflexivity).
    cbn [for_each]. rewrite base64_candidate_sample. reflexivity. }
  assert (Hh' : @detect_hex exact_ops ascii_tables sample_mixed = Ok []).
  { unfold detect_hex.
    replace (finditer pattern_hex sample_mixed) with (@nil str)
      by (vm_compute; reflexivity).
    reflexivity. }
  assert (Hu' : @detect_url_encoding exact_ops ascii_tables sample_mixed
                = Ok [text_finding url_encoding
                        (percent_encode true sample_text) sample_text
                        (8 / 10)]).
  { unfold detect_url_encoding.
    replace (finditer pattern_url sample_mixed)
      with [percent_encode true sample_text] by (vm_compute; reflexivity).
    cbn [for_each]. rewrite url_candidate_sample. reflexivity. }
  pose proof (@detect_high_entropy_default exact_ops exact_ops_standard
                sample_mixed) as He'.
  rewrite Hb' in Hb. rewrite Hh' in Hh. rewrite Hu' in Hu.
  rewrite He' in He.
  injection Hb as <-. injection Hh as <-. injection Hu as <-.
  injection He as <-. cbn [app] in Hperm.
  exists d. repeat (split; [assumption |]). split; [| exact Hsorted].
  apply Permutation_sym, Permutation_length_2_inv in Hperm.
  destruct Hperm as [E | E]; [exact E | exfalso].
  rewrite E in Hsorted.
  inversion Hsorted as [|? ? _ Hall]; subst.
  inversion Hall as [|? ? Hge _]; subst.
  unfold confidence_ge in Hge. cbn [text_finding f_confidence] in Hge. lra.
Defined.
